(** * n8n Configuration Wizard: validation, diff/revert and output generation

    A shallow embedding of the wizard's core library
    ([lib/constants.ts], [lib/validation/rules.ts],
    [lib/validation/validator.ts], [lib/diff.ts], the registry and the
    generator of [lib/n8n-config.ts], [lib/parser/env-parser.ts] and the
    format detection of [lib/parser/index.ts]) together with the
    properties its specification states about it, and further properties
    read off the code.

    Conventions of the embedding.
    - A JavaScript string is a [string]; each character stands for one
      UTF-16 code unit below 256.
    - A value that may be [undefined] or [null] is an [option string].
    - A [Record<string, string>] is the list of its own properties in
      [Object.entries] order ([Obj string]); the numeric-first ordering
      of integer-like keys is outside the model.
    - Every plain object inherits from [Object.prototype]: [k in o] and
      [o[k]] for a name [k] that comes with the data see the inherited
      properties, and [o[k] = v] obeys the setter of [__proto__]
      ([hasProperty], [getProperty], [setProperty]). [Object.prototype]
      itself is as the language defines it.
    - A call returns or throws ([Outcome]); the rule cache of
      [lib/validation/rules.ts] is threaded through the calls that reach
      it.
    - [new Date().toISOString()] is an explicit [timestamp] argument, and
      [String.prototype.localeCompare] is a section variable.
    - [JSON.parse] and js-yaml are outside the model: what
      [lib/parser/index.ts] takes from them are section variables. *)

From Stdlib Require Import Bool Arith Lia ZArith List Ascii String Sorted Permutation.
Import ListNotations.
Open Scope string_scope.
Open Scope list_scope.

Set Implicit Arguments.

(* ====================================================================== *)
(** ** JavaScript strings *)
(* ====================================================================== *)

Module JsString.

(** [WhiteSpace] and [LineTerminator] code units below 256: TAB, LF, VT,
    FF, CR, SP and NBSP. *)
Definition isWhiteSpace (c : ascii) : bool :=
  let n := nat_of_ascii c in
  (((9 <=? n) && (n <=? 13)) || (n =? 32) || (n =? 160))%nat.

Fixpoint trimStart (s : string) : string :=
  match s with
  | EmptyString => EmptyString
  | String c s' => if isWhiteSpace c then trimStart s' else s
  end.

Fixpoint trimEnd (s : string) : string :=
  match s with
  | EmptyString => EmptyString
  | String c s' =>
      match trimEnd s' with
      | EmptyString => if isWhiteSpace c then EmptyString else String c EmptyString
      | t => String c t
      end
  end.

(** [s.trim()] *)
Definition trim (s : string) : string := trimEnd (trimStart s).

(** [parts.join(sep)] *)
Definition join (sep : string) (parts : list string) : string :=
  String.concat sep parts.

(** [a || b] on a possibly undefined string: the empty string and
    [undefined] are both falsy. *)
Definition orElse (a : option string) (b : string) : string :=
  match a with
  | Some s => if s =? "" then b else s
  | None => b
  end.

(** [a ?? b] *)
Definition nullish (a : option string) (b : string) : string :=
  match a with
  | Some s => s
  | None => b
  end.

(** The double quote character, as a one-character string. *)
Definition dquote : string := String (ascii_of_nat 34) EmptyString.

(** The form under which [/.../i] compares a code unit with an ASCII
    letter of the pattern: ASCII letters are folded to one case, and no
    other code unit folds to an ASCII letter. *)
Definition canonicalize (c : ascii) : ascii :=
  let n := nat_of_ascii c in
  if ((65 <=? n) && (n <=? 90))%nat then ascii_of_nat (n + 32) else c.

Fixpoint fold (s : string) : string :=
  match s with
  | EmptyString => EmptyString
  | String c s' => String (canonicalize c) (fold s')
  end.

Definition isDigit (c : ascii) : bool :=
  let n := nat_of_ascii c in ((48 <=? n) && (n <=? 57))%nat.

Fixpoint allDigits (s : string) : bool :=
  match s with
  | EmptyString => true
  | String c s' => isDigit c && allDigits s'
  end.

End JsString.
Import JsString.

(* ====================================================================== *)
(** ** Regular expressions used by the library *)
(* ====================================================================== *)

(** The shapes of regular expression the sources use: a literal searched
    anywhere ([/lit/i]), a literal anchored at the end ([/lit$/i]), and
    the integer pattern [/^-?\d+$/]. *)
Inductive RegExp : Type :=
| AnywhereCI (lit : string)
| AtEndCI (lit : string)
| Integer.

(** Does the folded literal sit at the front of the folded subject? *)
Fixpoint startsWith (lit s : string) : bool :=
  match lit, s with
  | EmptyString, _ => true
  | String a lit', String b s' => Ascii.eqb a b && startsWith lit' s'
  | String _ _, EmptyString => false
  end.

Fixpoint searchFrom (lit s : string) : bool :=
  startsWith lit s ||
  match s with
  | EmptyString => false
  | String _ s' => searchFrom lit s'
  end.

Fixpoint matchAtEnd (lit s : string) : bool :=
  (s =? lit) ||
  match s with
  | EmptyString => false
  | String _ s' => matchAtEnd lit s'
  end.

(** [re.test(s)] *)
Definition test (re : RegExp) (s : string) : bool :=
  match re with
  | AnywhereCI lit => searchFrom (fold lit) (fold s)
  | AtEndCI lit => matchAtEnd (fold lit) (fold s)
  | Integer =>
      let digits := match s with
                    | String "-"%char rest => rest
                    | _ => s
                    end in
      negb (digits =? "") && allDigits digits
  end.

(* ====================================================================== *)
(** ** Plain objects used as string-keyed maps *)
(* ====================================================================== *)

(** The names under which every plain object inherits a property: the
    properties of [Object.prototype] (ECMA-262, 20.1.3 and B.2.2). Eleven
    of them hold a function; [__proto__] is an accessor, whose getter
    gives [Object.prototype] itself and whose setter ignores a string. *)
Definition OBJECT_PROTOTYPE_KEYS : list string :=
  [ "constructor"; "__defineGetter__"; "__defineSetter__"; "hasOwnProperty";
    "__lookupGetter__"; "__lookupSetter__"; "isPrototypeOf";
    "propertyIsEnumerable"; "toString"; "valueOf"; "__proto__";
    "toLocaleString" ].

Definition inheritsKey (k : string) : bool :=
  existsb (fun name => name =? k) OBJECT_PROTOTYPE_KEYS.

Section Objects.
Variable V : Type.

(** The own enumerable properties of a plain object, in [Object.entries]
    order; also the entries of a [Map], in insertion order. *)
Definition Obj := list (string * V).

(** [Object.keys(o)] *)
Definition keys (o : Obj) : list string := map fst o.

(** The own property [k]: [map.get(k)], and [o[k]] or [o.k] where [k] is
    one of the constant names of the sources, none of which is a key of
    [Object.prototype]. [None] is [undefined]. *)
Fixpoint lookup (k : string) (o : Obj) : option V :=
  match o with
  | [] => None
  | (k', v) :: o' => if k' =? k then Some v else lookup k o'
  end.

(** [Object.hasOwn(o, k)], [map.has(k)] *)
Definition hasKey (k : string) (o : Obj) : bool :=
  match lookup k o with
  | Some _ => true
  | None => false
  end.

(** [k in o]: an own property, or one inherited from
    [Object.prototype]. *)
Definition hasProperty (k : string) (o : Obj) : bool :=
  hasKey k o || inheritsKey k.

(** What [o[k]] evaluates to for an arbitrary name [k]: the own value,
    the member of [Object.prototype] of that name, or [undefined]. *)
Inductive Read : Type :=
| Own (v : V)
| Member
| Undefined.

Definition getProperty (k : string) (o : Obj) : Read :=
  match lookup k o with
  | Some v => Own v
  | None => if inheritsKey k then Member else Undefined
  end.

(** [map.set(k, v)], and the definition of the own property [k]: an
    existing property keeps its place, a new one goes last. *)
Fixpoint assign (k : string) (v : V) (o : Obj) : Obj :=
  match o with
  | [] => [(k, v)]
  | (k', v') :: o' => if k' =? k then (k, v) :: o' else (k', v') :: assign k v o'
  end.

(** [o[k] = v] on a plain object, for the values the sources store (a
    string, or what was read from [Object.prototype] under the same
    name): an own property is updated; without one, the name [__proto__]
    reaches the setter of [Object.prototype], which stores nothing, and
    every other name gets a new own property. *)
Definition setProperty (k : string) (v : V) (o : Obj) : Obj :=
  if hasKey k o then assign k v o
  else if k =? "__proto__" then o
  else assign k v o.

(** [delete o[k]] *)
Definition deleteProp (k : string) (o : Obj) : Obj :=
  filter (fun kv => negb (fst kv =? k)) o.
End Objects.

Arguments lookup {V} k o.
Arguments hasKey {V} k o.
Arguments hasProperty {V} k o.
Arguments Own {V} v.
Arguments Member {V}.
Arguments Undefined {V}.
Arguments getProperty {V} k o.
Arguments assign {V} k v o.
Arguments setProperty {V} k v o.
Arguments deleteProp {V} k o.
Arguments keys {V} o.

(** How a call ends: with a value, or with an exception. The only
    exception the sources can raise is the [TypeError] of a call on
    something that is no function. *)
Inductive Exception : Type := TypeError.

Inductive Outcome (A : Type) : Type :=
| Returns (a : A)
| Throws (e : Exception).

Arguments Returns {A} a.
Arguments Throws {A} e.

(** The configuration map: [Record<string, string>]. *)
Definition Config := Obj string.

(* ====================================================================== *)
(** ** lib/types.ts *)
(* ====================================================================== *)

Inductive Severity : Type := error | warning.

Record ValidationError : Type := mkError {
  err_field : string;
  err_message : string;
  err_type : Severity
}.

Record ValidationResult : Type := mkResult {
  valid : bool;
  errors : list ValidationError;
  warnings : list ValidationError
}.

Inductive ValidationRuleType : Type :=
| required | numeric | pattern | dependency | enum | boolean.

Record FieldValidationRule : Type := mkRule {
  rule_type : ValidationRuleType;
  rule_message : string;
  rule_validate : option string -> Config -> bool
}.

Definition Severity_eqb (a b : Severity) : bool :=
  match a, b with
  | error, error | warning, warning => true
  | _, _ => false
  end.

(* ====================================================================== *)
(** ** lib/constants.ts *)
(* ====================================================================== *)

Definition ENUM_VALUES : Obj (list string) :=
  [ ("N8N_PROTOCOL", ["http"; "https"]);
    ("DB_TYPE", ["sqlite"; "postgresdb"]);
    ("EXECUTIONS_MODE", ["regular"; "queue"]);
    ("EXECUTIONS_DATA_SAVE_ON_ERROR", ["all"; "none"]);
    ("EXECUTIONS_DATA_SAVE_ON_SUCCESS", ["all"; "none"]);
    ("N8N_SAMESITE_COOKIE", ["strict"; "lax"; "none"]);
    ("N8N_LOG_LEVEL", ["info"; "warn"; "error"; "debug"]);
    ("N8N_LOG_OUTPUT", ["console"; "file"]);
    ("N8N_LOG_FORMAT", ["text"; "json"]);
    ("N8N_DEFAULT_BINARY_DATA_MODE", ["default"; "filesystem"; "s3"; "database"]);
    ("N8N_SOURCECONTROL_DEFAULT_SSH_KEY_TYPE", ["ed25519"; "rsa"]) ].

Definition REQUIRED_FIELDS : list string :=
  [ "N8N_HOST"; "N8N_PORT"; "DB_TYPE" ].

Definition POSTGRES_REQUIRED_FIELDS : list string :=
  [ "DB_POSTGRESDB_HOST"; "DB_POSTGRESDB_PORT";
    "DB_POSTGRESDB_DATABASE"; "DB_POSTGRESDB_USER" ].

Definition REDIS_REQUIRED_FIELDS : list string :=
  [ "QUEUE_BULL_REDIS_HOST"; "QUEUE_BULL_REDIS_PORT" ].

Definition NUMERIC_FIELDS : list string :=
  [ "N8N_PORT"; "N8N_GRACEFUL_SHUTDOWN_TIMEOUT"; "N8N_PROXY_HOPS";
    "DB_POSTGRESDB_PORT"; "DB_POSTGRESDB_POOL_SIZE"; "DB_SQLITE_POOL_SIZE";
    "EXECUTIONS_TIMEOUT"; "EXECUTIONS_TIMEOUT_MAX"; "EXECUTIONS_DATA_MAX_AGE";
    "EXECUTIONS_DATA_PRUNE_MAX_COUNT"; "N8N_CONCURRENCY_PRODUCTION_LIMIT";
    "QUEUE_BULL_REDIS_PORT"; "QUEUE_BULL_REDIS_DB"; "QUEUE_HEALTH_CHECK_PORT";
    "N8N_USER_MANAGEMENT_JWT_DURATION_HOURS"; "N8N_LOG_FILE_COUNT_MAX";
    "N8N_LOG_FILE_SIZE_MAX"; "N8N_SMTP_PORT"; "N8N_PAYLOAD_SIZE_MAX" ].

Definition BOOLEAN_FIELDS : list string :=
  [ "N8N_DISABLE_UI"; "N8N_TEMPLATES_ENABLED"; "DB_POSTGRESDB_SSL_ENABLED";
    "EXECUTIONS_DATA_PRUNE"; "QUEUE_BULL_REDIS_TLS"; "QUEUE_HEALTH_CHECK_ACTIVE";
    "N8N_MULTI_MAIN_SETUP_ENABLED"; "OFFLOAD_MANUAL_EXECUTIONS_TO_WORKERS";
    "N8N_SECURE_COOKIE"; "N8N_BLOCK_ENV_ACCESS_IN_NODE";
    "N8N_BLOCK_FILE_ACCESS_TO_N8N_FILES"; "N8N_MFA_ENABLED"; "DB_LOGGING_ENABLED";
    "N8N_SMTP_SSL"; "N8N_SMTP_STARTTLS"; "N8N_DIAGNOSTICS_ENABLED"; "N8N_METRICS";
    "N8N_PUBLIC_API_DISABLED"; "N8N_COMMUNITY_PACKAGES_ENABLED";
    "N8N_PYTHON_ENABLED" ].

(** [list.includes(x)] *)
Definition includes (l : list string) (x : string) : bool :=
  existsb (fun y => y =? x) l.

Definition isDefined (value : option string) : bool :=
  match value with
  | Some _ => true
  | None => false
  end.

(** [value === ''] on a possibly undefined value *)
Definition isEmptyString (value : option string) : bool :=
  match value with
  | Some s => s =? ""
  | None => false
  end.

(** [value !== undefined && value !== null && value.trim() !== ''] *)
Definition isFilled (value : option string) : bool :=
  match value with
  | Some s => negb (trim s =? "")
  | None => false
  end.

(** [value === undefined || value === null || value.trim() === ''] *)
Definition isBlank (value : option string) : bool :=
  match value with
  | Some s => trim s =? ""
  | None => true
  end.

Definition createNumericRule (fieldName : string) : FieldValidationRule :=
  {| rule_type := numeric;
     rule_message := fieldName ++ " must be a valid number";
     rule_validate := fun value _ =>
       match value with
       | None => true
       | Some s => if s =? "" then true else test Integer s
       end |}.

Definition createBooleanRule (fieldName : string) : FieldValidationRule :=
  {| rule_type := boolean;
     rule_message := fieldName ++ " must be 'true' or 'false'";
     rule_validate := fun value _ =>
       match value with
       | None => true
       | Some s => if s =? "" then true else (s =? "true") || (s =? "false")
       end |}.

(** The rule [createEnumRule] builds from an array. *)
Definition enumRule (fieldName : string) (allowedValues : list string)
  : FieldValidationRule :=
  {| rule_type := enum;
     rule_message := fieldName ++ " must be one of: " ++ join ", " allowedValues;
     rule_validate := fun value _ =>
       match value with
       | None => true
       | Some s => if s =? "" then true else includes allowedValues s
       end |}.

(** [allowedValues] is whatever [ENUM_VALUES[fieldName]] was: the message
    calls [allowedValues.join], which only an array has. *)
Definition createEnumRule (fieldName : string) (allowedValues : Read (list string))
  : Outcome FieldValidationRule :=
  match allowedValues with
  | Own allowedValues => Returns (enumRule fieldName allowedValues)
  | Member | Undefined => Throws TypeError
  end.

Definition createRequiredRule (fieldName : string) : FieldValidationRule :=
  {| rule_type := required;
     rule_message := fieldName ++ " is required";
     rule_validate := fun value _ =>
       negb (isEmptyString value) && isDefined value |}.

Definition postgresMessage (fieldName : string) : string :=
  fieldName ++ " is required when using PostgreSQL database".

Definition redisMessage (fieldName : string) : string :=
  fieldName ++ " is required when using Queue mode".

(** [config.DB_TYPE === 'postgresdb'] *)
Definition usesPostgres (config : Config) : bool :=
  match lookup "DB_TYPE" config with
  | Some s => s =? "postgresdb"
  | None => false
  end.

(** [config.EXECUTIONS_MODE === 'queue'] *)
Definition usesQueue (config : Config) : bool :=
  match lookup "EXECUTIONS_MODE" config with
  | Some s => s =? "queue"
  | None => false
  end.

Definition createPostgresDependencyRule (fieldName : string) : FieldValidationRule :=
  {| rule_type := dependency;
     rule_message := postgresMessage fieldName;
     rule_validate := fun value config =>
       if negb (usesPostgres config) then true else isFilled value |}.

Definition createRedisDependencyRule (fieldName : string) : FieldValidationRule :=
  {| rule_type := dependency;
     rule_message := redisMessage fieldName;
     rule_validate := fun value config =>
       if negb (usesQueue config) then true else isFilled value |}.

Definition SECRET_PLACEHOLDER : string := "********".

(* ====================================================================== *)
(** ** lib/validation/rules.ts *)
(* ====================================================================== *)

(** [rules.push(r)] when [b] holds. *)
Definition pushIf {A : Type} (b : bool) (r : A) (rules : list A) : list A :=
  if b then rules ++ [r] else rules.

Definition buildFieldRules (fieldName : string) : Outcome (list FieldValidationRule) :=
  let rules := [] in
  let rules := pushIf (includes REQUIRED_FIELDS fieldName)
                      (createRequiredRule fieldName) rules in
  let rules := pushIf (includes NUMERIC_FIELDS fieldName)
                      (createNumericRule fieldName) rules in
  let rules := pushIf (includes BOOLEAN_FIELDS fieldName)
                      (createBooleanRule fieldName) rules in
  match
    (if hasProperty fieldName ENUM_VALUES
     then match createEnumRule fieldName (getProperty fieldName ENUM_VALUES) with
          | Returns rule => Returns (rules ++ [rule])
          | Throws e => Throws e
          end
     else Returns rules)
  with
  | Throws e => Throws e
  | Returns rules =>
      let rules := pushIf (includes POSTGRES_REQUIRED_FIELDS fieldName)
                          (createPostgresDependencyRule fieldName) rules in
      let rules := pushIf (includes REDIS_REQUIRED_FIELDS fieldName)
                          (createRedisDependencyRule fieldName) rules in
      Returns rules
  end.

(** The module-level [fieldRulesCache : Map<string, FieldValidationRule[]>],
    threaded explicitly through every function that reaches it. *)
Definition RulesCache := Obj (list FieldValidationRule).

(** An exception of [buildFieldRules] leaves before [fieldRulesCache.set]
    is called. *)
Definition getFieldRules (fieldName : string) (cache : RulesCache)
  : Outcome (list FieldValidationRule) * RulesCache :=
  match
    (if negb (hasKey fieldName cache)
     then match buildFieldRules fieldName with
          | Returns rules => Returns (assign fieldName rules cache)
          | Throws e => Throws e
          end
     else Returns cache)
  with
  | Throws e => (Throws e, cache)
  | Returns cache =>
      (Returns match lookup fieldName cache with
               | Some rules => rules
               | None => []
               end, cache)
  end.

Definition clearFieldRulesCache (_ : RulesCache) : RulesCache := [].

(* ====================================================================== *)
(** ** lib/validation/validator.ts *)
(* ====================================================================== *)

Definition validateField (fieldName value : string) (config : Config)
  (cache : RulesCache) : Outcome (list ValidationError) * RulesCache :=
  match getFieldRules fieldName cache with
  | (Throws e, cache) => (Throws e, cache)
  | (Returns rules, cache) =>
      (Returns
         (fold_left
            (fun errors rule =>
               let isValid := rule_validate rule (Some value) config in
               if negb isValid
               then errors ++ [mkError fieldName (rule_message rule) error]
               else errors)
            rules []), cache)
  end.

(** One of the two dependency loops of [validateConfig]: [fields] is the
    required list and [message] builds the text of the error. *)
Definition dependencyPass (message : string -> string) (fields : list string)
  (config : Config) (errors : list ValidationError) : list ValidationError :=
  fold_left
    (fun errors field =>
       let value := lookup field config in
       let isEmpty := isBlank value in
       if isEmpty then
         let alreadyHasError :=
           existsb (fun e => (err_field e =? field) && Severity_eqb (err_type e) error)
                   errors in
         if negb alreadyHasError
         then errors ++ [mkError field (message field) error]
         else errors
       else errors)
    fields errors.

(** The first loop of [validateConfig]: an exception of [validateField]
    ends it, and with it the call. *)
Definition validateFields (config : Config) (cache : RulesCache)
  : Outcome (list ValidationError) * RulesCache :=
  fold_left
    (fun (st : Outcome (list ValidationError) * RulesCache)
         (entry : string * string) =>
       match st with
       | (Throws e, cache) => (Throws e, cache)
       | (Returns errors, cache) =>
           let '(fieldName, value) := entry in
           match validateField fieldName value config cache with
           | (Throws e, cache) => (Throws e, cache)
           | (Returns fieldErrors, cache) => (Returns (errors ++ fieldErrors), cache)
           end
       end)
    config (Returns [], cache).

Definition validateConfig (config : Config) (cache : RulesCache)
  : Outcome ValidationResult * RulesCache :=
  let warnings := [] in
  match validateFields config cache with
  | (Throws e, cache) => (Throws e, cache)
  | (Returns errors, cache) =>
      let errors :=
        if usesPostgres config
        then dependencyPass postgresMessage POSTGRES_REQUIRED_FIELDS config errors
        else errors in
      let errors :=
        if usesQueue config
        then dependencyPass redisMessage REDIS_REQUIRED_FIELDS config errors
        else errors in
      (Returns {| valid := (List.length errors =? 0)%nat;
                  errors := errors;
                  warnings := warnings |}, cache)
  end.

Definition canGenerate (config : Config) (cache : RulesCache)
  : Outcome bool * RulesCache :=
  match validateConfig config cache with
  | (Throws e, cache) => (Throws e, cache)
  | (Returns result, cache) => (Returns (valid result), cache)
  end.

(* ====================================================================== *)
(** ** lib/n8n-config.ts: the field schema registry *)
(* ====================================================================== *)

(** [EnvVariable], without its [description]; an omitted [required] or
    [fileSupport] reads as [false]. *)
Record EnvVariable : Type := mkVar {
  var_name : string;
  var_type : string;
  var_default : string;
  var_required : bool;
  var_fileSupport : bool
}.

(** [ConfigCategory], without its display [name], [description] and
    [icon]. *)
Record ConfigCategory : Type := mkCategory {
  cat_id : string;
  cat_variables : list EnvVariable
}.

Definition categories : list ConfigCategory :=
  [ {| cat_id := "deployment";
       cat_variables :=
         [ mkVar "N8N_HOST" "String" "localhost" true false;
           mkVar "N8N_PORT" "Number" "5678" true false;
           mkVar "N8N_PROTOCOL" "Enum" "http" false false;
           mkVar "N8N_EDITOR_BASE_URL" "String" "" false false;
           mkVar "N8N_PATH" "String" "/" false false;
           mkVar "N8N_LISTEN_ADDRESS" "String" "::" false false;
           mkVar "N8N_SSL_KEY" "String" "" false true;
           mkVar "N8N_SSL_CERT" "String" "" false true;
           mkVar "N8N_ENCRYPTION_KEY" "String" "" false true;
           mkVar "N8N_USER_FOLDER" "String" "user-folder" false false;
           mkVar "N8N_DISABLE_UI" "Boolean" "false" false false;
           mkVar "N8N_TEMPLATES_ENABLED" "Boolean" "false" false false;
           mkVar "N8N_GRACEFUL_SHUTDOWN_TIMEOUT" "Number" "30" false false;
           mkVar "N8N_PROXY_HOPS" "Number" "0" false false ] |};
    {| cat_id := "database";
       cat_variables :=
         [ mkVar "DB_TYPE" "Enum" "sqlite" true false;
           mkVar "DB_TABLE_PREFIX" "String" "" false false;
           mkVar "DB_POSTGRESDB_HOST" "String" "localhost" false true;
           mkVar "DB_POSTGRESDB_PORT" "Number" "5432" false true;
           mkVar "DB_POSTGRESDB_DATABASE" "String" "n8n" false true;
           mkVar "DB_POSTGRESDB_USER" "String" "postgres" false true;
           mkVar "DB_POSTGRESDB_PASSWORD" "String" "" false true;
           mkVar "DB_POSTGRESDB_POOL_SIZE" "Number" "2" false true;
           mkVar "DB_POSTGRESDB_SCHEMA" "String" "public" false true;
           mkVar "DB_POSTGRESDB_SSL_ENABLED" "Boolean" "false" false true;
           mkVar "DB_SQLITE_POOL_SIZE" "Number" "0" false false ] |};
    {| cat_id := "executions";
       cat_variables :=
         [ mkVar "EXECUTIONS_MODE" "Enum" "regular" false false;
           mkVar "EXECUTIONS_TIMEOUT" "Number" "-1" false false;
           mkVar "EXECUTIONS_TIMEOUT_MAX" "Number" "3600" false false;
           mkVar "EXECUTIONS_DATA_SAVE_ON_ERROR" "Enum" "all" false false;
           mkVar "EXECUTIONS_DATA_SAVE_ON_SUCCESS" "Enum" "all" false false;
           mkVar "EXECUTIONS_DATA_PRUNE" "Boolean" "true" false false;
           mkVar "EXECUTIONS_DATA_MAX_AGE" "Number" "336" false false;
           mkVar "EXECUTIONS_DATA_PRUNE_MAX_COUNT" "Number" "10000" false false;
           mkVar "N8N_CONCURRENCY_PRODUCTION_LIMIT" "Number" "-1" false false ] |};
    {| cat_id := "queue";
       cat_variables :=
         [ mkVar "QUEUE_BULL_REDIS_HOST" "String" "localhost" false false;
           mkVar "QUEUE_BULL_REDIS_PORT" "Number" "6379" false false;
           mkVar "QUEUE_BULL_REDIS_DB" "Number" "0" false false;
           mkVar "QUEUE_BULL_REDIS_USERNAME" "String" "" false false;
           mkVar "QUEUE_BULL_REDIS_PASSWORD" "String" "" false false;
           mkVar "QUEUE_BULL_REDIS_TLS" "Boolean" "false" false false;
           mkVar "QUEUE_BULL_PREFIX" "String" "" false false;
           mkVar "QUEUE_HEALTH_CHECK_ACTIVE" "Boolean" "false" false false;
           mkVar "QUEUE_HEALTH_CHECK_PORT" "Number" "5678" false false;
           mkVar "N8N_MULTI_MAIN_SETUP_ENABLED" "Boolean" "false" false false;
           mkVar "OFFLOAD_MANUAL_EXECUTIONS_TO_WORKERS" "Boolean" "false" false false ] |};
    {| cat_id := "security";
       cat_variables :=
         [ mkVar "N8N_SECURE_COOKIE" "Boolean" "true" false false;
           mkVar "N8N_SAMESITE_COOKIE" "Enum" "lax" false false;
           mkVar "N8N_BLOCK_ENV_ACCESS_IN_NODE" "Boolean" "false" false false;
           mkVar "N8N_BLOCK_FILE_ACCESS_TO_N8N_FILES" "Boolean" "true" false false;
           mkVar "N8N_RESTRICT_FILE_ACCESS_TO" "String" "" false false;
           mkVar "N8N_MFA_ENABLED" "Boolean" "true" false false;
           mkVar "N8N_USER_MANAGEMENT_JWT_SECRET" "String" "" false false;
           mkVar "N8N_USER_MANAGEMENT_JWT_DURATION_HOURS" "Number" "168" false false ] |};
    {| cat_id := "logs";
       cat_variables :=
         [ mkVar "N8N_LOG_LEVEL" "Enum" "info" false false;
           mkVar "N8N_LOG_OUTPUT" "Enum" "console" false false;
           mkVar "N8N_LOG_FORMAT" "Enum" "text" false false;
           mkVar "N8N_LOG_FILE_LOCATION" "String" "" false false;
           mkVar "N8N_LOG_FILE_COUNT_MAX" "Number" "100" false false;
           mkVar "N8N_LOG_FILE_SIZE_MAX" "Number" "16" false false;
           mkVar "DB_LOGGING_ENABLED" "Boolean" "false" false false ] |};
    {| cat_id := "smtp";
       cat_variables :=
         [ mkVar "N8N_EMAIL_MODE" "String" "smtp" false false;
           mkVar "N8N_SMTP_HOST" "String" "" false false;
           mkVar "N8N_SMTP_PORT" "Number" "" false false;
           mkVar "N8N_SMTP_USER" "String" "" false false;
           mkVar "N8N_SMTP_PASS" "String" "" false false;
           mkVar "N8N_SMTP_SENDER" "String" "" false false;
           mkVar "N8N_SMTP_SSL" "Boolean" "true" false false;
           mkVar "N8N_SMTP_STARTTLS" "Boolean" "true" false false ] |};
    {| cat_id := "storage";
       cat_variables :=
         [ mkVar "N8N_DEFAULT_BINARY_DATA_MODE" "Enum" "default" false false;
           mkVar "N8N_BINARY_DATA_STORAGE_PATH" "String" "" false false;
           mkVar "N8N_EXTERNAL_STORAGE_S3_HOST" "String" "" false false;
           mkVar "N8N_EXTERNAL_STORAGE_S3_BUCKET_NAME" "String" "" false false;
           mkVar "N8N_EXTERNAL_STORAGE_S3_BUCKET_REGION" "String" "" false false;
           mkVar "N8N_EXTERNAL_STORAGE_S3_ACCESS_KEY" "String" "" false false;
           mkVar "N8N_EXTERNAL_STORAGE_S3_ACCESS_SECRET" "String" "" false false ] |};
    {| cat_id := "ai";
       cat_variables :=
         [ mkVar "N8N_AI_ASSISTANT_BASE_URL" "String" "" false false;
           mkVar "N8N_DIAGNOSTICS_ENABLED" "Boolean" "true" false false ] |};
    {| cat_id := "source-control";
       cat_variables :=
         [ mkVar "N8N_SOURCECONTROL_DEFAULT_SSH_KEY_TYPE" "Enum" "ed25519" false false ] |};
    {| cat_id := "timezone";
       cat_variables :=
         [ mkVar "GENERIC_TIMEZONE" "String" "America/New_York" false false;
           mkVar "N8N_DEFAULT_LOCALE" "String" "en" false false ] |};
    {| cat_id := "endpoints";
       cat_variables :=
         [ mkVar "N8N_PAYLOAD_SIZE_MAX" "Number" "16" false false;
           mkVar "N8N_METRICS" "Boolean" "false" false false;
           mkVar "N8N_METRICS_PREFIX" "String" "n8n_" false false;
           mkVar "N8N_ENDPOINT_WEBHOOK" "String" "webhook" false false;
           mkVar "N8N_ENDPOINT_WEBHOOK_TEST" "String" "webhook-test" false false;
           mkVar "WEBHOOK_URL" "String" "" false false;
           mkVar "N8N_PUBLIC_API_DISABLED" "Boolean" "false" false false ] |};
    {| cat_id := "nodes";
       cat_variables :=
         [ mkVar "N8N_COMMUNITY_PACKAGES_ENABLED" "Boolean" "true" false false;
           mkVar "N8N_PYTHON_ENABLED" "Boolean" "true" false false;
           mkVar "NODE_FUNCTION_ALLOW_BUILTIN" "String" "" false false;
           mkVar "NODE_FUNCTION_ALLOW_EXTERNAL" "String" "" false false;
           mkVar "NODES_EXCLUDE" "String" "" false false;
           mkVar "N8N_CUSTOM_EXTENSIONS" "String" "" false false ] |} ].

(* ====================================================================== *)
(** ** lib/diff.ts *)
(* ====================================================================== *)

(** What a property of the objects of this module holds. The maps handed
    in hold strings; [revertField] can also store what it read from
    [Object.prototype] under the name of the property: [FromPrototype]
    stands for the value [Object.prototype] has under that name (a
    function, [Object.prototype] itself for [__proto__], [undefined] for
    any other name). *)
Inductive Value : Type :=
| Str (s : string)
| FromPrototype.

Definition JsObject := Obj Value.

(** A [Record<string, string>] as an object of this module. *)
Definition ofConfig (config : Config) : JsObject :=
  map (fun kv => (fst kv, Str (snd kv))) config.

(** [a === b], for two values read under the same name. *)
Definition Value_eqb (a b : Value) : bool :=
  match a, b with
  | Str s, Str t => s =? t
  | FromPrototype, FromPrototype => true
  | _, _ => false
  end.

(** [o[k] ?? '']: the own value, else the member of [Object.prototype],
    else the empty string. *)
Definition getOrEmpty (k : string) (o : JsObject) : Value :=
  match getProperty k o with
  | Own (Str s) => Str s
  | Own FromPrototype | Member => if inheritsKey k then FromPrototype else Str ""
  | Undefined => Str ""
  end.

Inductive DiffType : Type := added | modified | removed.

Record DiffEntry : Type := mkEntry {
  diff_field : string;
  diff_category : string;
  diff_type : DiffType;
  currentValue : Value;
  defaultValue : Value
}.

Record DiffResult : Type := mkDiff {
  entries : list DiffEntry;
  totalChanges : nat;
  hasChanges : bool
}.

Definition getFieldCategory (fieldName : string) : string :=
  (fix loop (cs : list ConfigCategory) : string :=
     match cs with
     | [] => "unknown"
     | category :: rest =>
         match find (fun v => var_name v =? fieldName) (cat_variables category) with
         | Some _ => cat_id category
         | None => loop rest
         end
     end) categories.

(** [set.add(x)] on a [Set<string>] kept in insertion order. *)
Definition setAdd (s : list string) (x : string) : list string :=
  if includes s x then s else s ++ [x].

(** [new Set(items)] *)
Definition newSet (items : list string) : list string :=
  fold_left setAdd items [].

(** [Array.prototype.sort(compare)]: the stable sort of the array under a
    comparator whose negative or zero result keeps the left argument
    first. *)
Fixpoint insertBy {A : Type} (compare : A -> A -> Z) (x : A) (l : list A) : list A :=
  match l with
  | [] => [x]
  | y :: l' => if (compare x y <=? 0)%Z then x :: l else y :: insertBy compare x l'
  end.

Definition sortBy {A : Type} (compare : A -> A -> Z) (l : list A) : list A :=
  fold_right (insertBy compare) [] l.

Section Diff.
(** [a.localeCompare(b)] of the host's collation. *)
Variable localeCompare : string -> string -> Z.

Definition compareEntries (a b : DiffEntry) : Z :=
  if negb (diff_category a =? diff_category b)
  then localeCompare (diff_category a) (diff_category b)
  else localeCompare (diff_field a) (diff_field b).

Definition classify (currentValue defaultValue : Value) : DiffType :=
  if Value_eqb defaultValue (Str "") && negb (Value_eqb currentValue (Str "")) then added
  else if Value_eqb currentValue (Str "") && negb (Value_eqb defaultValue (Str ""))
       then removed
  else modified.

Definition computeDiff (config defaults : JsObject) : DiffResult :=
  let allKeys := newSet (keys config ++ keys defaults) in
  let entries :=
    fold_left
      (fun entries field =>
         let currentValue := getOrEmpty field config in
         let defaultValue := getOrEmpty field defaults in
         if Value_eqb currentValue defaultValue then entries
         else
           let type := classify currentValue defaultValue in
           entries ++ [ {| diff_field := field;
                           diff_category := getFieldCategory field;
                           diff_type := type;
                           currentValue := currentValue;
                           defaultValue := defaultValue |} ])
      allKeys [] in
  let entries := sortBy compareEntries entries in
  {| entries := entries;
     totalChanges := List.length entries;
     hasChanges := (0 <? List.length entries)%nat |}.
End Diff.

(** *** The object store

    [revertField] and [revertAll] build a new object and write to it; to
    speak of what they do to the objects they were handed, objects live in
    a store and are passed by reference. *)

Definition ref := nat.

Record Store : Type := mkStore {
  cells : ref -> JsObject;
  next : ref
}.

(** A fresh object with the given properties: [{ ...o }]. *)
Definition alloc (o : JsObject) (st : Store) : ref * Store :=
  (next st,
   {| cells := fun r => if (r =? next st)%nat then o else cells st r;
      next := S (next st) |}).

(** An in-place update of the object at [r]. *)
Definition modify (r : ref) (f : JsObject -> JsObject) (st : Store) : Store :=
  {| cells := fun r' => if (r' =? r)%nat then f (cells st r) else cells st r';
     next := next st |}.

(** [defaults[field]], where [field in defaults] holds: the own value, or
    what [Object.prototype] has under the name. *)
Definition readProperty (field : string) (o : JsObject) : Value :=
  match getProperty field o with
  | Own v => v
  | Member | Undefined => FromPrototype
  end.

Definition revertField (field : string) (config defaults : ref) (st : Store)
  : ref * Store :=
  let (newConfig, st) := alloc (cells st config) st in
  let st :=
    if hasProperty field (cells st defaults)
    then modify newConfig (setProperty field (readProperty field (cells st defaults))) st
    else modify newConfig (deleteProp field) st in
  (newConfig, st).

Definition revertAll (_config defaults : ref) (st : Store) : ref * Store :=
  alloc (cells st defaults) st.

(* ====================================================================== *)
(** ** lib/n8n-config.ts: the output generator *)
(* ====================================================================== *)

Open Scope string_scope.

(** [OutputFormat] is a union of four string literals; at run time any
    string can stand there. *)
Definition OutputFormat := string.

Record GeneratorOptions : Type := mkOptions {
  format : OutputFormat;
  composeVersion : option string;
  maskSecrets : option bool;
  includeComments : option bool;
  wizardVersion : option string
}.

(** The object literal [{ format }]. *)
Definition formatOnly (f : OutputFormat) : GeneratorOptions :=
  {| format := f; composeVersion := None; maskSecrets := None;
     includeComments := None; wizardVersion := None |}.

Definition SENSITIVE_PATTERNS : list RegExp :=
  [ AnywhereCI "password"; AnywhereCI "secret"; AnywhereCI "key";
    AnywhereCI "token"; AnywhereCI "credential"; AtEndCI "pass" ].

Definition isSensitiveField (fieldName : string) : bool :=
  existsb (fun pattern => test pattern fieldName) SENSITIVE_PATTERNS.

Definition maskSensitiveValues (entries : list (string * string)) (maskSecrets : bool)
  : list (string * string) :=
  if negb maskSecrets then entries
  else map (fun '(key, value) =>
              if isSensitiveField key && negb (value =? "")
              then (key, SECRET_PLACEHOLDER)
              else (key, value))
           entries.

Definition generateHeader (timestamp : string) (format : OutputFormat)
  (wizardVersion : option string) (includeComments : bool) : string :=
  if negb includeComments && negb (format =? "env") then ""
  else
    let version := orElse wizardVersion "1.0.0" in
    let commentPrefix := "#" in
    if format =? "env" then
      commentPrefix ++ " Generated by n8n Configuration Wizard v" ++ version ++ "
" ++ commentPrefix ++ " Timestamp: " ++ timestamp ++ "
" ++ commentPrefix ++ "
"
    else if (format =? "docker-compose") && includeComments then
      "# Generated by n8n Configuration Wizard v" ++ version ++ "
# Timestamp: " ++ timestamp ++ "
#
"
    else if (format =? "docker-run") && includeComments then
      "# Generated by n8n Configuration Wizard v" ++ version ++ "
# Timestamp: " ++ timestamp ++ "
"
    else if (format =? "kubernetes") && includeComments then
      "# Generated by n8n Configuration Wizard v" ++ version ++ "
# Timestamp: " ++ timestamp ++ "
# This manifest includes a ConfigMap and Deployment for n8n
---
"
    else "".

(** The line of the environment file for one entry. *)
Definition envLine (entry : string * string) : string :=
  let '(key, value) := entry in key ++ "=" ++ value.

Definition generateEnvOutput (timestamp : string) (entries : list (string * string))
  (options : GeneratorOptions) : string :=
  let header := generateHeader timestamp "env" (wizardVersion options) true in
  let content := join "
" (map envLine entries) in
  header ++ content.

(** The item of the compose [environment:] list for one entry. *)
Definition composeItem (entry : string * string) : string :=
  let '(key, value) := entry in "      - " ++ key ++ "=" ++ value.

(** The template literals of [generateDockerComposeOutput], one per
    piece of the document. *)
Definition n8nServiceBlock (header composeVersion n8nServiceComment port envVars : string)
  : string :=
  header ++ "version: '" ++ composeVersion ++ "'

services:
" ++ n8nServiceComment ++ "  n8n:
    image: docker.n8n.io/n8nio/n8n
    restart: always
    ports:
      - " ++ dquote ++ port ++ ":5678" ++ dquote ++ "
    environment:
" ++ envVars ++ "
    volumes:
      - n8n_data:/home/node/.n8n
".

Definition postgresServiceBlock (postgresComment user password database : string)
  : string :=
  "
" ++ postgresComment ++ "  postgres:
    image: postgres:15-alpine
    restart: always
    environment:
      - POSTGRES_USER=" ++ user ++ "
      - POSTGRES_PASSWORD=" ++ password ++ "
      - POSTGRES_DB=" ++ database ++ "
    volumes:
      - postgres_data:/var/lib/postgresql/data
".

Definition redisServiceBlock (redisComment : string) : string :=
  "
" ++ redisComment ++ "  redis:
    image: redis:7-alpine
    restart: always
    volumes:
      - redis_data:/data
".

Definition volumesSection (volumesComment : string) : string :=
  "
" ++ volumesComment ++ "volumes:
  n8n_data:".

Definition postgresVolume : string := "
  postgres_data:".

Definition redisVolume : string := "
  redis_data:".

(** The optional comment lines of the compose document. *)
Definition n8nServiceCommentText (includeComments : bool) : string :=
  if includeComments then "  # n8n workflow automation service
  # Documentation: https://docs.n8n.io/
" else "".

Definition volumesCommentText (includeComments : bool) : string :=
  if includeComments then "# Persistent volumes for data storage
" else "".

Definition postgresCommentText (includeComments : bool) : string :=
  if includeComments then "  # PostgreSQL database for n8n data persistence
" else "".

Definition redisCommentText (includeComments : bool) : string :=
  if includeComments then "  # Redis for queue mode execution
" else "".

Definition generateDockerComposeOutput (timestamp : string) (config : Config)
  (entries : list (string * string)) (options : GeneratorOptions) : string :=
  let composeVersion := orElse (composeVersion options) "3.8" in
  let includeComments :=
    match includeComments options with Some b => b | None => false end in
  let header :=
    generateHeader timestamp "docker-compose" (wizardVersion options) includeComments in
  let envVars := join "
" (map composeItem entries) in
  let n8nServiceComment := n8nServiceCommentText includeComments in
  let volumesComment := volumesCommentText includeComments in
  let postgresComment := postgresCommentText includeComments in
  let redisComment := redisCommentText includeComments in
  let output :=
    n8nServiceBlock header composeVersion n8nServiceComment
                    (orElse (lookup "N8N_PORT" config) "5678") envVars in
  let output :=
    if usesPostgres config
    then output ++ postgresServiceBlock
                     postgresComment
                     (orElse (lookup "DB_POSTGRESDB_USER" config) "postgres")
                     (orElse (lookup "DB_POSTGRESDB_PASSWORD" config) "password")
                     (orElse (lookup "DB_POSTGRESDB_DATABASE" config) "n8n")
    else output in
  let output :=
    if usesQueue config then output ++ redisServiceBlock redisComment else output in
  let output := output ++ volumesSection volumesComment in
  let output := if usesPostgres config then output ++ postgresVolume else output in
  let output := if usesQueue config then output ++ redisVolume else output in
  output.

(** The [-e] flag of the run command for one entry. *)
Definition runFlag (entry : string * string) : string :=
  let '(key, value) := entry in "-e " ++ key ++ "=" ++ dquote ++ value ++ dquote.

Definition generateDockerRunOutput (timestamp : string) (config : Config)
  (entries : list (string * string)) (options : GeneratorOptions) : string :=
  let includeComments :=
    match includeComments options with Some b => b | None => false end in
  let header :=
    generateHeader timestamp "docker-run" (wizardVersion options) includeComments in
  let envFlags := join " \
  " (map runFlag entries) in
  header ++ "docker run -d \
  --name n8n \
  --restart always \
  -p " ++ orElse (lookup "N8N_PORT" config) "5678" ++ ":5678 \
  " ++ envFlags ++ " \
  -v n8n_data:/home/node/.n8n \
  docker.n8n.io/n8nio/n8n".

(** [value.replace(/"/g, '\\"')]: a backslash before every double quote. *)
Fixpoint escapeQuotes (s : string) : string :=
  match s with
  | EmptyString => EmptyString
  | String c s' =>
      if Ascii.eqb c (ascii_of_nat 34)
      then String (ascii_of_nat 92) (String c (escapeQuotes s'))
      else String c (escapeQuotes s')
  end.

(** The [data:] line of the ConfigMap for one entry. *)
Definition configMapLine (entry : string * string) : string :=
  let '(key, value) := entry in
  "  " ++ key ++ ": " ++ dquote ++ escapeQuotes value ++ dquote.

(** The [env:] item of the Deployment for one entry. *)
Definition configMapRef (entry : string * string) : string :=
  let '(key, _) := entry in
  "        - name: " ++ key ++ "
          valueFrom:
            configMapKeyRef:
              name: n8n-config
              key: " ++ key.

Definition generateKubernetesOutput (timestamp : string) (config : Config)
  (entries : list (string * string)) (options : GeneratorOptions) : string :=
  let includeComments :=
    match includeComments options with Some b => b | None => false end in
  let header :=
    generateHeader timestamp "kubernetes" (wizardVersion options) includeComments in
  let configMapData := join "
" (map configMapLine entries) in
  let envFromConfigMap := join "
" (map configMapRef entries) in
  let configMapComment :=
    if includeComments then "# ConfigMap containing n8n environment variables
" else "" in
  let deploymentComment :=
    if includeComments then "# Deployment for n8n workflow automation
" else "" in
  header ++ configMapComment ++ "apiVersion: v1
kind: ConfigMap
metadata:
  name: n8n-config
  labels:
    app: n8n
data:
" ++ configMapData ++ "
---
" ++ deploymentComment ++ "apiVersion: apps/v1
kind: Deployment
metadata:
  name: n8n
  labels:
    app: n8n
spec:
  replicas: 1
  selector:
    matchLabels:
      app: n8n
  template:
    metadata:
      labels:
        app: n8n
    spec:
      containers:
      - name: n8n
        image: docker.n8n.io/n8nio/n8n
        ports:
        - containerPort: 5678
        env:
" ++ envFromConfigMap ++ "
        volumeMounts:
        - name: n8n-data
          mountPath: /home/node/.n8n
      volumes:
      - name: n8n-data
        persistentVolumeClaim:
          claimName: n8n-data-pvc
---
apiVersion: v1
kind: Service
metadata:
  name: n8n
  labels:
    app: n8n
spec:
  type: ClusterIP
  ports:
  - port: 5678
    targetPort: 5678
  selector:
    app: n8n".

(** The entries every format renders: the non-empty properties of the
    configuration, masked on request. *)
Definition outputEntries (config : Config) (maskSecrets : bool)
  : list (string * string) :=
  let entries := filter (fun '(_, value) => negb (value =? "")) config in
  maskSensitiveValues entries maskSecrets.

Definition generateOutput (timestamp : string) (config : Config)
  (formatOrOptions : OutputFormat + GeneratorOptions) : string :=
  let options :=
    match formatOrOptions with
    | inl format => formatOnly format
    | inr options => options
    end in
  let format := format options in
  let maskSecrets := match maskSecrets options with Some b => b | None => false end in
  let entries := outputEntries config maskSecrets in
  if format =? "env" then generateEnvOutput timestamp entries options
  else if format =? "docker-compose"
       then generateDockerComposeOutput timestamp config entries options
  else if format =? "docker-run"
       then generateDockerRunOutput timestamp config entries options
  else if format =? "kubernetes"
       then generateKubernetesOutput timestamp config entries options
  else "".

(* ====================================================================== *)
(** ** lib/validation/validator.ts: the errors grouped by field *)
(* ====================================================================== *)

Open Scope list_scope.

(** The result is a [Map<string, ValidationError[]>]: its entries in
    insertion order. The array fetched from the map is the one pushed to
    and stored back. *)
Definition getValidationErrorsByField (config : Config) (cache : RulesCache)
  : Outcome (Obj (list ValidationError)) * RulesCache :=
  match validateConfig config cache with
  | (Throws e, cache) => (Throws e, cache)
  | (Returns result, cache) =>
      (Returns
         (fold_left
            (fun errorsByField e =>
               let existing :=
                 match lookup (err_field e) errorsByField with
                 | Some es => es
                 | None => []
                 end in
               let existing := existing ++ [e] in
               assign (err_field e) existing errorsByField)
            (errors result) []), cache)
  end.

(* ====================================================================== *)
(** ** lib/parser/env-parser.ts *)
(* ====================================================================== *)

Record ParseResult (T : Type) : Type := mkParseResult {
  success : bool;
  data : option T;
  errorText : option string
}.

Arguments mkParseResult {T} _ _ _.
Arguments success {T} _.
Arguments data {T} _.
Arguments errorText {T} _.

(** Line feed and carriage return. *)
Definition LF : ascii := ascii_of_nat 10.
Definition CR : ascii := ascii_of_nat 13.

(** One more character in front of the first line. *)
Definition pushChar (c : ascii) (lines : list string) : list string :=
  match lines with
  | l :: rest => String c l :: rest
  | [] => [String c EmptyString]
  end.

(** [s.split(/\r?\n/)] *)
Fixpoint splitLines (s : string) : list string :=
  match s with
  | EmptyString => [EmptyString]
  | String c rest =>
      if Ascii.eqb c LF then EmptyString :: splitLines rest
      else
        match rest with
        | String d rest' =>
            if Ascii.eqb c CR && Ascii.eqb d LF
            then EmptyString :: splitLines rest'
            else pushChar c (splitLines rest)
        | EmptyString => pushChar c (splitLines rest)
        end
  end.

Definition isLetter (c : ascii) : bool :=
  let n := nat_of_ascii c in
  (((65 <=? n) && (n <=? 90)) || ((97 <=? n) && (n <=? 122)))%nat.

Definition isIdentStart (c : ascii) : bool :=
  isLetter c || Ascii.eqb c "_"%char.

Definition isIdentChar (c : ascii) : bool :=
  isLetter c || isDigit c || Ascii.eqb c "_"%char.

Fixpoint allChars (p : ascii -> bool) (s : string) : bool :=
  match s with
  | EmptyString => true
  | String c s' => p c && allChars p s'
  end.

(** [/^[a-zA-Z_][a-zA-Z0-9_]*$/.test(s)] *)
Definition isIdentifier (s : string) : bool :=
  match s with
  | EmptyString => false
  | String c rest => isIdentStart c && allChars isIdentChar rest
  end.

(** [s.slice(1)] *)
Definition dropFirst (s : string) : string :=
  match s with
  | EmptyString => EmptyString
  | String _ rest => rest
  end.

(** [s.slice(0, -1)] *)
Fixpoint dropLast (s : string) : string :=
  match s with
  | EmptyString => EmptyString
  | String c rest =>
      match rest with
      | EmptyString => EmptyString
      | String _ _ => String c (dropLast rest)
      end
  end.

(** [s[0]] *)
Definition firstChar (s : string) : option string :=
  match s with
  | EmptyString => None
  | String c _ => Some (String c EmptyString)
  end.

(** Whether a possibly null string counts as true. *)
Definition truthy (s : option string) : bool :=
  match s with
  | Some s => negb (s =? "")%string
  | None => false
  end.

(** [s.endsWith(q)]; a null [q] is searched as the text [null]. *)
Definition endsWithQuote (q : option string) (s : string) : bool :=
  match q with
  | Some q => matchAtEnd q s
  | None => matchAtEnd "null" s
  end.

(** The variables of the loop of [parseEnv]. *)
Record EnvParser : Type := mkEnvParser {
  env_result : Config;
  env_currentKey : option string;
  env_currentValue : list string;
  env_inMultiline : bool;
  env_quoteChar : option string
}.

(** Whether a trimmed value is wrapped in the quote [q] on one line. *)
Definition quotedWith (q trimmedValue : string) : bool :=
  startsWith q trimmedValue && matchAtEnd q trimmedValue
  && (1 <? String.length trimmedValue)%nat.

(** The body of the loop of [parseEnv], for one line. *)
Definition parseEnvLine (st : EnvParser) (line : string) : EnvParser :=
  if env_inMultiline st && truthy (env_currentKey st) then
    let currentValue := env_currentValue st ++ [line] in
    if endsWithQuote (env_quoteChar st) line then
      let fullValue := join "
" currentValue in
      {| env_result :=
           match env_currentKey st with
           | Some currentKey =>
               setProperty currentKey (dropLast fullValue) (env_result st)
           | None => env_result st
           end;
         env_currentKey := None;
         env_currentValue := [];
         env_inMultiline := false;
         env_quoteChar := None |}
    else
      {| env_result := env_result st;
         env_currentKey := env_currentKey st;
         env_currentValue := currentValue;
         env_inMultiline := env_inMultiline st;
         env_quoteChar := env_quoteChar st |}
  else
    let trimmedLine := trim line in
    if (trimmedLine =? "")%string || startsWith "#" trimmedLine then st
    else
      match String.index 0 "=" line with
      | None => st
      | Some equalIndex =>
          let key := trim (String.substring 0 equalIndex line) in
          let value :=
            String.substring (equalIndex + 1)
                             (String.length line - (equalIndex + 1)) line in
          if (key =? "")%string || negb (isIdentifier key) then st
          else
            let trimmedValue := trim value in
            if quotedWith dquote trimmedValue || quotedWith "'" trimmedValue then
              {| env_result :=
                   setProperty key (dropLast (dropFirst trimmedValue)) (env_result st);
                 env_currentKey := env_currentKey st;
                 env_currentValue := env_currentValue st;
                 env_inMultiline := env_inMultiline st;
                 env_quoteChar := env_quoteChar st |}
            else if startsWith dquote trimmedValue || startsWith "'" trimmedValue then
              {| env_result := env_result st;
                 env_currentKey := Some key;
                 env_currentValue := [dropFirst trimmedValue];
                 env_inMultiline := true;
                 env_quoteChar := firstChar trimmedValue |}
            else
              {| env_result := setProperty key trimmedValue (env_result st);
                 env_currentKey := env_currentKey st;
                 env_currentValue := env_currentValue st;
                 env_inMultiline := env_inMultiline st;
                 env_quoteChar := env_quoteChar st |}
      end.

Definition envParserStart : EnvParser :=
  {| env_result := [];
     env_currentKey := None;
     env_currentValue := [];
     env_inMultiline := false;
     env_quoteChar := None |}.

(** [content] may be [null]; nothing in the body throws, so the [catch]
    branch is never taken. *)
Definition parseEnv (content : option string) : ParseResult Config :=
  match content with
  | None =>
      {| success := false; data := None;
         errorText := Some "Content cannot be null or undefined" |}
  | Some content =>
      let lines := splitLines content in
      let st := fold_left parseEnvLine lines envParserStart in
      let result :=
        if env_inMultiline st && truthy (env_currentKey st) then
          match env_currentKey st with
          | Some currentKey =>
              setProperty currentKey (join "
" (env_currentValue st)) (env_result st)
          | None => env_result st
          end
        else env_result st in
      {| success := true; data := Some result; errorText := None |}
  end.

(** The [needsQuotes] test of [serializeEnv]. *)
Definition needsQuotes (stringValue : string) : bool :=
  searchFrom "
" stringValue
  || searchFrom " " stringValue
  || searchFrom dquote stringValue
  || searchFrom "'" stringValue
  || searchFrom "#" stringValue
  || searchFrom "=" stringValue
  || startsWith " " stringValue
  || matchAtEnd " " stringValue.

(** The line [serializeEnv] writes for a property it keeps. *)
Definition serializedLine (key value : string) : string :=
  if needsQuotes value
  then (key ++ "=" ++ dquote ++ escapeQuotes value ++ dquote)%string
  else (key ++ "=" ++ value)%string.

Definition serializeEnv (config : Config) : string :=
  let lines :=
    fold_left
      (fun lines (entry : string * string) =>
         let '(key, value) := entry in
         if (key =? "")%string || negb (isIdentifier key) then lines
         else lines ++ [serializedLine key value])
      config [] in
  join "
" lines.

(* ====================================================================== *)
(** ** lib/parser/index.ts: format detection *)
(* ====================================================================== *)

(** [ImportFormat]: ['env' | 'docker-compose' | 'json' | 'unknown'] *)
Inductive ImportFormat : Type :=
| ImportEnv
| ImportDockerCompose
| ImportJson
| ImportUnknown.

Record ConfigExport : Type := mkConfigExport {
  export_version : string;
  export_timestamp : string;
  export_templateId : option string;
  export_config : Config
}.

(** What [/[a-zA-Z0-9_]*=/] has to find right after the first character
    of a line. *)
Fixpoint assignmentFollows (s : string) : bool :=
  match s with
  | EmptyString => false
  | String c rest =>
      if Ascii.eqb c "="%char then true
      else isIdentChar c && assignmentFollows rest
  end.

(** [/^[a-zA-Z_][a-zA-Z0-9_]*=/.test(line)] *)
Definition envLinePattern (line : string) : bool :=
  match line with
  | EmptyString => false
  | String c rest => isIdentStart c && assignmentFollows rest
  end.

(** The filter of [detectFormat] that picks the [KEY=VALUE] lines. *)
Definition isEnvLine (line : string) : bool :=
  negb (trim line =? "")%string
  && negb (startsWith "#" (trim line))
  && envLinePattern line.

(** The message of [parseAuto] for a text of no known format. *)
Definition UNKNOWN_FORMAT_MESSAGE : string :=
  "Unable to detect configuration format. Supported formats: .env, docker-compose.yml, JSON export".

Section ParserService.

(** What this file takes from [JSON.parse] and from the parsers built on
    [JSON.parse] and on js-yaml: whether a text parses as JSON into an
    object with a truthy [version] and an object for [config], and the
    results of [parseDockerCompose] and [parseJson]. *)
Variable parsesAsConfigExport : string -> bool.
Variable parseDockerCompose : option string -> ParseResult Config.
Variable parseJson : option string -> ParseResult ConfigExport.

Definition detectFormat (content : option string) : ImportFormat :=
  match content with
  | None => ImportUnknown
  | Some content =>
      if (content =? "")%string then ImportUnknown
      else
        let trimmed := trim content in
        if startsWith "{" trimmed && parsesAsConfigExport trimmed then ImportJson
        else if searchFrom "services:" trimmed
                && (searchFrom "version:" trimmed || searchFrom "image:" trimmed)
        then ImportDockerCompose
        else
          let lines := splitLines trimmed in
          let envLines := filter isEnvLine lines in
          if (0 <? List.length envLines)%nat
             && (List.length (filter (fun l => negb (trim l =? "")%string) lines)
                 <=? 2 * List.length envLines)%nat
          then ImportEnv
          else ImportUnknown
  end.

Definition parseAuto (content : option string) : ParseResult Config :=
  match detectFormat content with
  | ImportEnv => parseEnv content
  | ImportDockerCompose => parseDockerCompose content
  | ImportJson =>
      let result := parseJson content in
      match data result with
      | Some exported =>
          if success result
          then {| success := true; data := Some (export_config exported);
                  errorText := None |}
          else {| success := false; data := None; errorText := errorText result |}
      | None => {| success := false; data := None; errorText := errorText result |}
      end
  | ImportUnknown =>
      {| success := false; data := None; errorText := Some UNKNOWN_FORMAT_MESSAGE |}
  end.

End ParserService.

(* ====================================================================== *)
(** ** lib/constants.ts: the fields listed as sensitive *)
(* ====================================================================== *)

Definition SENSITIVE_FIELDS : list string :=
  [ "N8N_ENCRYPTION_KEY";
    "DB_POSTGRESDB_PASSWORD";
    "QUEUE_BULL_REDIS_PASSWORD";
    "N8N_SMTP_PASS";
    "N8N_EXTERNAL_STORAGE_S3_ACCESS_KEY";
    "N8N_EXTERNAL_STORAGE_S3_ACCESS_SECRET";
    "N8N_USER_MANAGEMENT_JWT_SECRET" ]%string.

(* ====================================================================== *)
(** ** Vocabulary of the specification *)
(* ====================================================================== *)

Open Scope list_scope.

(** A name under which no object inherits anything. *)
Definition OrdinaryKey (k : string) : Prop := inheritsKey k = false.

(** A map none of whose keys is a key of [Object.prototype]. *)
Definition OrdinaryKeys {V : Type} (o : Obj V) : Prop :=
  forall k, In k (keys o) -> OrdinaryKey k.

(** The rules the tables give a field: what [buildFieldRules] returns
    when it returns. *)
Definition fieldRules (fieldName : string) : list FieldValidationRule :=
  let rules := [] in
  let rules := pushIf (includes REQUIRED_FIELDS fieldName)
                      (createRequiredRule fieldName) rules in
  let rules := pushIf (includes NUMERIC_FIELDS fieldName)
                      (createNumericRule fieldName) rules in
  let rules := pushIf (includes BOOLEAN_FIELDS fieldName)
                      (createBooleanRule fieldName) rules in
  let rules := match lookup fieldName ENUM_VALUES with
               | Some allowed => rules ++ [enumRule fieldName allowed]
               | None => rules
               end in
  let rules := pushIf (includes POSTGRES_REQUIRED_FIELDS fieldName)
                      (createPostgresDependencyRule fieldName) rules in
  let rules := pushIf (includes REDIS_REQUIRED_FIELDS fieldName)
                      (createRedisDependencyRule fieldName) rules in
  rules.

(** The rules of a field can be had: the cache holds them, or
    [buildFieldRules] returns for the field. *)
Definition hasRules (cache : RulesCache) (f : string) : bool :=
  hasKey f cache || negb (inheritsKey f).

(** The first loop of [validateConfig], from any point of its run. *)
Definition validateFieldsFrom (config : Config) (entries : list (string * string))
  (st : Outcome (list ValidationError) * RulesCache)
  : Outcome (list ValidationError) * RulesCache :=
  fold_left
    (fun (st : Outcome (list ValidationError) * RulesCache)
         (entry : string * string) =>
       match st with
       | (Throws e, cache) => (Throws e, cache)
       | (Returns errors, cache) =>
           let '(fieldName, value) := entry in
           match validateField fieldName value config cache with
           | (Throws e, cache) => (Throws e, cache)
           | (Returns fieldErrors, cache) => (Returns (errors ++ fieldErrors), cache)
           end
       end)
    entries st.

(** The rule cache only ever holds rule lists of the tables: this is true
    of the empty cache and kept by [getFieldRules]. *)
Definition cache_ok (cache : RulesCache) : Prop :=
  forall f rules, lookup f cache = Some rules -> rules = fieldRules f.

(** The errors of one field, read off the rule list without the cache. *)
Definition fieldErrors (fieldName value : string) (config : Config)
  : list ValidationError :=
  map (fun rule => mkError fieldName (rule_message rule) error)
      (filter (fun rule => negb (rule_validate rule (Some value) config))
              (fieldRules fieldName)).

(** The errors of step 1 of [validateConfig]: every property that is
    set, in order. *)
Definition perFieldErrors (config : Config) : list ValidationError :=
  flat_map (fun '(fieldName, value) => fieldErrors fieldName value config) config.

(** What one dependency loop appends to the errors it starts from: one
    error for every listed field that is blank and has none so far. *)
Definition dependencyAdditions (message : string -> string) (fields : list string)
  (config : Config) (errs : list ValidationError) : list ValidationError :=
  map (fun f => mkError f (message f) error)
      (filter (fun f =>
                 isBlank (lookup f config) &&
                 negb (existsb (fun e => (err_field e =? f)%string
                                         && Severity_eqb (err_type e) error) errs))
              fields).

(** The error list of [validateConfig], without the cache. *)
Definition configErrors (config : Config) : list ValidationError :=
  let errs := perFieldErrors config in
  let errs := if usesPostgres config
              then dependencyPass postgresMessage POSTGRES_REQUIRED_FIELDS config errs
              else errs in
  if usesQueue config
  then dependencyPass redisMessage REDIS_REQUIRED_FIELDS config errs
  else errs.

(** A message that reads as a PostgreSQL dependency error. *)
Definition saysPostgres (message : string) : bool :=
  matchAtEnd " is required when using PostgreSQL database" message.

(** [[r]] when [b] holds, nothing otherwise. *)
Definition ruleIf (b : bool) (r : FieldValidationRule) : list FieldValidationRule :=
  if b then [r] else [].

(** [errors.some(e => e.field === field && e.type === 'error')] *)
Definition hasErrorFor (field : string) (errs : list ValidationError) : bool :=
  existsb (fun e => (err_field e =? field)%string && Severity_eqb (err_type e) error) errs.

(** The errors reported against one field. *)
Definition errorsFor (field : string) (errs : list ValidationError)
  : list ValidationError :=
  filter (fun e => (err_field e =? field)%string) errs.

(** The errors carrying a given message. *)
Definition errorsSaying (message : string) (errs : list ValidationError)
  : list ValidationError :=
  filter (fun e => (err_message e =? message)%string) errs.

(** A field whose value is absent, or empty once trimmed. *)
Definition AbsentOrBlank (field : string) (config : Config) : Prop :=
  lookup field config = None \/
  exists s, lookup field config = Some s /\ trim s = "".

Definition DigitChar (c : ascii) : Prop :=
  In c ["0"; "1"; "2"; "3"; "4"; "5"; "6"; "7"; "8"; "9"]%char.

(** One or more decimal digits. *)
Inductive Digits : string -> Prop :=
| Digits_one : forall c, DigitChar c -> Digits (String c "")
| Digits_more : forall c s, DigitChar c -> Digits s -> Digits (String c s).

(** An optional minus sign followed by one or more digits. *)
Definition IntegerText (s : string) : Prop :=
  Digits s \/ exists d, s = String "-"%char d /\ Digits d.




(** The value a key reads as in a diff. *)
Definition valueOf (o : JsObject) (k : string) : Value := getOrEmpty k o.

(** The entry [computeDiff] builds for a key. *)
Definition diffEntry (config defaults : JsObject) (k : string) : DiffEntry :=
  {| diff_field := k;
     diff_category := getFieldCategory k;
     diff_type := classify (valueOf config k) (valueOf defaults k);
     currentValue := valueOf config k;
     defaultValue := valueOf defaults k |}.

(** [a] may stand before [b]: by category first, by field within one
    category, under the comparison [cmp]. *)
Definition EntryOrder (cmp : string -> string -> Z) (a b : DiffEntry) : Prop :=
  (diff_category a <> diff_category b /\
   (cmp (diff_category a) (diff_category b) <= 0)%Z) \/
  (diff_category a = diff_category b /\
   (cmp (diff_field a) (diff_field b) <= 0)%Z).

(** A collation to run examples with: code unit order. *)
Definition codeUnitCompare (a b : string) : Z :=
  match String.compare a b with
  | Lt => (-1)%Z
  | Eq => 0%Z
  | Gt => 1%Z
  end.

Definition newline : string := "
".





(** [includeComments ?? false] and [maskSecrets = false]: an omitted flag
    is off. *)
Definition flag (b : option bool) : bool :=
  match b with
  | Some b => b
  | None => false
  end.

(** The four formats [generateOutput] knows. *)
Definition RecognizedFormat (f : OutputFormat) : Prop :=
  f = "env" \/ f = "docker-compose" \/ f = "docker-run" \/ f = "kubernetes".

(** The references of a store that denote objects created so far. *)
Definition allocated (st : Store) (r : ref) : Prop := r < next st.

(** *** Vocabulary of the further properties *)

(** A field some rule table mentions. *)
Definition KnownField (f : string) : Prop :=
  In f REQUIRED_FIELDS \/ In f NUMERIC_FIELDS \/ In f BOOLEAN_FIELDS \/
  In f (keys ENUM_VALUES) \/ In f POSTGRES_REQUIRED_FIELDS \/
  In f REDIS_REQUIRED_FIELDS.

(** A message that reads as a Redis dependency error. *)
Definition saysRedis (message : string) : bool :=
  matchAtEnd " is required when using Queue mode" message.

(** Every property that is set passes [validateField]. *)
Definition FieldsValidate (config : Config) (cache : RulesCache) : Prop :=
  forall k v, In (k, v) config -> fst (validateField k v config cache) = Returns [].

(** The type of the same difference seen from the other side. *)
Definition flipType (t : DiffType) : DiffType :=
  match t with
  | added => removed
  | removed => added
  | modified => modified
  end.

(** An entry seen from the other side: the two values change places. *)
Definition swapEntry (e : DiffEntry) : DiffEntry :=
  {| diff_field := diff_field e;
     diff_category := diff_category e;
     diff_type := flipType (diff_type e);
     currentValue := defaultValue e;
     defaultValue := currentValue e |}.

(** The diff that reports nothing. *)
Definition noChanges : DiffResult :=
  {| entries := []; totalChanges := 0; hasChanges := false |}.

(** The variables the registry declares, over all categories. *)
Definition registryVariables : list EnvVariable := flat_map cat_variables categories.

(** Category [c] of the registry declares a variable named [f]. *)
Definition Declares (c : ConfigCategory) (f : string) : Prop :=
  exists v, In v (cat_variables c) /\ var_name v = f.

(** No line feed and no carriage return in [s]. *)
Definition NoLineBreak (s : string) : Prop :=
  allChars (fun c => negb (Ascii.eqb c LF) && negb (Ascii.eqb c CR)) s = true.

(** A successful parse with the given data. *)
Definition parsed (result : Config) : ParseResult Config :=
  {| success := true; data := Some result; errorText := None |}.

(** The value [parseEnv] reads from the line [serializeEnv] writes for
    [v]: a quoted value keeps the backslashes put before its double
    quotes, a bare one is trimmed. *)
Definition envNormal (v : string) : string :=
  if needsQuotes v then escapeQuotes v else trim v.

(** The properties [serializeEnv] writes a line for. *)
Definition serialized (config : Config) : Config :=
  filter (fun kv => isIdentifier (fst kv)) config.

(** A value that an unquoted [KEY=value] line carries unchanged: on one
    line, without white space at either end, not opening with a quote. *)
Definition PlainValue (v : string) : Prop :=
  NoLineBreak v /\ trim v = v
  /\ startsWith dquote v = false /\ startsWith "'" v = false.

(** The state of the loop of [parseEnv] outside a multiline value. *)
Definition idle (result : Config) : EnvParser :=
  {| env_result := result;
     env_currentKey := None;
     env_currentValue := [];
     env_inMultiline := false;
     env_quoteChar := None |}.

(** What the loop of [parseEnv] keeps true of the keys it has stored, and
    of the key whose value it is reading. *)
Definition KeysAreIdentifiers (st : EnvParser) : Prop :=
  NoDup (keys (env_result st))
  /\ (forall k, In k (keys (env_result st)) -> isIdentifier k = true)
  /\ (forall k, env_currentKey st = Some k -> isIdentifier k = true).

(** The properties with a non-empty value. *)
Definition nonEmpty (config : Config) : Config :=
  filter (fun kv => negb (snd kv =? "")%string) config.

(** No carriage return in [s]. *)
Definition NoCarriageReturn (s : string) : Prop :=
  allChars (fun c => negb (Ascii.eqb c CR)) s = true.

(** The text of [s] up to its first line feed. *)
Definition firstLine (s : string) : string := hd "" (splitLines s).

(** [p] in front of the first of the lines, [q] behind the last. *)
Definition prependFirst (p : string) (lines : list string) : list string :=
  match lines with
  | l :: rest => (p ++ l)%string :: rest
  | [] => []
  end.

Fixpoint appendLast (q : string) (lines : list string) : list string :=
  match lines with
  | [] => []
  | [l] => [(l ++ q)%string]
  | l :: rest => l :: appendLast q rest
  end.

(** The lines [serializeEnv] writes for one property whose value has no
    double quote. *)
Definition serializedLines (key value : string) : list string :=
  if needsQuotes value
  then prependFirst (key ++ "=" ++ dquote) (appendLast dquote (splitLines value))
  else [(key ++ "=" ++ value)%string].

(** A value that goes through [serializeEnv] and [parseEnv] unchanged:
    no carriage return and no double quote; no white space at either end
    when it is written bare; no white space at the end of its first line
    when it spans several lines. *)
Definition EnvSafe (v : string) : Prop :=
  NoCarriageReturn v
  /\ searchFrom dquote v = false
  /\ (needsQuotes v = false -> trim v = v)
  /\ (searchFrom newline v = true -> trimEnd (firstLine v) = firstLine v).

(** The state of the loop of [parseEnv] inside a value that opened with a
    double quote: the key, and the lines read so far. *)
Definition reading (result : Config) (key : string) (lines : list string) : EnvParser :=
  {| env_result := result;
     env_currentKey := Some key;
     env_currentValue := lines;
     env_inMultiline := true;
     env_quoteChar := Some dquote |}.

(* ====================================================================== *)
(** ** Facts about strings and objects *)
(* ====================================================================== *)

Unset Implicit Arguments.

Lemma string_eqb_false (a b : string) : (a =? b)%string = false <-> a <> b.
Proof. apply String.eqb_neq. Qed.

Lemma lookup_None_keys {V : Type} (k : string) (o : Obj V) :
  lookup k o = None <-> ~ In k (keys o).
Proof.
  induction o as [|[k' v] o IH]; simpl.
  - tauto.
  - destruct (String.eqb_spec k' k) as [->|Hne].
    + split; [discriminate | intros H; exfalso; apply H; now left].
    + rewrite IH. split; [intros H [E|I]; [congruence | tauto] | tauto].
Qed.

Lemma lookup_Some_In {V : Type} (k : string) (v : V) (o : Obj V) :
  lookup k o = Some v -> In (k, v) o.
Proof.
  induction o as [|[k' v'] o IH]; simpl; [discriminate|].
  destruct (String.eqb_spec k' k) as [->|Hne].
  - intros [= ->]. now left.
  - intros H. right. now apply IH.
Qed.

Lemma hasKey_keys {V : Type} (k : string) (o : Obj V) :
  hasKey k o = true <-> In k (keys o).
Proof.
  unfold hasKey. destruct (lookup k o) eqn:E.
  - split; [intros _ | reflexivity].
    apply lookup_Some_In in E. apply (in_map fst) in E. exact E.
  - apply lookup_None_keys in E. split; [discriminate | tauto].
Qed.

Lemma lookup_assign_same {V : Type} (k : string) (v : V) (o : Obj V) :
  lookup k (assign k v o) = Some v.
Proof.
  induction o as [|[k' v'] o IH]; simpl.
  - now rewrite String.eqb_refl.
  - destruct (String.eqb_spec k' k) as [->|Hne]; simpl.
    + now rewrite String.eqb_refl.
    + apply string_eqb_false in Hne. now rewrite Hne.
Qed.

Lemma lookup_assign_other {V : Type} (k k' : string) (v : V) (o : Obj V) :
  k' <> k -> lookup k' (assign k v o) = lookup k' o.
Proof.
  intros Hne. induction o as [|[k0 v0] o IH]; simpl.
  - destruct (String.eqb_spec k k'); [congruence | reflexivity].
  - destruct (String.eqb_spec k0 k) as [->|Hne0]; simpl.
    + destruct (String.eqb_spec k k'); [congruence | reflexivity].
    + now rewrite IH.
Qed.

Lemma lookup_deleteProp_same {V : Type} (k : string) (o : Obj V) :
  lookup k (deleteProp k o) = None.
Proof.
  induction o as [|[k' v'] o IH]; simpl; [reflexivity|].
  destruct (String.eqb_spec k' k) as [->|Hne]; simpl; [exact IH|].
  apply string_eqb_false in Hne. now rewrite Hne.
Qed.

Lemma lookup_deleteProp_other {V : Type} (k k' : string) (o : Obj V) :
  k' <> k -> lookup k' (deleteProp k o) = lookup k' o.
Proof.
  intros Hne. induction o as [|[k0 v0] o IH]; simpl; [reflexivity|].
  destruct (String.eqb_spec k0 k) as [->|Hne0]; simpl.
  - destruct (String.eqb_spec k k'); [congruence | exact IH].
  - now rewrite IH.
Qed.

Lemma includes_In (l : list string) (x : string) :
  includes l x = true <-> In x l.
Proof.
  unfold includes. rewrite existsb_exists. split.
  - intros [y [Hy E]]. apply String.eqb_eq in E. now subst.
  - intros H. exists x. split; [exact H | apply String.eqb_refl].
Qed.

(** A loop that pushes [g x] for the [x] that satisfy [p] builds the
    filtered, mapped list behind what it started from. *)
Lemma fold_left_push {A B : Type} (p : A -> bool) (g : A -> B) (l : list A) :
  forall acc,
    fold_left (fun acc x => if p x then acc ++ [g x] else acc) l acc
    = acc ++ map g (filter p l).
Proof.
  induction l as [|x l IH]; intros acc; simpl.
  - now rewrite app_nil_r.
  - rewrite IH. destruct (p x); simpl; [now rewrite <- app_assoc | reflexivity].
Qed.

Lemma append_cancel_l (p a b : string) :
  ((p ++ a =? p ++ b) = (a =? b))%string.
Proof. induction p as [|c p IH]; simpl; [reflexivity|]. now rewrite Ascii.eqb_refl. Qed.

Lemma matchAtEnd_append (suffix s : string) :
  matchAtEnd suffix (s ++ suffix)%string = true.
Proof.
  induction s as [|c s IH]; simpl.
  - destruct suffix; simpl; [reflexivity|].
    now rewrite Ascii.eqb_refl, String.eqb_refl.
  - rewrite IH. apply orb_true_r.
Qed.

(* ====================================================================== *)
(** ** The rule builder and its cache *)
(* ====================================================================== *)

Lemma cache_ok_nil : cache_ok [].
Proof. intros f rules H. discriminate H. Qed.

Lemma cache_ok_assign (f : string) (cache : RulesCache) :
  cache_ok cache -> cache_ok (assign f (fieldRules f) cache).
Proof.
  intros H g rules Hg. destruct (string_dec g f) as [->|Hne].
  - rewrite lookup_assign_same in Hg. congruence.
  - rewrite lookup_assign_other in Hg by exact Hne. now apply H.
Qed.

(** No key of the enum table is a key of [Object.prototype]. *)
Lemma ENUM_VALUES_ordinary (f : string) :
  inheritsKey f = true -> lookup f ENUM_VALUES = None.
Proof.
  intros Hf. destruct (lookup f ENUM_VALUES) as [allowed|] eqn:E; [|reflexivity].
  apply lookup_Some_In in E.
  assert (Htable : forallb (fun kv => negb (inheritsKey (fst kv))) ENUM_VALUES = true)
    by (vm_compute; reflexivity).
  rewrite forallb_forall in Htable. specialize (Htable _ E).
  cbn [fst] in Htable. rewrite Hf in Htable. discriminate Htable.
Qed.

(** [buildFieldRules] throws exactly for the keys of [Object.prototype],
    for which [fieldName in ENUM_VALUES] holds and [ENUM_VALUES[fieldName]]
    is no array; for every other name it returns the rules of the
    tables. *)
Lemma buildFieldRules_spec (f : string) :
  buildFieldRules f =
    if inheritsKey f then Throws TypeError else Returns (fieldRules f).
Proof.
  unfold buildFieldRules, fieldRules, hasProperty, getProperty, hasKey,
    createEnumRule.
  destruct (inheritsKey f) eqn:Ei.
  - rewrite (ENUM_VALUES_ordinary f Ei). reflexivity.
  - destruct (lookup f ENUM_VALUES); reflexivity.
Qed.

(** What [getFieldRules] does, case by case. *)
Lemma getFieldRules_spec (f : string) (cache : RulesCache) :
  cache_ok cache ->
  getFieldRules f cache =
    if hasKey f cache then (Returns (fieldRules f), cache)
    else if inheritsKey f then (Throws TypeError, cache)
    else (Returns (fieldRules f), assign f (fieldRules f) cache).
Proof.
  intros H. unfold getFieldRules. rewrite buildFieldRules_spec. unfold hasKey.
  destruct (lookup f cache) as [rules|] eqn:E; cbn [negb].
  - rewrite E. now rewrite (H f rules E).
  - destruct (inheritsKey f); [reflexivity|].
    now rewrite lookup_assign_same.
Qed.

Lemma getFieldRules_cache_ok (f : string) (cache : RulesCache) :
  cache_ok cache -> cache_ok (snd (getFieldRules f cache)).
Proof.
  intros H. rewrite (getFieldRules_spec f cache H).
  destruct (hasKey f cache); [exact H|].
  destruct (inheritsKey f); [exact H | now apply cache_ok_assign].
Qed.

Lemma getFieldRules_ok (f : string) (cache : RulesCache) :
  cache_ok cache -> OrdinaryKey f ->
  fst (getFieldRules f cache) = Returns (fieldRules f) /\
  cache_ok (snd (getFieldRules f cache)).
Proof.
  intros H Hf. split; [|now apply getFieldRules_cache_ok].
  rewrite (getFieldRules_spec f cache H), Hf.
  now destruct (hasKey f cache).
Qed.

(** Clearing the cache changes no answer. *)
Lemma getFieldRules_clear (f : string) (cache : RulesCache) :
  cache_ok cache -> OrdinaryKey f ->
  fst (getFieldRules f (clearFieldRulesCache cache)) = fst (getFieldRules f cache).
Proof.
  intros H Hf. destruct (getFieldRules_ok f cache H Hf) as [-> _].
  unfold clearFieldRulesCache.
  now destruct (getFieldRules_ok f [] cache_ok_nil Hf) as [-> _].
Qed.

Lemma fieldRules_app (fn : string) :
  fieldRules fn =
    ruleIf (includes REQUIRED_FIELDS fn) (createRequiredRule fn) ++
    ruleIf (includes NUMERIC_FIELDS fn) (createNumericRule fn) ++
    ruleIf (includes BOOLEAN_FIELDS fn) (createBooleanRule fn) ++
    match lookup fn ENUM_VALUES with
    | Some allowed => [enumRule fn allowed]
    | None => []
    end ++
    ruleIf (includes POSTGRES_REQUIRED_FIELDS fn) (createPostgresDependencyRule fn) ++
    ruleIf (includes REDIS_REQUIRED_FIELDS fn) (createRedisDependencyRule fn).
Proof.
  unfold fieldRules, pushIf, ruleIf.
  destruct (includes REQUIRED_FIELDS fn), (includes NUMERIC_FIELDS fn),
    (includes BOOLEAN_FIELDS fn), (lookup fn ENUM_VALUES),
    (includes POSTGRES_REQUIRED_FIELDS fn), (includes REDIS_REQUIRED_FIELDS fn);
    reflexivity.
Qed.

Lemma In_ruleIf (b : bool) (r r' : FieldValidationRule) :
  In r' (ruleIf b r) -> b = true /\ r' = r.
Proof. destruct b; simpl; [intros [<-|[]]; auto | intros []]. Qed.

(** Where each rule of a field comes from. *)
Lemma fieldRules_In (fn : string) (r : FieldValidationRule) :
  In r (fieldRules fn) ->
  (In fn REQUIRED_FIELDS /\ r = createRequiredRule fn) \/
  (In fn NUMERIC_FIELDS /\ r = createNumericRule fn) \/
  (In fn BOOLEAN_FIELDS /\ r = createBooleanRule fn) \/
  (exists allowed, In (fn, allowed) ENUM_VALUES /\ r = enumRule fn allowed) \/
  (In fn POSTGRES_REQUIRED_FIELDS /\ r = createPostgresDependencyRule fn) \/
  (In fn REDIS_REQUIRED_FIELDS /\ r = createRedisDependencyRule fn).
Proof.
  rewrite fieldRules_app, !in_app_iff.
  intros [H|[H|[H|[H|[H|H]]]]].
  - apply In_ruleIf in H as [H ->]. apply includes_In in H. auto.
  - apply In_ruleIf in H as [H ->]. apply includes_In in H. auto.
  - apply In_ruleIf in H as [H ->]. apply includes_In in H. auto 6.
  - destruct (lookup fn ENUM_VALUES) as [allowed|] eqn:E; [|destruct H].
    destruct H as [<-|[]]. apply lookup_Some_In in E. eauto 8.
  - apply In_ruleIf in H as [H ->]. apply includes_In in H. auto 8.
  - apply In_ruleIf in H as [H ->]. apply includes_In in H. auto 8.
Qed.

(* ====================================================================== *)
(** ** The validator, with the cache factored out *)
(* ====================================================================== *)

(** What [validateField] does, case by case. *)
Lemma validateField_spec (f v : string) (config : Config) (cache : RulesCache) :
  cache_ok cache ->
  validateField f v config cache =
    if hasKey f cache then (Returns (fieldErrors f v config), cache)
    else if inheritsKey f then (Throws TypeError, cache)
    else (Returns (fieldErrors f v config), assign f (fieldRules f) cache).
Proof.
  intros H. unfold validateField. rewrite (getFieldRules_spec f cache H).
  assert (Hfold :
            fold_left
              (fun errors rule =>
                 let isValid := rule_validate rule (Some v) config in
                 if negb isValid
                 then errors ++ [mkError f (rule_message rule) error]
                 else errors)
              (fieldRules f) [] = fieldErrors f v config)
    by exact (fold_left_push
                (fun rule => negb (rule_validate rule (Some v) config))
                (fun rule => mkError f (rule_message rule) error)
                (fieldRules f) []).
  destruct (hasKey f cache);
    [exact (f_equal (fun errs => (Returns errs, cache)) Hfold)|].
  destruct (inheritsKey f); [reflexivity|].
  exact (f_equal (fun errs => (Returns errs, assign f (fieldRules f) cache)) Hfold).
Qed.

Lemma validateField_cache_ok (f v : string) (config : Config) (cache : RulesCache) :
  cache_ok cache -> cache_ok (snd (validateField f v config cache)).
Proof.
  intros H. rewrite (validateField_spec f v config cache H).
  destruct (hasKey f cache); [exact H|].
  destruct (inheritsKey f); [exact H | now apply cache_ok_assign].
Qed.

Lemma validateField_ok (f v : string) (config : Config) (cache : RulesCache) :
  cache_ok cache -> OrdinaryKey f ->
  fst (validateField f v config cache) = Returns (fieldErrors f v config) /\
  cache_ok (snd (validateField f v config cache)).
Proof.
  intros H Hf. split; [|now apply validateField_cache_ok].
  rewrite (validateField_spec f v config cache H), Hf.
  now destruct (hasKey f cache).
Qed.

(** A key of [Object.prototype] makes [validateField] throw, whatever
    the value, unless the cache holds rules under that name. *)
Lemma validateField_throws (f v : string) (config : Config) (cache : RulesCache) :
  cache_ok cache -> inheritsKey f = true -> hasKey f cache = false ->
  validateField f v config cache = (Throws TypeError, cache).
Proof.
  intros H Hf Hc. now rewrite (validateField_spec f v config cache H), Hc, Hf.
Qed.

Arguments validateField : simpl never.
Arguments validateConfig : simpl never.

Lemma validateFieldsFrom_thrown (config : Config) (entries : list (string * string))
  (e : Exception) (cache : RulesCache) :
  validateFieldsFrom config entries (Throws e, cache) = (Throws e, cache).
Proof. induction entries as [|entry entries IH]; [reflexivity | exact IH]. Qed.

Lemma validateFieldsFrom_cons (config : Config) (k v : string)
  (entries : list (string * string)) (errs : list ValidationError)
  (cache : RulesCache) :
  validateFieldsFrom config ((k, v) :: entries) (Returns errs, cache) =
    match validateField k v config cache with
    | (Throws e, cache) => (Throws e, cache)
    | (Returns fieldErrors, cache) =>
        validateFieldsFrom config entries (Returns (errs ++ fieldErrors), cache)
    end.
Proof.
  unfold validateFieldsFrom at 1. cbn [fold_left].
  destruct (validateField k v config cache) as [[es|e] cache'].
  - reflexivity.
  - apply validateFieldsFrom_thrown.
Qed.

Lemma validateFields_from (config : Config) (cache : RulesCache) :
  validateFields config cache = validateFieldsFrom config config (Returns [], cache).
Proof. reflexivity. Qed.

Lemma perField_loop (config : Config) (entries : list (string * string)) :
  OrdinaryKeys entries ->
  forall (errs : list ValidationError) (cache : RulesCache),
    cache_ok cache ->
    let st := validateFieldsFrom config entries (Returns errs, cache) in
    fst st = Returns (errs ++ flat_map (fun '(k, v) => fieldErrors k v config) entries) /\
    cache_ok (snd st).
Proof.
  induction entries as [|[k v] entries IH]; intros Hord errs cache H.
  - cbn. now rewrite app_nil_r.
  - cbv zeta. rewrite validateFieldsFrom_cons. cbn [flat_map].
    assert (Hk : OrdinaryKey k) by (apply Hord; now left).
    assert (Hrest : OrdinaryKeys entries)
      by (intros k' Hk'; apply Hord; now right).
    destruct (validateField_ok k v config cache H Hk) as [He Hc].
    destruct (validateField k v config cache) as [[es|e] cache'];
      cbn [fst snd] in He, Hc; [|discriminate He].
    injection He as ->.
    destruct (IH Hrest (errs ++ fieldErrors k v config) cache' Hc) as [IH1 IH2].
    split; [|exact IH2]. rewrite IH1. now rewrite <- app_assoc.
Qed.

Lemma validateFields_cache_ok (config : Config) (entries : list (string * string)) :
  forall (st : Outcome (list ValidationError) * RulesCache),
    cache_ok (snd st) -> cache_ok (snd (validateFieldsFrom config entries st)).
Proof.
  induction entries as [|[k v] entries IH]; intros [[errs|e] cache] H;
    cbn [snd] in H.
  - exact H.
  - exact H.
  - rewrite validateFieldsFrom_cons.
    pose proof (validateField_cache_ok k v config cache H) as Hc.
    destruct (validateField k v config cache) as [[es|e] cache'];
      cbn [snd] in Hc; [now apply IH | exact Hc].
  - now rewrite validateFieldsFrom_thrown.
Qed.

Lemma validateConfig_cache_ok (config : Config) (cache : RulesCache) :
  cache_ok cache -> cache_ok (snd (validateConfig config cache)).
Proof.
  intros H. unfold validateConfig. rewrite validateFields_from.
  pose proof (validateFields_cache_ok config config (Returns [], cache) H) as Hc.
  now destruct (validateFieldsFrom config config (Returns [], cache)) as [[errs|e] cache'].
Qed.

Lemma validateConfig_ok (config : Config) (cache : RulesCache) :
  cache_ok cache -> OrdinaryKeys config ->
  fst (validateConfig config cache) =
    Returns {| valid := (List.length (configErrors config) =? 0)%nat;
               errors := configErrors config;
               warnings := [] |} /\
  cache_ok (snd (validateConfig config cache)).
Proof.
  intros H Hord. split; [|now apply validateConfig_cache_ok].
  unfold validateConfig, configErrors, perFieldErrors.
  rewrite validateFields_from.
  destruct (perField_loop config config Hord [] cache H) as [He _].
  destruct (validateFieldsFrom config config (Returns [], cache)) as [[errs|e] cache'];
    cbn [fst app] in He; [|discriminate He].
  injection He as ->. reflexivity.
Qed.

Lemma forallb_same {A : Type} (p q : A -> bool) (l : list A) :
  (forall x, p x = q x) -> forallb p l = forallb q l.
Proof.
  intros H. induction l as [|x l IH]; cbn [forallb]; [reflexivity|].
  now rewrite H, IH.
Qed.

Lemma hasRules_ordinary (cache : RulesCache) (f : string) :
  OrdinaryKey f -> hasRules cache f = true.
Proof. intros H. unfold hasRules. rewrite H. apply orb_true_r. Qed.

Lemma hasRules_assign (cache : RulesCache) (f g : string)
  (rules : list FieldValidationRule) :
  OrdinaryKey f -> hasRules (assign f rules cache) g = hasRules cache g.
Proof.
  intros Hf. unfold hasRules, hasKey. destruct (string_dec g f) as [->|Hne].
  - rewrite lookup_assign_same, Hf. now rewrite !orb_true_r.
  - now rewrite lookup_assign_other.
Qed.

Lemma validateField_cases (f v : string) (config : Config) (cache : RulesCache) :
  cache_ok cache ->
  (hasRules cache f = true /\
   fst (validateField f v config cache) = Returns (fieldErrors f v config) /\
   forall g, hasRules (snd (validateField f v config cache)) g = hasRules cache g)
  \/
  (hasRules cache f = false /\
   validateField f v config cache = (Throws TypeError, cache)).
Proof.
  intros H. rewrite (validateField_spec f v config cache H).
  assert (Hr : hasRules cache f = hasKey f cache || negb (inheritsKey f))
    by reflexivity.
  rewrite Hr. clear Hr.
  destruct (hasKey f cache); cbn [orb].
  - left. auto.
  - destruct (inheritsKey f) eqn:Hf; cbn [negb].
    + right. auto.
    + left. split; [reflexivity|]. split; [reflexivity|].
      intros g. cbn [snd]. now apply hasRules_assign.
Qed.

(** The first loop of [validateConfig] returns the errors of the fields
    when the rules of every key can be had, and throws otherwise. *)
Lemma validateFields_spec (config : Config) (entries : list (string * string)) :
  forall (errs : list ValidationError) (cache : RulesCache),
    cache_ok cache ->
    fst (validateFieldsFrom config entries (Returns errs, cache)) =
      if forallb (fun kv => hasRules cache (fst kv)) entries
      then Returns (errs ++ flat_map (fun '(k, v) => fieldErrors k v config) entries)
      else Throws TypeError.
Proof.
  induction entries as [|[k v] entries IH]; intros errs cache H.
  - cbn. now rewrite app_nil_r.
  - rewrite validateFieldsFrom_cons. cbn [forallb flat_map fst].
    pose proof (validateField_cache_ok k v config cache H) as Hc.
    destruct (validateField_cases k v config cache H)
      as [(Hk & He & Hsame)|(Hk & He)]; rewrite Hk; cbn [andb].
    + destruct (validateField k v config cache) as [[es|e] cache'];
        cbn [fst snd] in He, Hc, Hsame; [|discriminate He].
      injection He as ->. rewrite (IH _ cache' Hc).
      rewrite (forallb_same (fun kv => hasRules cache' (fst kv))
                            (fun kv => hasRules cache (fst kv)))
        by (intros kv; apply Hsame).
      now rewrite <- app_assoc.
    + rewrite He. reflexivity.
Qed.

(** [validateConfig], case by case. *)
Lemma validateConfig_spec (config : Config) (cache : RulesCache) :
  cache_ok cache ->
  fst (validateConfig config cache) =
    if forallb (fun kv => hasRules cache (fst kv)) config
    then Returns {| valid := (List.length (configErrors config) =? 0)%nat;
                    errors := configErrors config;
                    warnings := [] |}
    else Throws TypeError.
Proof.
  intros H. unfold validateConfig, configErrors, perFieldErrors.
  rewrite validateFields_from.
  pose proof (validateFields_spec config config [] cache H) as He.
  destruct (validateFieldsFrom config config (Returns [], cache)) as [[errs|e] cache'];
    cbn [fst app] in He;
    destruct (forallb (fun kv => hasRules cache (fst kv)) config);
    try discriminate He.
  - injection He as ->. reflexivity.
  - injection He as ->. reflexivity.
Qed.

Lemma dependencyPass_spec (message : string -> string) (config : Config)
  (fields : list string) :
  NoDup fields ->
  forall errs,
    dependencyPass message fields config errs
    = errs ++ dependencyAdditions message fields config errs.
Proof.
  unfold dependencyPass, dependencyAdditions.
  induction fields as [|f fields IH]; intros Hnd errs; simpl.
  - now rewrite app_nil_r.
  - inversion Hnd as [|? ? Hnotin Hnd']; subst.
    destruct (isBlank (lookup f config)); cbn [andb negb].
    + destruct (existsb _ errs) eqn:Halready; cbn [negb].
      * now rewrite IH.
      * rewrite IH by exact Hnd'. cbn [map]. rewrite <- app_assoc. cbn [app].
        do 3 f_equal. apply filter_ext_in. intros g Hg.
        rewrite existsb_app. cbn [existsb err_field err_type Severity_eqb].
        destruct (String.eqb_spec f g) as [->|_]; [contradiction|].
        now rewrite !orb_false_r.
    + now rewrite IH.
Qed.

Lemma isBlank_spec (f : string) (config : Config) :
  isBlank (lookup f config) = true <-> AbsentOrBlank f config.
Proof.
  unfold AbsentOrBlank, isBlank. destruct (lookup f config) as [s|].
  - rewrite String.eqb_eq. split.
    + intros H. right. now exists s.
    + intros [H|[s' [[= <-] H]]]; [discriminate | exact H].
  - split; [now left | reflexivity].
Qed.

Lemma usesPostgres_spec (config : Config) :
  usesPostgres config = true <-> lookup "DB_TYPE" config = Some "postgresdb".
Proof.
  unfold usesPostgres. destruct (lookup "DB_TYPE" config) as [s|].
  - rewrite String.eqb_eq. split; [now intros -> | now intros [= ->]].
  - split; discriminate.
Qed.

Lemma usesQueue_spec (config : Config) :
  usesQueue config = true <-> lookup "EXECUTIONS_MODE" config = Some "queue".
Proof.
  unfold usesQueue. destruct (lookup "EXECUTIONS_MODE" config) as [s|].
  - rewrite String.eqb_eq. split; [now intros -> | now intros [= ->]].
  - split; discriminate.
Qed.

Ltac solve_NoDup :=
  repeat (apply NoDup_cons;
          [ simpl; intuition discriminate | ]);
  apply NoDup_nil.

Lemma POSTGRES_REQUIRED_FIELDS_NoDup : NoDup POSTGRES_REQUIRED_FIELDS.
Proof. unfold POSTGRES_REQUIRED_FIELDS. solve_NoDup. Qed.

Lemma REDIS_REQUIRED_FIELDS_NoDup : NoDup REDIS_REQUIRED_FIELDS.
Proof. unfold REDIS_REQUIRED_FIELDS. solve_NoDup. Qed.

(** The error list of [validateConfig] is the per-field errors followed by
    what each dependency loop that runs appends. *)
Lemma configErrors_shape (config : Config) :
  configErrors config =
    let e1 := perFieldErrors config in
    let e2 := e1 ++ (if usesPostgres config
                     then dependencyAdditions postgresMessage POSTGRES_REQUIRED_FIELDS
                                              config e1
                     else []) in
    e2 ++ (if usesQueue config
           then dependencyAdditions redisMessage REDIS_REQUIRED_FIELDS config e2
           else []).
Proof.
  unfold configErrors. cbv zeta.
  destruct (usesPostgres config), (usesQueue config);
    rewrite ?(dependencyPass_spec _ _ _ POSTGRES_REQUIRED_FIELDS_NoDup),
            ?(dependencyPass_spec _ _ _ REDIS_REQUIRED_FIELDS_NoDup),
            ?app_nil_r; reflexivity.
Qed.

Lemma filter_none {A : Type} (p : A -> bool) (l : list A) :
  (forall x, In x l -> p x = false) -> filter p l = [].
Proof.
  intros H. rewrite (filter_ext_in p (fun _ => false) l H). apply filter_false.
Qed.

Lemma filter_key_NoDup (f : string) (l : list string) :
  NoDup l -> In f l -> filter (fun g => (g =? f)%string) l = [f].
Proof.
  induction 1 as [|x l Hx Hnd IH]; simpl; [tauto|].
  intros [->|Hin].
  - rewrite String.eqb_refl. f_equal.
    apply filter_none.
    intros y Hy. apply string_eqb_false. intros ->. contradiction.
  - destruct (String.eqb_spec x f) as [->|_]; [contradiction | auto].
Qed.

Lemma filter_key_absent (f : string) (l : list string) :
  ~ In f l -> filter (fun g => (g =? f)%string) l = [].
Proof.
  intros H. apply filter_none. intros y Hy.
  apply string_eqb_false. intros ->. contradiction.
Qed.

Lemma filter_comm {A : Type} (p q : A -> bool) (l : list A) :
  filter p (filter q l) = filter q (filter p l).
Proof.
  induction l as [|x l IH]; simpl; [reflexivity|].
  destruct (p x) eqn:Hp, (q x) eqn:Hq; simpl; rewrite ?Hp, ?Hq, IH; reflexivity.
Qed.

Lemma errorsFor_additions (message : string -> string) (fields : list string)
  (config : Config) (errs : list ValidationError) (f : string) :
  NoDup fields ->
  errorsFor f (dependencyAdditions message fields config errs) =
    if existsb (fun g => (g =? f)%string) fields
         && (isBlank (lookup f config) && negb (hasErrorFor f errs))
    then [mkError f (message f) error]
    else [].
Proof.
  intros Hnd. unfold errorsFor, dependencyAdditions.
  assert (Hmap : forall l,
             filter (fun e => (err_field e =? f)%string)
                    (map (fun g => mkError g (message g) error) l)
             = map (fun g => mkError g (message g) error)
                   (filter (fun g => (g =? f)%string) l)).
  { induction l as [|x l IH]; simpl; [reflexivity|].
    destruct (x =? f)%string; simpl; now rewrite IH. }
  rewrite Hmap, filter_comm.
  destruct (existsb (fun g => (g =? f)%string) fields) eqn:E.
  - apply existsb_exists in E as [g [Hg E]]. apply String.eqb_eq in E. subst g.
    rewrite (filter_key_NoDup f fields Hnd Hg). simpl. unfold hasErrorFor.
    destruct (isBlank (lookup f config) && _); reflexivity.
  - rewrite filter_key_absent; [reflexivity|].
    intros Hin. assert (existsb (fun g => (g =? f)%string) fields = true) as E'.
    { apply existsb_exists. exists f. split; [exact Hin | apply String.eqb_refl]. }
    congruence.
Qed.

Lemma hasErrorFor_exists (f : string) (errs : list ValidationError) :
  hasErrorFor f errs = true -> exists e, In e errs /\ err_field e = f.
Proof.
  unfold hasErrorFor. rewrite existsb_exists.
  intros [e [He H]]. apply andb_true_iff in H as [H _].
  apply String.eqb_eq in H. eauto.
Qed.

Lemma errorsFor_app (f : string) (a b : list ValidationError) :
  errorsFor f (a ++ b) = errorsFor f a ++ errorsFor f b.
Proof. apply filter_app. Qed.

Lemma errorsFor_In (f : string) (errs : list ValidationError) (e : ValidationError) :
  In e (errorsFor f errs) <-> In e errs /\ err_field e = f.
Proof. unfold errorsFor. now rewrite filter_In, String.eqb_eq. Qed.

(** The errors a Postgres-required field ends up with. *)
Lemma errorsFor_postgres_field (config : Config) (f : string) :
  usesPostgres config = true ->
  In f POSTGRES_REQUIRED_FIELDS ->
  errorsFor f (configErrors config) =
    errorsFor f (perFieldErrors config) ++
    (if isBlank (lookup f config) && negb (hasErrorFor f (perFieldErrors config))
     then [mkError f (postgresMessage f) error]
     else []).
Proof.
  intros Hpg Hf. rewrite configErrors_shape. cbv zeta. rewrite Hpg.
  rewrite !errorsFor_app.
  rewrite (errorsFor_additions _ _ _ _ f POSTGRES_REQUIRED_FIELDS_NoDup).
  assert (Hin : existsb (fun g => (g =? f)%string) POSTGRES_REQUIRED_FIELDS = true)
    by (apply existsb_exists; exists f; split; [exact Hf | apply String.eqb_refl]).
  rewrite Hin. cbn [andb].
  assert (Hredis : errorsFor f
                     (if usesQueue config
                      then dependencyAdditions redisMessage REDIS_REQUIRED_FIELDS config
                             (perFieldErrors config ++
                              dependencyAdditions postgresMessage POSTGRES_REQUIRED_FIELDS
                                config (perFieldErrors config))
                      else []) = []).
  { destruct (usesQueue config); [|reflexivity].
    rewrite (errorsFor_additions _ _ _ _ f REDIS_REQUIRED_FIELDS_NoDup).
    replace (existsb (fun g => (g =? f)%string) REDIS_REQUIRED_FIELDS) with false;
      [reflexivity|].
    unfold POSTGRES_REQUIRED_FIELDS in Hf. simpl in Hf.
    destruct Hf as [<-|[<-|[<-|[<-|[]]]]]; reflexivity. }
  rewrite Hredis, app_nil_r. reflexivity.
Qed.

Lemma saysPostgres_postgresMessage (f : string) :
  saysPostgres (postgresMessage f) = true.
Proof. apply matchAtEnd_append. Qed.

(** No rule other than the PostgreSQL dependency rule words its message
    as one: checked over the rule tables. *)
Lemma other_rules_do_not_say_postgres :
  forallb (fun fn => negb (saysPostgres (rule_message (createRequiredRule fn))))
          REQUIRED_FIELDS = true /\
  forallb (fun fn => negb (saysPostgres (rule_message (createNumericRule fn))))
          NUMERIC_FIELDS = true /\
  forallb (fun fn => negb (saysPostgres (rule_message (createBooleanRule fn))))
          BOOLEAN_FIELDS = true /\
  forallb (fun '(fn, allowed) =>
             negb (saysPostgres (rule_message (enumRule fn allowed))))
          ENUM_VALUES = true /\
  forallb (fun fn => negb (saysPostgres (rule_message (createRedisDependencyRule fn))))
          REDIS_REQUIRED_FIELDS = true.
Proof. repeat split; vm_compute; reflexivity. Qed.

Lemma failing_rule_says_postgres (config : Config) (fn v : string)
  (r : FieldValidationRule) :
  usesPostgres config = false ->
  In r (fieldRules fn) ->
  rule_validate r (Some v) config = false ->
  saysPostgres (rule_message r) = false.
Proof.
  intros Hpg Hr Hfail.
  destruct other_rules_do_not_say_postgres as (Hreq & Hnum & Hbool & Henum & Hredis).
  rewrite forallb_forall in Hreq, Hnum, Hbool, Henum, Hredis.
  apply fieldRules_In in Hr.
  destruct Hr as [[H ->]|[[H ->]|[[H ->]|[[allowed [H ->]]|[[H ->]|[H ->]]]]]].
  - apply negb_true_iff. now apply Hreq.
  - apply negb_true_iff. now apply Hnum.
  - apply negb_true_iff. now apply Hbool.
  - apply negb_true_iff. exact (Henum (fn, allowed) H).
  - simpl in Hfail. rewrite Hpg in Hfail. discriminate.
  - apply negb_true_iff. now apply Hredis.
Qed.

Lemma perFieldErrors_In (config : Config) (e : ValidationError) :
  In e (perFieldErrors config) ->
  exists k v r,
    In (k, v) config /\ In r (fieldRules k) /\
    rule_validate r (Some v) config = false /\
    e = mkError k (rule_message r) error.
Proof.
  unfold perFieldErrors. rewrite in_flat_map.
  intros [[k v] [Hkv He]]. unfold fieldErrors in He.
  apply in_map_iff in He as [r [<- Hr]].
  apply filter_In in Hr as [Hr Hfail]. apply negb_true_iff in Hfail.
  now exists k, v, r.
Qed.

Lemma dependencyAdditions_In (message : string -> string) (fields : list string)
  (config : Config) (errs : list ValidationError) (e : ValidationError) :
  In e (dependencyAdditions message fields config errs) ->
  exists f, In f fields /\ e = mkError f (message f) error.
Proof.
  unfold dependencyAdditions. rewrite in_map_iff.
  intros [f [<- Hf]]. apply filter_In in Hf as [Hf _]. now exists f.
Qed.

(** Every error of a configuration comes from a property that is set or
    from one of the two dependency lists. *)
Lemma configErrors_In (config : Config) (e : ValidationError) :
  In e (configErrors config) ->
  In e (perFieldErrors config) \/
  (usesPostgres config = true /\
   exists f, In f POSTGRES_REQUIRED_FIELDS /\ e = mkError f (postgresMessage f) error) \/
  (usesQueue config = true /\
   exists f, In f REDIS_REQUIRED_FIELDS /\ e = mkError f (redisMessage f) error).
Proof.
  rewrite configErrors_shape. cbv zeta. rewrite !in_app_iff.
  intros [[H|H]|H]; [now left | right; left | right; right].
  - destruct (usesPostgres config); [|destruct H].
    split; [reflexivity|]. eapply dependencyAdditions_In; eassumption.
  - destruct (usesQueue config); [|destruct H].
    split; [reflexivity|]. eapply dependencyAdditions_In; eassumption.
Qed.

Lemma perFieldErrors_kept (config : Config) (e : ValidationError) :
  In e (perFieldErrors config) -> In e (configErrors config).
Proof. intros H. rewrite configErrors_shape. cbv zeta. rewrite !in_app_iff. auto. Qed.

Lemma valid_false_of_error (errs : list ValidationError) (e : ValidationError) :
  In e errs -> (List.length errs =? 0)%nat = false.
Proof. destruct errs; [intros [] | reflexivity]. Qed.

(* ====================================================================== *)
(** ** Properties of the validator *)
(* ====================================================================== *)

Lemma table_ordinary (table : list string) :
  forallb (fun f => negb (inheritsKey f)) table = true ->
  forall f, In f table -> OrdinaryKey f.
Proof.
  intros H f Hf. rewrite forallb_forall in H.
  apply negb_true_iff. now apply H.
Qed.

(** No field of a rule table is a key of [Object.prototype]. *)
Lemma rule_tables_ordinary (f : string) :
  In f (REQUIRED_FIELDS ++ NUMERIC_FIELDS ++ BOOLEAN_FIELDS ++ keys ENUM_VALUES
        ++ POSTGRES_REQUIRED_FIELDS ++ REDIS_REQUIRED_FIELDS) ->
  OrdinaryKey f.
Proof. apply table_ordinary. vm_compute. reflexivity. Qed.

Lemma OrdinaryKeys_nil {V : Type} : OrdinaryKeys (@nil (string * V)).
Proof. intros k []. Qed.

Lemma OrdinaryKeys_entry {V : Type} (o : Obj V) (k : string) (v : V) :
  OrdinaryKeys o -> In (k, v) o -> OrdinaryKey k.
Proof. intros H Hin. apply H. exact (in_map fst o (k, v) Hin). Qed.

(** X27. Write [perFieldErrors] for the errors [validateField] gives the
    properties that are set, and let no key of the configuration be a
    key of [Object.prototype]. Then [validateConfig] returns, and with
    [DB_TYPE] equal to [postgresdb] each of the four Postgres-required
    fields ends up with the errors per-field validation gave it plus one
    dependency error, appended exactly when the field is absent or blank
    and no error for that field was there already; a missing field
    therefore always has an error and makes the result invalid. With any
    other [DB_TYPE] no error reads as a Postgres dependency error. The
    configuration holding only [DB_TYPE = postgresdb] gets one error per
    required field and is invalid. *)
Theorem validateConfig_postgres_dependencies :
  forall (config : Config) (cache : RulesCache),
    cache_ok cache ->
    OrdinaryKeys config ->
    exists result scenario,
    fst (validateConfig config cache) = Returns result /\
    (forall k v, In (k, v) config ->
       fst (validateField k v config cache) = Returns (fieldErrors k v config))
    /\
    (lookup "DB_TYPE" config = Some "postgresdb" ->
     forall f, In f POSTGRES_REQUIRED_FIELDS ->
       errorsFor f (errors result) =
         errorsFor f (perFieldErrors config) ++
         (if isBlank (lookup f config) && negb (hasErrorFor f (perFieldErrors config))
          then [mkError f (postgresMessage f) error]
          else [])
       /\ (AbsentOrBlank f config ->
           (exists e, In e (errors result) /\ err_field e = f) /\
           valid result = false))
    /\ (lookup "DB_TYPE" config <> Some "postgresdb" ->
        forall e, In e (errors result) ->
        forall f, err_message e <> postgresMessage f)
    /\ fst (validateConfig [("DB_TYPE", "postgresdb")] cache) = Returns scenario
    /\ map err_field (errors scenario) = POSTGRES_REQUIRED_FIELDS
    /\ valid scenario = false.
Proof.
  intros config cache Hc Hord.
  assert (Hscenario : OrdinaryKeys [("DB_TYPE", "postgresdb")]).
  { intros k [<-|[]]. reflexivity. }
  destruct (validateConfig_ok config cache Hc Hord) as [Hres _].
  destruct (validateConfig_ok [("DB_TYPE", "postgresdb")] cache Hc Hscenario)
    as [Hs _].
  eexists. eexists.
  split; [exact Hres|]. cbn [errors valid].
  refine ((fun H => conj (proj1 H)
                      (conj (proj1 (proj2 H))
                         (conj (proj2 (proj2 H))
                            (conj Hs (conj eq_refl eq_refl))))) _).
  split; [|split].
  - intros k v Hkv.
    exact (proj1 (validateField_ok k v config cache Hc
                    (OrdinaryKeys_entry config k v Hord Hkv))).
  - intros Hdb f Hf. apply usesPostgres_spec in Hdb.
    pose proof (errorsFor_postgres_field config f Hdb Hf) as Hshape.
    split; [exact Hshape|].
    intros Hblank. apply isBlank_spec in Hblank. rewrite Hblank in Hshape.
    assert (Hex : exists e, In e (configErrors config) /\ err_field e = f).
    { destruct (hasErrorFor f (perFieldErrors config)) eqn:Hhas.
      - apply hasErrorFor_exists in Hhas as [e [He Hfe]].
        exists e. split; [now apply perFieldErrors_kept | exact Hfe].
      - exists (mkError f (postgresMessage f) error). split; [|reflexivity].
        apply (errorsFor_In f). rewrite Hshape. apply in_or_app. right. now left. }
    split; [exact Hex|].
    destruct Hex as [e [He _]]. exact (valid_false_of_error _ _ He).
  - intros Hdb e He f Hmsg.
    assert (Hpg : usesPostgres config = false).
    { destruct (usesPostgres config) eqn:E; [|reflexivity].
      apply usesPostgres_spec in E. contradiction. }
    pose proof (saysPostgres_postgresMessage f) as Hsays. rewrite <- Hmsg in Hsays.
    apply configErrors_In in He as [He|[[E _]|[_ [g [Hg ->]]]]].
    + apply perFieldErrors_In in He as (k & v & r & _ & Hr & Hfail & ->).
      cbn [err_message] in Hsays.
      rewrite (failing_rule_says_postgres config k v r Hpg Hr Hfail) in Hsays.
      discriminate.
    + congruence.
    + cbn [err_message] in Hsays.
      destruct other_rules_do_not_say_postgres as (_ & _ & _ & _ & Hredis).
      rewrite forallb_forall in Hredis. apply Hredis in Hg.
      cbn [rule_message createRedisDependencyRule] in Hg.
      rewrite Hsays in Hg. discriminate.
Qed.

(** C1. A configuration in PostgreSQL mode that also has a property
    named like a member of [Object.prototype]: [validateConfig] ends with
    a [TypeError] at that property, so that no result and no error for
    the missing connection fields is returned. *)
Theorem validateConfig_postgres_inherited_key :
  let config := [("DB_TYPE", "postgresdb"); ("constructor", "x")] in
  lookup "DB_TYPE" config = Some "postgresdb" /\
  lookup "DB_POSTGRESDB_HOST" config = None /\
  fst (validateConfig config []) = Throws TypeError.
Proof. vm_compute. repeat split. Qed.

(** X28. Let no key of the configuration be a key of
    [Object.prototype]. Then [validateConfig] returns, and per-field
    validation has run over the properties that are set: a required
    field that is not a key of the configuration has no error in the
    result, a required field set to the empty string has its
    "is required" error and makes the result invalid, and the empty
    configuration is valid. *)
Theorem validateConfig_required_only_when_present :
  forall (config : Config) (cache : RulesCache),
    cache_ok cache ->
    OrdinaryKeys config ->
    exists result,
    fst (validateConfig config cache) = Returns result /\
    (forall f, In f REQUIRED_FIELDS ->
       (~ In f (keys config) ->
        forall e, In e (errors result) -> err_field e <> f)
       /\ (In (f, "") config ->
           In (mkError f (f ++ " is required") error) (errors result) /\
           valid result = false))
    /\ fst (validateConfig [] cache)
       = Returns {| valid := true; errors := []; warnings := [] |}.
Proof.
  intros config cache Hc Hord.
  destruct (validateConfig_ok config cache Hc Hord) as [Hres _].
  eexists. split; [exact Hres|]. cbn [errors valid].
  split.
  - intros f Hf. split.
    + intros Habsent e He Hfe.
      apply configErrors_In in He as [He|[[_ [g [Hg ->]]]|[_ [g [Hg ->]]]]].
      * apply perFieldErrors_In in He as (k & v & r & Hkv & _ & _ & ->).
        cbn [err_field] in Hfe. subst k.
        apply Habsent. exact (in_map fst config (f, v) Hkv).
      * cbn [err_field] in Hfe. subst g. revert Hf Hg.
        unfold REQUIRED_FIELDS, POSTGRES_REQUIRED_FIELDS. simpl.
        intuition (subst; discriminate).
      * cbn [err_field] in Hfe. subst g. revert Hf Hg.
        unfold REQUIRED_FIELDS, REDIS_REQUIRED_FIELDS. simpl.
        intuition (subst; discriminate).
    + intros Hset.
      assert (He : In (mkError f (f ++ " is required") error) (configErrors config)).
      { apply perFieldErrors_kept. unfold perFieldErrors. apply in_flat_map.
        exists (f, ""). split; [exact Hset|].
        unfold REQUIRED_FIELDS in Hf. simpl in Hf.
        destruct Hf as [<-|[<-|[<-|[]]]]; vm_compute; auto. }
      split; [exact He | exact (valid_false_of_error _ _ He)].
  - destruct (validateConfig_ok [] cache Hc OrdinaryKeys_nil) as [Hs _].
    rewrite Hs. reflexivity.
Qed.

(** C7. A required field set to the empty string, next to a property
    named like a member of [Object.prototype]: [validateConfig] ends with
    a [TypeError], so that the error of the required field is not
    returned; in the other order of the two properties as well. *)
Theorem validateConfig_required_inherited_key :
  In "N8N_HOST" REQUIRED_FIELDS /\
  fst (validateConfig [("N8N_HOST", ""); ("constructor", "x")] [])
    = Throws TypeError /\
  fst (validateConfig [("constructor", "x"); ("N8N_HOST", "")] [])
    = Throws TypeError /\
  fst (validateConfig [("N8N_HOST", "")] [])
    = Returns {| valid := false;
                 errors := [mkError "N8N_HOST" "N8N_HOST is required" error];
                 warnings := [] |}.
Proof. vm_compute. repeat split. now left. Qed.

Lemma isDigit_spec (c : ascii) : isDigit c = true <-> DigitChar c.
Proof.
  unfold DigitChar. split.
  - destruct c as [[] [] [] [] [] [] [] []]; vm_compute; intros H;
      try discriminate H; intuition.
  - simpl. intros H. repeat (destruct H as [<-|H]; [reflexivity|]). destruct H.
Qed.

Lemma allDigits_spec (s : string) :
  negb (s =? "")%string && allDigits s = true <-> Digits s.
Proof.
  split.
  - induction s as [|c s IH]; simpl; [discriminate|].
    intros H. apply andb_true_iff in H as [Hc Hs]. apply isDigit_spec in Hc.
    destruct s as [|c' s'].
    + now apply Digits_one.
    + apply Digits_more; [exact Hc|]. apply IH. exact Hs.
  - induction 1 as [c Hc|c s Hc Hs IH]; simpl.
    + apply isDigit_spec in Hc. now rewrite Hc.
    + apply isDigit_spec in Hc. rewrite Hc. simpl.
      apply andb_true_iff in IH as [_ IH]. exact IH.
Qed.

Lemma Digits_head (c : ascii) (s : string) : Digits (String c s) -> DigitChar c.
Proof. inversion 1; assumption. Qed.

Lemma keep_unsigned (c : ascii) (rest : string) :
  c <> "-"%char ->
  match String c rest with
  | String "-"%char r => r
  | _ => String c rest
  end = String c rest.
Proof.
  intros Hc. destruct c as [[] [] [] [] [] [] [] []]; try reflexivity.
  congruence.
Qed.

(** The integer pattern accepts exactly an optional minus sign followed by
    one or more digits. *)
Lemma test_Integer_spec (s : string) : test Integer s = true <-> IntegerText s.
Proof.
  unfold test, IntegerText. destruct s as [|c rest].
  - simpl. split; [discriminate|].
    intros [H|[d [H _]]]; [inversion H | discriminate H].
  - destruct (Ascii.eqb_spec c "-"%char) as [->|Hc].
    + cbv zeta. cbv iota. rewrite allDigits_spec. split.
      * intros H. right. now exists rest.
      * intros [H|[d [[= <-] H]]]; [|exact H].
        apply Digits_head in H. unfold DigitChar in H. simpl in H.
        intuition discriminate.
    + rewrite (keep_unsigned c rest Hc), allDigits_spec. split.
      * now left.
      * intros [H|[d [[= E _] _]]]; [exact H | congruence].
Qed.

Lemma errorsSaying_map (fieldName m : string) (p : FieldValidationRule -> bool)
  (rules : list FieldValidationRule) :
  errorsSaying m (map (fun r => mkError fieldName (rule_message r) error)
                      (filter p rules))
  = map (fun r => mkError fieldName (rule_message r) error)
        (filter (fun r => p r && (rule_message r =? m)%string) rules).
Proof.
  unfold errorsSaying. induction rules as [|r rules IH]; simpl; [reflexivity|].
  destruct (p r); simpl; [|exact IH].
  destruct (rule_message r =? m)%string; simpl; now rewrite IH.
Qed.

Lemma filter_ruleIf (p : FieldValidationRule -> bool) (b : bool)
  (r : FieldValidationRule) :
  filter p (ruleIf b r) = if b && p r then [r] else [].
Proof. destruct b; simpl; [destruct (p r)|]; reflexivity. Qed.

(** C8. For a field of the numeric set, [validateField] reports no
    numeric error when the value is empty or is an optional minus sign
    followed by one or more digits, and exactly one numeric error for
    every other value; decimals, scientific notation and text are among
    the latter. *)
Theorem validateField_numeric_rule :
  forall (field value : string) (config : Config) (cache : RulesCache),
    cache_ok cache ->
    In field NUMERIC_FIELDS ->
    exists errs,
    fst (validateField field value config cache) = Returns errs /\
    let numericErrors := errorsSaying (field ++ " must be a valid number") errs in
    (value = "" \/ IntegerText value -> numericErrors = [])
    /\ (value <> "" -> ~ IntegerText value ->
        numericErrors = [mkError field (field ++ " must be a valid number") error])
    /\ (IntegerText "5678" /\ IntegerText "-1" /\
        ~ IntegerText "1.5" /\ ~ IntegerText "1e5" /\ ~ IntegerText "abc" /\
        ~ IntegerText "-" /\ ~ IntegerText " 1").
Proof.
  intros field value config cache Hc Hnum.
  assert (Hord : OrdinaryKey field).
  { apply rule_tables_ordinary. rewrite !in_app_iff. auto. }
  exists (fieldErrors field value config).
  split; [exact (proj1 (validateField_ok field value config cache Hc Hord))|].
  cbv zeta.
  refine ((fun H => conj (proj1 H) (conj (proj2 H) _)) _).
  { repeat split;
      first [ apply test_Integer_spec; reflexivity
            | intros H'; apply test_Integer_spec in H'; discriminate H' ]. }
  apply includes_In in Hnum.
  unfold fieldErrors. rewrite errorsSaying_map, fieldRules_app, Hnum.
  rewrite !filter_app, !filter_ruleIf.
  cbn [rule_message rule_validate createRequiredRule createNumericRule
       createBooleanRule createPostgresDependencyRule createRedisDependencyRule].
  unfold postgresMessage, redisMessage.
  rewrite !append_cancel_l, String.eqb_refl.
  replace (" is required" =? " must be a valid number")%string with false by reflexivity.
  replace (" must be 'true' or 'false'" =? " must be a valid number")%string
    with false by reflexivity.
  replace (" is required when using PostgreSQL database" =? " must be a valid number")%string
    with false by reflexivity.
  replace (" is required when using Queue mode" =? " must be a valid number")%string
    with false by reflexivity.
  rewrite !andb_false_r. cbn [andb app].
  assert (Henum :
            filter (fun r => negb (rule_validate r (Some value) config)
                             && (rule_message r =? field ++ " must be a valid number")%string)
                   match lookup field ENUM_VALUES with
                   | Some allowed => [enumRule field allowed]
                   | None => []
                   end = []).
  { destruct (lookup field ENUM_VALUES) as [allowed|]; [|reflexivity].
    cbn [filter rule_message enumRule].
    rewrite append_cancel_l.
    replace (" must be one of: " ++ join ", " allowed =? " must be a valid number")%string
      with false by reflexivity.
    now rewrite andb_false_r. }
  rewrite Henum. cbn [app]. rewrite andb_true_r.
  split.
  - intros [->|Hint]; [reflexivity|].
    apply test_Integer_spec in Hint. rewrite Hint.
    now destruct (value =? "")%string.
  - intros Hne Hint. apply string_eqb_false in Hne. rewrite Hne.
    destruct (test Integer value) eqn:E; [|reflexivity].
    apply test_Integer_spec in E. contradiction.
Qed.

Lemma validateConfig_postgres_dependencies_witness :
  let config := [("DB_TYPE", "postgresdb"); ("DB_POSTGRESDB_HOST", "  ")] in
  cache_ok [] /\
  OrdinaryKeys config /\
  lookup "DB_TYPE" config = Some "postgresdb" /\
  In "DB_POSTGRESDB_HOST" POSTGRES_REQUIRED_FIELDS /\
  AbsentOrBlank "DB_POSTGRESDB_HOST" config /\
  exists result,
    fst (validateConfig config []) = Returns result /\ valid result = false.
Proof.
  intros config.
  assert (H0 : OrdinaryKeys config).
  { intros k [<-|[<-|[]]]; reflexivity. }
  assert (H1 : lookup "DB_TYPE" config = Some "postgresdb") by reflexivity.
  assert (H2 : In "DB_POSTGRESDB_HOST" POSTGRES_REQUIRED_FIELDS) by (simpl; auto).
  assert (H3 : AbsentOrBlank "DB_POSTGRESDB_HOST" config)
    by (right; exists "  "; split; reflexivity).
  refine (conj cache_ok_nil (conj H0 (conj H1 (conj H2 (conj H3 _))))).
  destruct (validateConfig_postgres_dependencies config [] cache_ok_nil H0)
    as (result & scenario & Hres & _ & Hpg & _).
  exists result. split; [exact Hres|].
  exact (proj2 (proj2 (Hpg H1 _ H2) H3)).
Defined.

Lemma validateConfig_required_only_when_present_witness :
  let config := [("N8N_HOST", "")] in
  cache_ok [] /\
  OrdinaryKeys config /\
  In "N8N_HOST" REQUIRED_FIELDS /\
  In ("N8N_HOST", "") config /\
  In "DB_TYPE" REQUIRED_FIELDS /\
  ~ In "DB_TYPE" (keys config) /\
  exists result,
    fst (validateConfig config []) = Returns result /\
    valid result = false /\
    (forall e, In e (errors result) -> err_field e <> "DB_TYPE").
Proof.
  intros config.
  assert (H0 : OrdinaryKeys config).
  { intros k [<-|[]]; reflexivity. }
  assert (H1 : In "N8N_HOST" REQUIRED_FIELDS) by (simpl; auto).
  assert (H2 : In ("N8N_HOST", "") config) by (simpl; auto).
  assert (H3 : In "DB_TYPE" REQUIRED_FIELDS) by (simpl; auto).
  assert (H4 : ~ In "DB_TYPE" (keys config)) by (simpl; intuition discriminate).
  refine (conj cache_ok_nil (conj H0 (conj H1 (conj H2 (conj H3 (conj H4 _)))))).
  destruct (validateConfig_required_only_when_present config [] cache_ok_nil H0)
    as (result & Hres & H & _).
  exists result. split; [exact Hres|]. split.
  - exact (proj2 (proj2 (H _ H1) H2)).
  - exact (proj1 (H _ H3) H4).
Defined.

Lemma validateField_numeric_rule_witness :
  cache_ok [] /\
  In "N8N_PORT" NUMERIC_FIELDS /\
  "1.5" <> "" /\
  ~ IntegerText "1.5" /\
  exists errs,
    fst (validateField "N8N_PORT" "1.5" [] []) = Returns errs /\
    errorsSaying "N8N_PORT must be a valid number" errs
    = [mkError "N8N_PORT" "N8N_PORT must be a valid number" error].
Proof.
  assert (H1 : In "N8N_PORT" NUMERIC_FIELDS) by (simpl; auto).
  assert (H2 : "1.5" <> "") by discriminate.
  assert (H3 : ~ IntegerText "1.5").
  { intros H. apply test_Integer_spec in H. vm_compute in H. discriminate H. }
  refine (conj cache_ok_nil (conj H1 (conj H2 (conj H3 _)))).
  destruct (validateField_numeric_rule "N8N_PORT" "1.5" [] [] cache_ok_nil H1)
    as (errs & He & H).
  exists errs. split; [exact He|].
  exact (proj1 (proj2 H) H2 H3).
Defined.

(* ====================================================================== *)
(** ** The diff engine *)
(* ====================================================================== *)

Lemma setAdd_In (s : list string) (x y : string) :
  In y (setAdd s x) <-> In y s \/ y = x.
Proof.
  unfold setAdd. destruct (includes s x) eqn:E.
  - apply includes_In in E. split; [auto | intros [H| ->]; assumption].
  - rewrite in_app_iff. simpl. intuition.
Qed.

Lemma setAdd_NoDup (s : list string) (x : string) :
  NoDup s -> NoDup (setAdd s x).
Proof.
  intros H. unfold setAdd. destruct (includes s x) eqn:E; [exact H|].
  assert (Hx : ~ In x s).
  { intros Hin. apply includes_In in Hin. congruence. }
  clear E. induction H as [|y s Hy Hs IH]; simpl.
  - constructor; [intros [] | constructor].
  - constructor.
    + rewrite in_app_iff. simpl. intros [H|[H|[]]]; [contradiction|].
      subst. apply Hx. now left.
    + apply IH. intros Hin. apply Hx. now right.
Qed.

Lemma newSet_fold_In (items : list string) :
  forall acc y, In y (fold_left setAdd items acc) <-> In y acc \/ In y items.
Proof.
  induction items as [|x items IH]; intros acc y; simpl.
  - tauto.
  - rewrite IH, setAdd_In. intuition.
Qed.

Lemma newSet_In (items : list string) (y : string) :
  In y (newSet items) <-> In y items.
Proof. unfold newSet. rewrite newSet_fold_In. simpl. tauto. Qed.

Lemma newSet_NoDup (items : list string) : NoDup (newSet items).
Proof.
  unfold newSet. generalize (NoDup_nil string). generalize (@nil string).
  induction items as [|x items IH]; intros acc H; simpl; [exact H|].
  apply IH. now apply setAdd_NoDup.
Qed.

(** A loop that skips the [x] that satisfy [s] and pushes [g x] for the
    others. *)
Lemma fold_left_skip {A B : Type} (s : A -> bool) (g : A -> B) (l : list A) :
  forall acc,
    fold_left (fun acc x => if s x then acc else acc ++ [g x]) l acc
    = acc ++ map g (filter (fun x => negb (s x)) l).
Proof.
  induction l as [|x l IH]; intros acc; simpl.
  - now rewrite app_nil_r.
  - rewrite IH. destruct (s x); simpl; [reflexivity | now rewrite <- app_assoc].
Qed.

Lemma insertBy_Permutation {A : Type} (cmp : A -> A -> Z) (x : A) (l : list A) :
  Permutation (insertBy cmp x l) (x :: l).
Proof.
  induction l as [|y l IH]; simpl; [reflexivity|].
  destruct (cmp x y <=? 0)%Z; [reflexivity|].
  rewrite IH. apply perm_swap.
Qed.

Lemma sortBy_Permutation {A : Type} (cmp : A -> A -> Z) (l : list A) :
  Permutation (sortBy cmp l) l.
Proof.
  induction l as [|x l IH]; simpl; [reflexivity|].
  rewrite insertBy_Permutation. now constructor.
Qed.

Lemma insertBy_Sorted {A : Type} (cmp : A -> A -> Z) :
  (forall a b, (cmp a b <= 0)%Z \/ (cmp b a <= 0)%Z) ->
  forall x l,
    Sorted (fun a b => (cmp a b <= 0)%Z) l ->
    Sorted (fun a b => (cmp a b <= 0)%Z) (insertBy cmp x l).
Proof.
  intros Htotal x l. induction l as [|y l IH]; intros Hs; simpl.
  - repeat constructor.
  - destruct (Z.leb_spec (cmp x y) 0) as [Hle|Hgt].
    + constructor; [exact Hs | constructor; exact Hle].
    + apply Sorted_inv in Hs as [Hs Hhd]. constructor; [now apply IH|].
      assert (Hyx : (cmp y x <= 0)%Z) by (destruct (Htotal x y); [lia | assumption]).
      destruct l as [|z l]; simpl.
      * constructor. exact Hyx.
      * destruct (cmp x z <=? 0)%Z; constructor; [exact Hyx|].
        now apply HdRel_inv in Hhd.
Qed.

Lemma sortBy_Sorted {A : Type} (cmp : A -> A -> Z) :
  (forall a b, (cmp a b <= 0)%Z \/ (cmp b a <= 0)%Z) ->
  forall l, Sorted (fun a b => (cmp a b <= 0)%Z) (sortBy cmp l).
Proof.
  intros Htotal l. induction l as [|x l IH]; simpl; [constructor|].
  now apply insertBy_Sorted.
Qed.

Lemma Sorted_weaken {A : Type} (R R' : A -> A -> Prop) (l : list A) :
  (forall a b, R a b -> R' a b) -> Sorted R l -> Sorted R' l.
Proof.
  intros H. induction 1 as [|x l Hs IH Hhd]; constructor; [exact IH|].
  destruct Hhd; constructor. now apply H.
Qed.

Lemma Value_eqb_eq (a b : Value) : Value_eqb a b = true <-> a = b.
Proof.
  destruct a as [s|], b as [t|]; cbn [Value_eqb].
  - rewrite String.eqb_eq. split; [now intros -> | now intros [= ->]].
  - split; discriminate.
  - split; discriminate.
  - split; reflexivity.
Qed.

Lemma Value_eqb_refl (a : Value) : Value_eqb a a = true.
Proof. now apply Value_eqb_eq. Qed.

Lemma Value_eqb_false (a b : Value) : Value_eqb a b = false <-> a <> b.
Proof.
  rewrite <- Value_eqb_eq. destruct (Value_eqb a b); split; congruence.
Qed.

Lemma classify_spec (cur def : Value) :
  cur <> def ->
  (classify cur def = added <-> def = Str "" /\ cur <> Str "") /\
  (classify cur def = removed <-> cur = Str "" /\ def <> Str "") /\
  (classify cur def = modified <-> cur <> Str "" /\ def <> Str "").
Proof.
  intros Hne. unfold classify.
  destruct (Value_eqb def (Str "")) eqn:Ed, (Value_eqb cur (Str "")) eqn:Ec;
    cbn [andb negb].
  - apply Value_eqb_eq in Ed, Ec. exfalso. apply Hne. congruence.
  - apply Value_eqb_eq in Ed. apply Value_eqb_false in Ec.
    repeat split; intros; try discriminate; try tauto; intuition congruence.
  - apply Value_eqb_false in Ed. apply Value_eqb_eq in Ec.
    repeat split; intros; try discriminate; try tauto; intuition congruence.
  - apply Value_eqb_false in Ed, Ec.
    repeat split; intros; try discriminate; try tauto; intuition congruence.
Qed.

(** What a key reads as in a map of strings. *)
Lemma valueOf_ofConfig (config : Config) (k : string) :
  valueOf (ofConfig config) k =
    match lookup k config with
    | Some s => Str s
    | None => if inheritsKey k then FromPrototype else Str ""
    end.
Proof.
  unfold valueOf, getOrEmpty, getProperty.
  assert (Hl : lookup k (ofConfig config) = option_map Str (lookup k config)).
  { induction config as [|[k' v] config IH]; cbn [ofConfig map lookup fst snd];
      [reflexivity|].
    destruct (k' =? k)%string; [reflexivity | exact IH]. }
  rewrite Hl. destruct (lookup k config); cbn [option_map]; [reflexivity|].
  now destruct (inheritsKey k).
Qed.

Lemma keys_ofConfig (config : Config) : keys (ofConfig config) = keys config.
Proof. unfold keys, ofConfig. rewrite map_map. reflexivity. Qed.

Lemma codeUnitCompare_total (a b : string) :
  (codeUnitCompare a b <= 0)%Z \/ (codeUnitCompare b a <= 0)%Z.
Proof.
  unfold codeUnitCompare. rewrite (String.compare_antisym a b).
  destruct (String.compare b a); simpl; lia.
Qed.

Section DiffFacts.
Variable localeCompare : string -> string -> Z.

(** The entries before and after sorting. *)
Lemma computeDiff_entries (config defaults : JsObject) :
  entries (computeDiff localeCompare config defaults) =
    sortBy (compareEntries localeCompare)
           (map (diffEntry config defaults)
                (filter (fun k => negb (Value_eqb (valueOf config k) (valueOf defaults k)))
                        (newSet (keys config ++ keys defaults)))).
Proof.
  unfold computeDiff. cbn [entries]. f_equal.
  exact (fold_left_skip
           (fun k => Value_eqb (valueOf config k) (valueOf defaults k))
           (diffEntry config defaults)
           (newSet (keys config ++ keys defaults)) []).
Qed.

Lemma computeDiff_changed_keys (config defaults : JsObject) :
  Permutation
    (map diff_field (entries (computeDiff localeCompare config defaults)))
    (filter (fun k => negb (Value_eqb (valueOf config k) (valueOf defaults k)))
            (newSet (keys config ++ keys defaults))).
Proof.
  rewrite computeDiff_entries.
  rewrite (Permutation_map diff_field (sortBy_Permutation _ _)).
  rewrite map_map. cbn [diff_field diffEntry]. now rewrite map_id.
Qed.

(** The fields that have an entry. *)
Lemma computeDiff_fields (config defaults : JsObject) (k : string) :
  In k (map diff_field (entries (computeDiff localeCompare config defaults))) <->
  (In k (keys config) \/ In k (keys defaults)) /\
  valueOf config k <> valueOf defaults k.
Proof.
  assert (Hin : In k (filter (fun k => negb (Value_eqb (valueOf config k) (valueOf defaults k)))
                             (newSet (keys config ++ keys defaults)))
                <-> (In k (keys config) \/ In k (keys defaults)) /\
                    valueOf config k <> valueOf defaults k).
  { rewrite filter_In, newSet_In, in_app_iff, negb_true_iff. now rewrite Value_eqb_false. }
  rewrite <- Hin. split; apply Permutation_in.
  - apply computeDiff_changed_keys.
  - symmetry. apply computeDiff_changed_keys.
Qed.

Lemma computeDiff_entry (config defaults : JsObject) (e : DiffEntry) :
  In e (entries (computeDiff localeCompare config defaults)) ->
  e = diffEntry config defaults (diff_field e) /\
  valueOf config (diff_field e) <> valueOf defaults (diff_field e).
Proof.
  rewrite computeDiff_entries. intros H.
  apply (Permutation_in _ (sortBy_Permutation _ _)) in H.
  apply in_map_iff in H as [k [<- Hk]]. apply filter_In in Hk as [_ Hk].
  apply negb_true_iff, Value_eqb_false in Hk. split; [reflexivity | exact Hk].
Qed.

Lemma compareEntries_total :
  (forall a b, (localeCompare a b <= 0)%Z \/ (localeCompare b a <= 0)%Z) ->
  forall a b,
    (compareEntries localeCompare a b <= 0)%Z \/
    (compareEntries localeCompare b a <= 0)%Z.
Proof.
  intros Htotal a b. unfold compareEntries.
  rewrite (String.eqb_sym (diff_category b) (diff_category a)).
  destruct (diff_category a =? diff_category b)%string; simpl; apply Htotal.
Qed.

Lemma compareEntries_order (a b : DiffEntry) :
  (compareEntries localeCompare a b <= 0)%Z -> EntryOrder localeCompare a b.
Proof.
  unfold compareEntries, EntryOrder.
  destruct (String.eqb_spec (diff_category a) (diff_category b)); simpl; auto.
Qed.

(** X29. [computeDiff] has exactly one entry for every key of either
    map whose values differ, where a key reads as its own value, else as
    what [Object.prototype] holds under that name, else as the empty
    string; the entry records both values and the category of the key,
    and is [added] when only the default is empty, [removed] when only
    the current value is empty and [modified] when neither is; the
    entries are in order by category and then field; [totalChanges]
    counts them and [hasChanges] says whether there are any. *)
Theorem computeDiff_spec :
  (forall a b, (localeCompare a b <= 0)%Z \/ (localeCompare b a <= 0)%Z) ->
  forall (config defaults : JsObject),
    let result := computeDiff localeCompare config defaults in
    NoDup (map diff_field (entries result))
    /\ (forall k,
          In k (map diff_field (entries result)) <->
          (In k (keys config) \/ In k (keys defaults)) /\
          valueOf config k <> valueOf defaults k)
    /\ (forall e, In e (entries result) ->
          currentValue e = valueOf config (diff_field e) /\
          defaultValue e = valueOf defaults (diff_field e) /\
          diff_category e = getFieldCategory (diff_field e) /\
          (diff_type e = added <->
           defaultValue e = Str "" /\ currentValue e <> Str "") /\
          (diff_type e = removed <->
           currentValue e = Str "" /\ defaultValue e <> Str "") /\
          (diff_type e = modified <->
           currentValue e <> Str "" /\ defaultValue e <> Str ""))
    /\ Sorted (EntryOrder localeCompare) (entries result)
    /\ totalChanges result = List.length (entries result)
    /\ (hasChanges result = true <-> 0 < totalChanges result)
    /\ (forall (o : Config) k,
          valueOf (ofConfig o) k =
            match lookup k o with
            | Some s => Str s
            | None => if inheritsKey k then FromPrototype else Str ""
            end).
Proof.
  intros Htotal config defaults result. subst result.
  split; [|split; [|split; [|split; [|split; [|split]]]]].
  - apply (Permutation_NoDup (Permutation_sym (computeDiff_changed_keys _ _))).
    apply NoDup_filter, newSet_NoDup.
  - apply computeDiff_fields.
  - intros e He. apply computeDiff_entry in He as [He Hne].
    rewrite He. cbn [currentValue defaultValue diff_category diff_field diff_type
                     diffEntry].
    repeat (split; [reflexivity|]).
    apply classify_spec. exact Hne.
  - rewrite computeDiff_entries.
    apply (Sorted_weaken _ _ _ compareEntries_order).
    apply sortBy_Sorted. now apply compareEntries_total.
  - reflexivity.
  - unfold computeDiff. cbn [hasChanges totalChanges]. apply Nat.ltb_lt.
  - apply valueOf_ofConfig.
Qed.

(** C2. A key that is set and is also the name of a member of
    [Object.prototype]: against defaults that lack the key,
    [computeDiff] reads the default as that member and not as the empty
    string, so that a value that is set counts as [modified] and an
    empty value gets a [removed] entry. *)
Theorem computeDiff_inherited_key :
  entries (computeDiff localeCompare (ofConfig [("constructor", "x")]) (ofConfig []))
  = [ {| diff_field := "constructor"; diff_category := "unknown";
         diff_type := modified;
         currentValue := Str "x"; defaultValue := FromPrototype |} ]
  /\
  entries (computeDiff localeCompare (ofConfig [("toString", "")]) (ofConfig []))
  = [ {| diff_field := "toString"; diff_category := "unknown";
         diff_type := removed;
         currentValue := Str ""; defaultValue := FromPrototype |} ].
Proof. split; reflexivity. Qed.

(** C9. Diffing a configuration against itself reports nothing. *)
Theorem computeDiff_self :
  forall (config : JsObject),
    computeDiff localeCompare config config
    = {| entries := []; totalChanges := 0; hasChanges := false |}.
Proof.
  intros config.
  assert (He : entries (computeDiff localeCompare config config) = []).
  { rewrite computeDiff_entries. rewrite filter_none; [reflexivity|].
    intros k _. now rewrite Value_eqb_refl. }
  unfold computeDiff in *. cbn [entries] in He. now rewrite He.
Qed.
End DiffFacts.

Lemma computeDiff_spec_witness :
  let config := ofConfig [("N8N_PORT", "9000"); ("EXTRA", "1"); ("DB_TYPE", "")] in
  let defaults :=
    ofConfig [("DB_TYPE", "sqlite"); ("N8N_PORT", "5678"); ("N8N_HOST", "h")] in
  (forall a b, (codeUnitCompare a b <= 0)%Z \/ (codeUnitCompare b a <= 0)%Z) /\
  Sorted (EntryOrder codeUnitCompare)
         (entries (computeDiff codeUnitCompare config defaults)) /\
  map diff_field (entries (computeDiff codeUnitCompare config defaults))
  = ["DB_TYPE"; "N8N_HOST"; "N8N_PORT"; "EXTRA"].
Proof.
  intros config defaults.
  refine (conj codeUnitCompare_total (conj _ _)).
  - exact (proj1 (proj2 (proj2 (proj2
             (computeDiff_spec codeUnitCompare codeUnitCompare_total config defaults))))).
  - reflexivity.
Defined.

(* ====================================================================== *)
(** ** Reverting *)
(* ====================================================================== *)

Lemma alloc_cells_new (o : JsObject) (st : Store) :
  cells (snd (alloc o st)) (fst (alloc o st)) = o.
Proof. simpl. now rewrite Nat.eqb_refl. Qed.

Lemma alloc_cells_old (o : JsObject) (st : Store) (r : ref) :
  allocated st r -> cells (snd (alloc o st)) r = cells st r.
Proof.
  unfold allocated. intros H. simpl.
  destruct (Nat.eqb_spec r (next st)); [lia | reflexivity].
Qed.

Lemma revertField_fresh (field : string) (config defaults : ref) (st : Store) :
  fst (revertField field config defaults st) = next st.
Proof.
  unfold revertField, alloc. now destruct (hasProperty field _).
Qed.

Lemma revertField_frame (field : string) (config defaults : ref) (st : Store) (r : ref) :
  allocated st r ->
  cells (snd (revertField field config defaults st)) r = cells st r.
Proof.
  unfold allocated, revertField, alloc, modify. intros H.
  destruct (hasProperty field _); simpl;
    destruct (Nat.eqb_spec r (next st)); try lia; reflexivity.
Qed.

(** The object [revertField] returns, as a function of the two it was
    given. *)
Lemma revertField_result (field : string) (config defaults : ref) (st : Store) :
  allocated st defaults ->
  cells (snd (revertField field config defaults st))
        (fst (revertField field config defaults st))
  = if hasProperty field (cells st defaults)
    then setProperty field (readProperty field (cells st defaults)) (cells st config)
    else deleteProp field (cells st config).
Proof.
  unfold allocated, revertField, alloc, modify. intros H. cbn [cells next].
  destruct (Nat.eqb_spec defaults (next st)) as [E|_]; [lia|].
  destruct (hasProperty field (cells st defaults)); cbn [fst snd cells];
    now rewrite !Nat.eqb_refl.
Qed.

Lemma lookup_setProperty_other {V : Type} (k k' : string) (v : V) (o : Obj V) :
  k' <> k -> lookup k' (setProperty k v o) = lookup k' o.
Proof.
  intros H. unfold setProperty.
  destruct (hasKey k o); [now apply lookup_assign_other|].
  destruct (k =? "__proto__")%string; [reflexivity | now apply lookup_assign_other].
Qed.

Lemma lookup_setProperty_same {V : Type} (k : string) (v : V) (o : Obj V) :
  (k = "__proto__" -> In k (keys o)) ->
  lookup k (setProperty k v o) = Some v.
Proof.
  intros H. unfold setProperty.
  destruct (hasKey k o) eqn:E; [apply lookup_assign_same|].
  destruct (String.eqb_spec k "__proto__") as [Hk|_]; [|apply lookup_assign_same].
  apply H, hasKey_keys in Hk. congruence.
Qed.

Lemma setProperty_proto {V : Type} (v : V) (o : Obj V) :
  ~ In "__proto__" (keys o) -> setProperty "__proto__" v o = o.
Proof.
  intros H. unfold setProperty.
  destruct (hasKey "__proto__" o) eqn:E; [|reflexivity].
  apply hasKey_keys in E. contradiction.
Qed.

Lemma getOrEmpty_lookup (k : string) (a b : JsObject) :
  lookup k a = lookup k b -> getOrEmpty k a = getOrEmpty k b.
Proof. unfold getOrEmpty, getProperty. now intros ->. Qed.

Lemma In_keys_lookup {V : Type} (k : string) (o : Obj V) :
  In k (keys o) -> exists v, lookup k o = Some v.
Proof.
  intros H. apply hasKey_keys in H. unfold hasKey in H.
  destruct (lookup k o) as [v|]; [now exists v | discriminate H].
Qed.

(** C5. [revertAll] returns a new object whose properties are exactly
    those of the defaults, whatever the configuration was: a key of the
    configuration that the defaults lack is not in it, and no object that
    existed before the call is changed. *)
Theorem revertAll_spec :
  forall (config defaults : ref) (st : Store),
    let r := fst (revertAll config defaults st) in
    let st' := snd (revertAll config defaults st) in
    cells st' r = cells st defaults
    /\ (forall k, In k (keys (cells st config)) ->
                  ~ In k (keys (cells st defaults)) ->
                  lookup k (cells st' r) = None)
    /\ (forall r0, allocated st r0 -> r <> r0 /\ cells st' r0 = cells st r0).
Proof.
  intros config defaults st r st'. subst r st'. unfold revertAll.
  rewrite alloc_cells_new. split; [reflexivity|]. split.
  - intros k _ Hk. now apply lookup_None_keys.
  - intros r0 Hr0. split; [|now apply alloc_cells_old].
    unfold allocated in Hr0. simpl. lia.
Qed.

Lemma revertAll_spec_witness :
  let st := {| cells := fun r => match r with
                                 | 0 => ofConfig [("N8N_PORT", "9000"); ("EXTRA", "1")]
                                 | _ => ofConfig [("N8N_PORT", "5678")]
                                 end;
               next := 2 |} in
  In "EXTRA" (keys (cells st 0)) /\
  ~ In "EXTRA" (keys (cells st 1)) /\
  allocated st 1 /\
  lookup "EXTRA" (cells (snd (revertAll 0 1 st)) (fst (revertAll 0 1 st))) = None /\
  fst (revertAll 0 1 st) <> 1 /\
  cells (snd (revertAll 0 1 st)) 1 = cells st 1.
Proof.
  intros st.
  assert (H1 : In "EXTRA" (keys (cells st 0))) by (simpl; auto).
  assert (H2 : ~ In "EXTRA" (keys (cells st 1))) by (simpl; intuition discriminate).
  assert (H3 : allocated st 1) by (unfold allocated; simpl; lia).
  refine (conj H1 (conj H2 (conj H3 (conj _ _)))).
  - exact (proj1 (proj2 (revertAll_spec 0 1 st)) _ H1 H2).
  - exact (proj2 (proj2 (revertAll_spec 0 1 st)) 1 H3).
Defined.

Lemma revertField_other (field : string) (config defaults : ref) (st : Store)
  (k : string) :
  allocated st defaults ->
  k <> field ->
  lookup k (cells (snd (revertField field config defaults st))
                  (fst (revertField field config defaults st)))
  = lookup k (cells st config).
Proof.
  intros Hd Hk. rewrite (revertField_result _ _ _ _ Hd).
  destruct (hasProperty field (cells st defaults)).
  - now apply lookup_setProperty_other.
  - now apply lookup_deleteProp_other.
Qed.

Lemma revertField_proto_copy (config defaults : ref) (st : Store) :
  allocated st defaults ->
  ~ In "__proto__" (keys (cells st config)) ->
  cells (snd (revertField "__proto__" config defaults st))
        (fst (revertField "__proto__" config defaults st))
  = cells st config.
Proof.
  intros Hd Hk. rewrite (revertField_result _ _ _ _ Hd). unfold hasProperty.
  replace (inheritsKey "__proto__") with true by reflexivity.
  rewrite orb_true_r. now apply setProperty_proto.
Qed.

(** After [revertField], the field reads in the result as it reads in
    the defaults, the case of a [__proto__] that only the defaults have
    apart. *)
Lemma revertField_reads (field : string) (config defaults : ref) (st : Store) :
  allocated st defaults ->
  (field = "__proto__" ->
   In field (keys (cells st defaults)) ->
   In field (keys (cells st config))) ->
  getOrEmpty field (cells (snd (revertField field config defaults st))
                          (fst (revertField field config defaults st)))
  = getOrEmpty field (cells st defaults).
Proof.
  intros Hd Hp. rewrite (revertField_result _ _ _ _ Hd).
  unfold hasProperty, hasKey, readProperty, getProperty at 1.
  destruct (lookup field (cells st defaults)) as [v|] eqn:Hv; cbn [orb].
  - apply getOrEmpty_lookup. rewrite Hv. apply lookup_setProperty_same.
    intros Hf. apply Hp; [exact Hf|].
    apply hasKey_keys. unfold hasKey. now rewrite Hv.
  - destruct (inheritsKey field) eqn:Hf.
    + unfold getOrEmpty at 2. unfold getProperty. rewrite Hv, Hf.
      unfold setProperty.
      assert (Hset : getOrEmpty field (assign field FromPrototype (cells st config))
                     = FromPrototype).
      { unfold getOrEmpty, getProperty. now rewrite lookup_assign_same, Hf. }
      destruct (hasKey field (cells st config)) eqn:E; [exact Hset|].
      destruct (field =? "__proto__")%string; [|exact Hset].
      unfold getOrEmpty, getProperty. unfold hasKey in E.
      destruct (lookup field (cells st config)); [discriminate E|].
      now rewrite Hf.
    + apply getOrEmpty_lookup. rewrite Hv. apply lookup_deleteProp_same.
Qed.

(** X30. [revertField] returns a new object; every key other than the
    field reads in it as it did in the configuration, and no object that
    existed before the call is changed. For a field that is no key of
    [Object.prototype], the field has the value the defaults give it, or
    is absent when the defaults have no such key. For a key of
    [Object.prototype] that the defaults lack, the result holds what was
    read from [Object.prototype]; and [__proto__] cannot be created by
    the assignment, so that with no such property in the configuration
    the result is a plain copy. A diff of the result against the same
    defaults has no entry for the field, the case of a [__proto__] that
    only the defaults have apart. *)
Theorem revertField_spec :
  forall (localeCompare : string -> string -> Z) (field : string)
         (config defaults : ref) (st : Store),
    allocated st config ->
    allocated st defaults ->
    let r := fst (revertField field config defaults st) in
    let st' := snd (revertField field config defaults st) in
    (In field (keys (cells st defaults)) ->
     (field = "__proto__" -> In field (keys (cells st config))) ->
     lookup field (cells st' r) = lookup field (cells st defaults))
    /\ (~ In field (keys (cells st defaults)) ->
        OrdinaryKey field ->
        ~ In field (keys (cells st' r)))
    /\ (~ In field (keys (cells st defaults)) ->
        inheritsKey field = true ->
        (field = "__proto__" -> In field (keys (cells st config))) ->
        lookup field (cells st' r) = Some FromPrototype)
    /\ (field = "__proto__" ->
        ~ In field (keys (cells st config)) ->
        cells st' r = cells st config)
    /\ (forall k, k <> field -> lookup k (cells st' r) = lookup k (cells st config))
    /\ (forall r0, allocated st r0 -> r <> r0 /\ cells st' r0 = cells st r0)
    /\ ((field = "__proto__" ->
         In field (keys (cells st defaults)) ->
         In field (keys (cells st config))) ->
        ~ In field (map diff_field
                        (entries (computeDiff localeCompare
                                              (cells st' r) (cells st' defaults))))).
Proof.
  intros localeCompare field config defaults st Hc Hd r st'.
  assert (Hres := revertField_result field config defaults st Hd).
  fold r st' in Hres.
  assert (Hown : forall v, lookup field (cells st defaults) = Some v ->
                           (field = "__proto__" -> In field (keys (cells st config))) ->
                           lookup field (cells st' r) = Some v).
  { intros v Hv Hp. rewrite Hres. unfold hasProperty, hasKey, readProperty, getProperty.
    rewrite Hv. cbn [orb]. now apply lookup_setProperty_same. }
  assert (Hplain : lookup field (cells st defaults) = None ->
                   OrdinaryKey field ->
                   lookup field (cells st' r) = None).
  { intros Hv Hf. rewrite Hres. unfold hasProperty, hasKey. rewrite Hv, Hf.
    cbn [orb]. apply lookup_deleteProp_same. }
  assert (Hmember : lookup field (cells st defaults) = None ->
                    inheritsKey field = true ->
                    cells st' r = setProperty field FromPrototype (cells st config)).
  { intros Hv Hf. rewrite Hres.
    unfold hasProperty, hasKey, readProperty, getProperty. rewrite Hv, Hf.
    reflexivity. }
  split; [|split; [|split; [|split; [|split; [|split]]]]].
  - intros Hin Hp. destruct (In_keys_lookup _ _ Hin) as [v Hv].
    rewrite Hv. now apply Hown.
  - intros Hk Hf. apply lookup_None_keys. apply Hplain; [|exact Hf].
    now apply lookup_None_keys.
  - intros Hk Hf Hp. apply lookup_None_keys in Hk.
    rewrite (Hmember Hk Hf). now apply lookup_setProperty_same.
  - intros -> Hk. subst r st'. now apply revertField_proto_copy.
  - intros k Hk. subst r st'. now apply revertField_other.
  - intros r0 Hr0. split; [|now apply revertField_frame].
    subst r. rewrite revertField_fresh. unfold allocated in Hr0. lia.
  - intros Hp Hin. apply computeDiff_fields in Hin as [_ Hne]. apply Hne.
    unfold valueOf.
    assert (Hdef : cells st' defaults = cells st defaults)
      by (subst st'; now apply revertField_frame).
    rewrite Hdef. subst r st'. now apply revertField_reads.
Qed.

(** C6. Reverting a field that the defaults lack and whose name is the
    name of a member of [Object.prototype]: the field is not removed,
    the result holds under it what was read from [Object.prototype].
    And reverting [__proto__] to a default that is set: the assignment
    stores nothing, the result has no such property and the diff against
    the defaults still has an entry for the field. *)
Theorem revertField_inherited_key :
  forall (localeCompare : string -> string -> Z),
    let st := {| cells := fun r => match r with
                                   | 0 => ofConfig [("A", "x")]
                                   | 1 => ofConfig []
                                   | 2 => ofConfig [("A", "x"); ("valueOf", "v")]
                                   | _ => [("__proto__", Str "p")]
                                   end;
                 next := 4 |} in
    (~ In "valueOf" (keys (cells st 1)) /\
     cells (snd (revertField "valueOf" 0 1 st)) (fst (revertField "valueOf" 0 1 st))
     = [("A", Str "x"); ("valueOf", FromPrototype)] /\
     cells (snd (revertField "valueOf" 2 1 st)) (fst (revertField "valueOf" 2 1 st))
     = [("A", Str "x"); ("valueOf", FromPrototype)])
    /\
    (In "__proto__" (keys (cells st 3)) /\
     cells (snd (revertField "__proto__" 0 3 st)) (fst (revertField "__proto__" 0 3 st))
     = [("A", Str "x")] /\
     In {| diff_field := "__proto__"; diff_category := "unknown";
           diff_type := modified;
           currentValue := FromPrototype; defaultValue := Str "p" |}
        (entries (computeDiff localeCompare
                    (cells (snd (revertField "__proto__" 0 3 st))
                           (fst (revertField "__proto__" 0 3 st)))
                    (cells (snd (revertField "__proto__" 0 3 st)) 3)))).
Proof.
  intros localeCompare st. split.
  - split; [|split; reflexivity]. intros [].
  - split; [now left|]. split; [reflexivity|].
    rewrite computeDiff_entries.
    apply (Permutation_in _ (Permutation_sym (sortBy_Permutation _ _))).
    vm_compute. right. now left.
Qed.

Lemma revertField_spec_witness :
  let st := {| cells := fun r => match r with
                                 | 0 => ofConfig [("N8N_PORT", "9000"); ("EXTRA", "1")]
                                 | _ => ofConfig [("N8N_PORT", "5678")]
                                 end;
               next := 2 |} in
  allocated st 0 /\
  allocated st 1 /\
  In "N8N_PORT" (keys (cells st 1)) /\
  ~ In "EXTRA" (keys (cells st 1)) /\
  OrdinaryKey "EXTRA" /\
  "EXTRA" <> "N8N_PORT" /\
  lookup "N8N_PORT"
         (cells (snd (revertField "N8N_PORT" 0 1 st)) (fst (revertField "N8N_PORT" 0 1 st)))
  = Some (Str "5678") /\
  lookup "EXTRA"
         (cells (snd (revertField "N8N_PORT" 0 1 st)) (fst (revertField "N8N_PORT" 0 1 st)))
  = Some (Str "1") /\
  ~ In "EXTRA"
       (keys (cells (snd (revertField "EXTRA" 0 1 st)) (fst (revertField "EXTRA" 0 1 st)))) /\
  cells (snd (revertField "N8N_PORT" 0 1 st)) 0 = cells st 0.
Proof.
  intros st.
  assert (H0 : allocated st 0) by (unfold allocated; simpl; lia).
  assert (H1 : allocated st 1) by (unfold allocated; simpl; lia).
  assert (H2 : In "N8N_PORT" (keys (cells st 1))) by (simpl; auto).
  assert (H3 : ~ In "EXTRA" (keys (cells st 1))) by (simpl; intuition discriminate).
  assert (H4 : "EXTRA" <> "N8N_PORT") by discriminate.
  assert (H5 : OrdinaryKey "EXTRA") by reflexivity.
  assert (H6 : "N8N_PORT" = "__proto__" -> In "N8N_PORT" (keys (cells st 0)))
    by discriminate.
  pose proof (revertField_spec codeUnitCompare "N8N_PORT" 0 1 st H0 H1) as Hport.
  pose proof (revertField_spec codeUnitCompare "EXTRA" 0 1 st H0 H1) as Hextra.
  refine (conj H0 (conj H1 (conj H2 (conj H3 (conj H5 (conj H4
            (conj _ (conj _ (conj _ _))))))))).
  - exact (proj1 Hport H2 H6).
  - exact (proj1 (proj2 (proj2 (proj2 (proj2 Hport)))) "EXTRA" H4).
  - exact (proj1 (proj2 Hextra) H3 H5).
  - exact (proj2 (proj1 (proj2 (proj2 (proj2 (proj2 (proj2 Hport))))) 0 H0)).
Defined.

(* ====================================================================== *)
(** ** The output generator *)
(* ====================================================================== *)

Lemma append_nil_r (s : string) : (s ++ "")%string = s.
Proof. induction s as [|c s IH]; simpl; [reflexivity | now rewrite IH]. Qed.

Lemma append_assoc (a b c : string) : ((a ++ b) ++ c = a ++ b ++ c)%string.
Proof. induction a as [|x a IH]; simpl; [reflexivity | now rewrite IH]. Qed.

Lemma startsWith_spec (lit s : string) :
  startsWith lit s = true <-> exists after, s = (lit ++ after)%string.
Proof.
  revert s. induction lit as [|a lit IH]; intros s; simpl.
  - split; [intros _; now exists s | reflexivity].
  - destruct s as [|b s].
    + split; [discriminate | intros [after H]; discriminate H].
    + rewrite andb_true_iff, IH. split.
      * intros [Hab [after ->]]. apply Ascii.eqb_eq in Hab. subst. now exists after.
      * intros [after [= -> ->]]. split; [apply Ascii.eqb_refl | now exists after].
Qed.

Lemma searchFrom_spec (lit s : string) :
  searchFrom lit s = true <->
  exists before after, s = (before ++ lit ++ after)%string.
Proof.
  induction s as [|c s IH].
  - simpl. rewrite orb_false_r, startsWith_spec. split.
    + intros [after H]. now exists "", after.
    + intros [before [after H]]. destruct before; [now exists after | discriminate H].
  - cbn [searchFrom]. rewrite orb_true_iff, startsWith_spec, IH. split.
    + intros [[after H]|[before [after H]]].
      * now exists "", after.
      * exists (String c before), after. simpl. now rewrite H.
    + intros [before [after H]]. destruct before as [|c' before].
      * left. now exists after.
      * right. injection H as _ H. now exists before, after.
Qed.



Lemma maskSensitiveValues_keys (es : list (string * string)) (mask : bool) :
  keys (maskSensitiveValues es mask) = keys es.
Proof.
  unfold maskSensitiveValues, keys. destruct mask; simpl; [|reflexivity].
  rewrite map_map. apply map_ext. intros [k v]. now destruct (_ && _).
Qed.

Lemma outputEntries_In (config : Config) (mask : bool) (k v : string) :
  In (k, v) (outputEntries config mask) <->
  exists v0,
    In (k, v0) config /\ v0 <> "" /\
    v = if mask && isSensitiveField k then SECRET_PLACEHOLDER else v0.
Proof.
  unfold outputEntries, maskSensitiveValues. destruct mask; cbn [negb andb].
  - rewrite in_map_iff. split.
    + intros [[k0 v0] [E H]]. apply filter_In in H as [Hin Hne].
      apply negb_true_iff in Hne. rewrite Hne in E. cbn [negb] in E.
      rewrite andb_true_r in E. apply string_eqb_false in Hne. exists v0.
      destruct (isSensitiveField k0) eqn:S; injection E as <- <-; rewrite S; auto.
    + intros [v0 [Hin [Hne ->]]]. exists (k, v0). split.
      * apply string_eqb_false in Hne. rewrite Hne, andb_true_r.
        now destruct (isSensitiveField k).
      * apply filter_In. split; [exact Hin|].
        now apply negb_true_iff, string_eqb_false.
  - rewrite filter_In, negb_true_iff, string_eqb_false. split.
    + intros [Hin Hne]. now exists v.
    + intros [v0 [Hin [Hne ->]]]. auto.
Qed.




















Lemma generateDockerComposeOutput_sections (timestamp : string) (config : Config)
  (entries : list (string * string)) (options : GeneratorOptions) :
  let comments := flag (includeComments options) in
  generateDockerComposeOutput timestamp config entries options =
    (n8nServiceBlock
       (generateHeader timestamp "docker-compose" (wizardVersion options) comments)
       (orElse (composeVersion options) "3.8")
       (n8nServiceCommentText comments)
       (orElse (lookup "N8N_PORT" config) "5678")
       (join newline (map composeItem entries))
     ++ (if usesPostgres config
         then postgresServiceBlock
                (postgresCommentText comments)
                (orElse (lookup "DB_POSTGRESDB_USER" config) "postgres")
                (orElse (lookup "DB_POSTGRESDB_PASSWORD" config) "password")
                (orElse (lookup "DB_POSTGRESDB_DATABASE" config) "n8n")
         else "")
     ++ (if usesQueue config then redisServiceBlock (redisCommentText comments) else "")
     ++ volumesSection (volumesCommentText comments)
     ++ (if usesPostgres config then postgresVolume else "")
     ++ (if usesQueue config then redisVolume else ""))%string.
Proof.
  unfold generateDockerComposeOutput, flag. cbv zeta.
  destruct (usesPostgres config), (usesQueue config);
    cbn [append]; rewrite ?append_assoc, ?append_nil_r; reflexivity.
Qed.



(** C10. A bare format string stands for the options object holding only
    that format, which in turn behaves as the one that spells out every
    default; and a format that is none of the four known ones yields the
    empty string, however it is passed. *)
Theorem generateOutput_format_string :
  forall (timestamp : string) (config : Config) (f : OutputFormat),
    generateOutput timestamp config (inl f)
    = generateOutput timestamp config
        (inr {| format := f; composeVersion := None; maskSecrets := None;
                includeComments := None; wizardVersion := None |})
    /\ generateOutput timestamp config (inl f)
       = generateOutput timestamp config
           (inr {| format := f; composeVersion := Some "3.8";
                   maskSecrets := Some false; includeComments := Some false;
                   wizardVersion := Some "1.0.0" |})
    /\ (~ RecognizedFormat f ->
        generateOutput timestamp config (inl f) = "" /\
        forall options,
          format options = f -> generateOutput timestamp config (inr options) = "").
Proof.
  intros timestamp config f. split; [reflexivity|]. split; [reflexivity|].
  intros Hf. unfold RecognizedFormat in Hf.
  assert (Hnone : forall options,
             format options = f -> generateOutput timestamp config (inr options) = "").
  { intros options E. unfold generateOutput. rewrite E.
    destruct (String.eqb_spec f "env"); [tauto|].
    destruct (String.eqb_spec f "docker-compose"); [tauto|].
    destruct (String.eqb_spec f "docker-run"); [tauto|].
    destruct (String.eqb_spec f "kubernetes"); [tauto|].
    reflexivity. }
  split; [|exact Hnone]. exact (Hnone (formatOnly f) eq_refl).
Qed.

Lemma generateOutput_format_string_witness :
  ~ RecognizedFormat "yaml" /\
  generateOutput "t" [("N8N_PORT", "9000")] (inl "yaml") = "".
Proof.
  assert (H : ~ RecognizedFormat "yaml").
  { unfold RecognizedFormat. intuition discriminate. }
  split; [exact H|].
  exact (proj1 (proj2 (proj2 (generateOutput_format_string
                                "t" [("N8N_PORT", "9000")] "yaml")) H)).
Defined.

(* ====================================================================== *)
(** * Further properties of the code *)
(* ====================================================================== *)

(* ====================================================================== *)
(** ** More on the validator *)
(* ====================================================================== *)

Lemma tables_disjoint_from_boolean :
  forallb (fun f => negb (includes REQUIRED_FIELDS f)
                    && negb (includes NUMERIC_FIELDS f)
                    && negb (hasKey f ENUM_VALUES)
                    && negb (includes POSTGRES_REQUIRED_FIELDS f)
                    && negb (includes REDIS_REQUIRED_FIELDS f))
          BOOLEAN_FIELDS = true.
Proof. vm_compute. reflexivity. Qed.

(** A boolean field carries the boolean rule and no other. *)
Lemma fieldRules_boolean (f : string) :
  In f BOOLEAN_FIELDS -> fieldRules f = [createBooleanRule f].
Proof.
  intros Hf. pose proof tables_disjoint_from_boolean as H.
  rewrite forallb_forall in H. specialize (H f Hf).
  repeat (apply andb_true_iff in H as [H ?]).
  repeat match goal with
         | E : negb _ = true |- _ => apply negb_true_iff in E
         end.
  rewrite fieldRules_app.
  apply includes_In in Hf. rewrite Hf.
  unfold hasKey in *. destruct (lookup f ENUM_VALUES); [discriminate|].
  repeat match goal with
         | E : includes _ f = false |- _ => rewrite E
         end.
  reflexivity.
Qed.

(** X1. A field of the boolean set validates without error exactly for
    the empty string and the literals [true] and [false]; any other
    value, whatever its letter case, gets the one boolean error and
    nothing else. *)
Theorem validateField_boolean_rule :
  forall (field value : string) (config : Config) (cache : RulesCache),
    cache_ok cache ->
    In field BOOLEAN_FIELDS ->
    let errs := fst (validateField field value config cache) in
    (value = "" \/ value = "true" \/ value = "false" -> errs = Returns [])
    /\ (value <> "" -> value <> "true" -> value <> "false" ->
        errs = Returns [mkError field (field ++ " must be 'true' or 'false'") error]).
Proof.
  intros field value config cache Hc Hf errs. subst errs.
  assert (Hord : OrdinaryKey field).
  { apply rule_tables_ordinary. rewrite !in_app_iff. auto. }
  destruct (validateField_ok field value config cache Hc Hord) as [-> _].
  unfold fieldErrors. rewrite (fieldRules_boolean field Hf).
  cbn [filter map rule_validate rule_message createBooleanRule].
  split.
  - intros [->|[->| ->]]; reflexivity.
  - intros H0 H1 H2.
    apply string_eqb_false in H0, H1, H2. now rewrite H0, H1, H2.
Qed.

Lemma validateField_boolean_rule_witness :
  cache_ok [] /\
  In "N8N_SECURE_COOKIE" BOOLEAN_FIELDS /\
  "True" <> "" /\ "True" <> "true" /\ "True" <> "false" /\
  fst (validateField "N8N_SECURE_COOKIE" "True" [] [])
  = Returns [mkError "N8N_SECURE_COOKIE"
                     "N8N_SECURE_COOKIE must be 'true' or 'false'" error].
Proof.
  assert (H : In "N8N_SECURE_COOKIE" BOOLEAN_FIELDS) by (simpl; tauto).
  assert (H0 : "True" <> "") by discriminate.
  assert (H1 : "True" <> "true") by discriminate.
  assert (H2 : "True" <> "false") by discriminate.
  refine (conj cache_ok_nil (conj H (conj H0 (conj H1 (conj H2 _))))).
  exact (proj2 (validateField_boolean_rule "N8N_SECURE_COOKIE" "True" [] []
                  cache_ok_nil H) H0 H1 H2).
Defined.

(** X2. A field of the enum table validates without an enum error
    exactly for the empty string and the members of its list of allowed
    values; any other value gets exactly one enum error, whose message
    lists the allowed values. *)
Theorem validateField_enum_rule :
  forall (field value : string) (allowed : list string)
         (config : Config) (cache : RulesCache),
    cache_ok cache ->
    lookup field ENUM_VALUES = Some allowed ->
    let message := (field ++ " must be one of: " ++ join ", " allowed)%string in
    exists errs,
    fst (validateField field value config cache) = Returns errs /\
    let enumErrors := errorsSaying message errs in
    (value = "" \/ In value allowed -> enumErrors = [])
    /\ (value <> "" -> ~ In value allowed ->
        enumErrors = [mkError field message error]).
Proof.
  intros field value allowed config cache Hc Henum message.
  subst message.
  assert (Hord : OrdinaryKey field).
  { apply rule_tables_ordinary. rewrite !in_app_iff. do 3 right. left.
    apply hasKey_keys. unfold hasKey. now rewrite Henum. }
  exists (fieldErrors field value config).
  split; [exact (proj1 (validateField_ok field value config cache Hc Hord))|].
  cbv zeta. unfold fieldErrors. rewrite errorsSaying_map, fieldRules_app, Henum.
  rewrite !filter_app, !filter_ruleIf.
  cbn [filter rule_message rule_validate createRequiredRule createNumericRule
       createBooleanRule enumRule createPostgresDependencyRule
       createRedisDependencyRule].
  unfold postgresMessage, redisMessage.
  rewrite !append_cancel_l, String.eqb_refl.
  replace (" is required" =? " must be one of: " ++ join ", " allowed)%string
    with false by reflexivity.
  replace (" must be a valid number" =? " must be one of: " ++ join ", " allowed)%string
    with false by reflexivity.
  replace (" must be 'true' or 'false'" =? " must be one of: " ++ join ", " allowed)%string
    with false by reflexivity.
  replace (" is required when using PostgreSQL database"
           =? " must be one of: " ++ join ", " allowed)%string
    with false by reflexivity.
  replace (" is required when using Queue mode"
           =? " must be one of: " ++ join ", " allowed)%string
    with false by reflexivity.
  rewrite !andb_false_r, andb_true_r. cbn [app].
  split.
  - intros [->|Hin]; [reflexivity|].
    apply includes_In in Hin. rewrite Hin. now destruct (value =? "")%string.
  - intros Hne Hnot. apply string_eqb_false in Hne. rewrite Hne.
    destruct (includes allowed value) eqn:E; [|reflexivity].
    apply includes_In in E. contradiction.
Qed.

Lemma validateField_enum_rule_witness :
  cache_ok [] /\
  lookup "DB_TYPE" ENUM_VALUES = Some ["sqlite"; "postgresdb"] /\
  "mysql" <> "" /\
  ~ In "mysql" ["sqlite"; "postgresdb"] /\
  exists errs,
    fst (validateField "DB_TYPE" "mysql" [] []) = Returns errs /\
    errorsSaying "DB_TYPE must be one of: sqlite, postgresdb" errs
    = [mkError "DB_TYPE" "DB_TYPE must be one of: sqlite, postgresdb" error].
Proof.
  assert (H : lookup "DB_TYPE" ENUM_VALUES = Some ["sqlite"; "postgresdb"])
    by reflexivity.
  assert (H0 : "mysql" <> "") by discriminate.
  assert (H1 : ~ In "mysql" ["sqlite"; "postgresdb"])
    by (simpl; intuition discriminate).
  refine (conj cache_ok_nil (conj H (conj H0 (conj H1 _)))).
  destruct (validateField_enum_rule "DB_TYPE" "mysql" _ [] [] cache_ok_nil H)
    as (errs & He & Hrule).
  exists errs. split; [exact He | exact (proj2 Hrule H0 H1)].
Defined.

Lemma usesQueue_false (config : Config) :
  lookup "EXECUTIONS_MODE" config <> Some "queue" -> usesQueue config = false.
Proof.
  intros H. destruct (usesQueue config) eqn:E; [|reflexivity].
  apply usesQueue_spec in E. contradiction.
Qed.

Lemma hasErrorFor_app (f : string) (a b : list ValidationError) :
  hasErrorFor f (a ++ b) = hasErrorFor f a || hasErrorFor f b.
Proof. apply existsb_app. Qed.

Lemma hasErrorFor_additions_other (message : string -> string)
  (fields : list string) (config : Config) (errs : list ValidationError)
  (f : string) :
  ~ In f fields ->
  hasErrorFor f (dependencyAdditions message fields config errs) = false.
Proof.
  intros Hf. unfold hasErrorFor.
  destruct (existsb _ _) eqn:E; [|reflexivity].
  apply existsb_exists in E as [e [He Hfe]].
  apply dependencyAdditions_In in He as [g [Hg ->]].
  cbn [err_field] in Hfe. apply andb_true_iff in Hfe as [Hfe _].
  apply String.eqb_eq in Hfe. subst g. contradiction.
Qed.

Lemma errorsFor_additions_other (message : string -> string)
  (fields : list string) (config : Config) (errs : list ValidationError)
  (f : string) :
  ~ In f fields ->
  errorsFor f (dependencyAdditions message fields config errs) = [].
Proof.
  intros Hf. apply filter_none. intros e He.
  apply dependencyAdditions_In in He as [g [Hg ->]]. cbn [err_field].
  apply string_eqb_false. intros ->. contradiction.
Qed.

Lemma redis_not_postgres (f : string) :
  In f REDIS_REQUIRED_FIELDS -> ~ In f POSTGRES_REQUIRED_FIELDS.
Proof.
  unfold REDIS_REQUIRED_FIELDS, POSTGRES_REQUIRED_FIELDS. simpl.
  intuition (subst; discriminate).
Qed.

(** The errors a Redis-required field ends up with. *)
Lemma errorsFor_redis_field (config : Config) (f : string) :
  usesQueue config = true ->
  In f REDIS_REQUIRED_FIELDS ->
  errorsFor f (configErrors config) =
    errorsFor f (perFieldErrors config) ++
    (if isBlank (lookup f config) && negb (hasErrorFor f (perFieldErrors config))
     then [mkError f (redisMessage f) error]
     else []).
Proof.
  intros Hq Hf. pose proof (redis_not_postgres f Hf) as Hnpg.
  rewrite configErrors_shape. cbv zeta. rewrite Hq.
  rewrite !errorsFor_app.
  rewrite (errorsFor_additions _ _ _ _ f REDIS_REQUIRED_FIELDS_NoDup).
  assert (Hin : existsb (fun g => (g =? f)%string) REDIS_REQUIRED_FIELDS = true)
    by (apply existsb_exists; exists f; split; [exact Hf | apply String.eqb_refl]).
  rewrite Hin. cbn [andb].
  change (existsb (fun e => (err_field e =? f)%string && Severity_eqb (err_type e) error))
    with (hasErrorFor f).
  destruct (usesPostgres config).
  - rewrite (errorsFor_additions_other _ _ _ _ f Hnpg).
    rewrite hasErrorFor_app, (hasErrorFor_additions_other _ _ _ _ f Hnpg).
    rewrite ?orb_false_r, ?app_nil_r. reflexivity.
  - cbn [errorsFor filter]. rewrite ?app_nil_r. reflexivity.
Qed.

Lemma saysRedis_redisMessage (f : string) : saysRedis (redisMessage f) = true.
Proof. apply matchAtEnd_append. Qed.

(** No rule other than the Redis dependency rule words its message as
    one: checked over the rule tables. *)
Lemma other_rules_do_not_say_redis :
  forallb (fun fn => negb (saysRedis (rule_message (createRequiredRule fn))))
          REQUIRED_FIELDS = true /\
  forallb (fun fn => negb (saysRedis (rule_message (createNumericRule fn))))
          NUMERIC_FIELDS = true /\
  forallb (fun fn => negb (saysRedis (rule_message (createBooleanRule fn))))
          BOOLEAN_FIELDS = true /\
  forallb (fun '(fn, allowed) =>
             negb (saysRedis (rule_message (enumRule fn allowed))))
          ENUM_VALUES = true /\
  forallb (fun fn => negb (saysRedis (rule_message (createPostgresDependencyRule fn))))
          POSTGRES_REQUIRED_FIELDS = true.
Proof. repeat split; vm_compute; reflexivity. Qed.

Lemma failing_rule_says_redis (config : Config) (fn v : string)
  (r : FieldValidationRule) :
  usesQueue config = false ->
  In r (fieldRules fn) ->
  rule_validate r (Some v) config = false ->
  saysRedis (rule_message r) = false.
Proof.
  intros Hq Hr Hfail.
  destruct other_rules_do_not_say_redis as (Hreq & Hnum & Hbool & Henum & Hpg).
  rewrite forallb_forall in Hreq, Hnum, Hbool, Henum, Hpg.
  apply fieldRules_In in Hr.
  destruct Hr as [[H ->]|[[H ->]|[[H ->]|[[allowed [H ->]]|[[H ->]|[H ->]]]]]].
  - apply negb_true_iff. now apply Hreq.
  - apply negb_true_iff. now apply Hnum.
  - apply negb_true_iff. now apply Hbool.
  - apply negb_true_iff. exact (Henum (fn, allowed) H).
  - apply negb_true_iff. now apply Hpg.
  - simpl in Hfail. rewrite Hq in Hfail. discriminate.
Qed.

(** X3. Let no key of the configuration be a key of
    [Object.prototype]. Then [validateConfig] returns, and with
    [EXECUTIONS_MODE] equal to [queue] each of the two Redis-required
    fields ends up with the errors per-field validation gave it plus one
    dependency error, appended exactly when the field is absent or blank
    and no error for it was there already; a missing field always has an
    error and makes the result invalid. With any other [EXECUTIONS_MODE]
    no error reads as a Redis dependency error. *)
Theorem validateConfig_redis_dependencies :
  forall (config : Config) (cache : RulesCache),
    cache_ok cache ->
    OrdinaryKeys config ->
    exists result,
    fst (validateConfig config cache) = Returns result /\
    (lookup "EXECUTIONS_MODE" config = Some "queue" ->
     forall f, In f REDIS_REQUIRED_FIELDS ->
       errorsFor f (errors result) =
         errorsFor f (perFieldErrors config) ++
         (if isBlank (lookup f config) && negb (hasErrorFor f (perFieldErrors config))
          then [mkError f (redisMessage f) error]
          else [])
       /\ (AbsentOrBlank f config ->
           (exists e, In e (errors result) /\ err_field e = f) /\
           valid result = false))
    /\ (lookup "EXECUTIONS_MODE" config <> Some "queue" ->
        forall e, In e (errors result) ->
        forall f, err_message e <> redisMessage f).
Proof.
  intros config cache Hc Hord.
  destruct (validateConfig_ok config cache Hc Hord) as [Hres _].
  eexists. split; [exact Hres|]. cbn [errors valid].
  split.
  - intros Hmode f Hf. apply usesQueue_spec in Hmode.
    pose proof (errorsFor_redis_field config f Hmode Hf) as Hshape.
    split; [exact Hshape|].
    intros Hblank. apply isBlank_spec in Hblank. rewrite Hblank in Hshape.
    assert (Hex : exists e, In e (configErrors config) /\ err_field e = f).
    { destruct (hasErrorFor f (perFieldErrors config)) eqn:Hhas.
      - apply hasErrorFor_exists in Hhas as [e [He Hfe]].
        exists e. split; [now apply perFieldErrors_kept | exact Hfe].
      - exists (mkError f (redisMessage f) error). split; [|reflexivity].
        apply (errorsFor_In f). rewrite Hshape. apply in_or_app. right. now left. }
    split; [exact Hex|].
    destruct Hex as [e [He _]]. exact (valid_false_of_error _ _ He).
  - intros Hmode e He f Hmsg. apply usesQueue_false in Hmode.
    pose proof (saysRedis_redisMessage f) as Hsays. rewrite <- Hmsg in Hsays.
    apply configErrors_In in He as [He|[[_ [g [Hg ->]]]|[E _]]].
    + apply perFieldErrors_In in He as (k & v & r & _ & Hr & Hfail & ->).
      cbn [err_message] in Hsays.
      rewrite (failing_rule_says_redis config k v r Hmode Hr Hfail) in Hsays.
      discriminate.
    + cbn [err_message] in Hsays.
      destruct other_rules_do_not_say_redis as (_ & _ & _ & _ & Hpg).
      rewrite forallb_forall in Hpg. apply Hpg in Hg.
      cbn [rule_message createPostgresDependencyRule] in Hg.
      rewrite Hsays in Hg. discriminate.
    + congruence.
Qed.

Lemma validateConfig_redis_dependencies_witness :
  let config := [("EXECUTIONS_MODE", "queue"); ("QUEUE_BULL_REDIS_PORT", "6379")] in
  cache_ok [] /\
  OrdinaryKeys config /\
  lookup "EXECUTIONS_MODE" config = Some "queue" /\
  In "QUEUE_BULL_REDIS_HOST" REDIS_REQUIRED_FIELDS /\
  AbsentOrBlank "QUEUE_BULL_REDIS_HOST" config /\
  exists result,
    fst (validateConfig config []) = Returns result /\ valid result = false.
Proof.
  intros config.
  assert (H0 : OrdinaryKeys config).
  { intros k [<-|[<-|[]]]; reflexivity. }
  assert (H1 : lookup "EXECUTIONS_MODE" config = Some "queue") by reflexivity.
  assert (H2 : In "QUEUE_BULL_REDIS_HOST" REDIS_REQUIRED_FIELDS) by (simpl; auto).
  assert (H3 : AbsentOrBlank "QUEUE_BULL_REDIS_HOST" config) by (left; reflexivity).
  refine (conj cache_ok_nil (conj H0 (conj H1 (conj H2 (conj H3 _))))).
  destruct (validateConfig_redis_dependencies config [] cache_ok_nil H0)
    as (result & Hres & Hq & _).
  exists result. split; [exact Hres|].
  exact (proj2 (proj2 (Hq H1 _ H2) H3)).
Defined.

Lemma OrdinaryKeys_hasKey {V : Type} (o : Obj V) (f : string) :
  OrdinaryKeys o -> inheritsKey f = true -> hasKey f o = false.
Proof.
  intros H Hf. destruct (hasKey f o) eqn:E; [|reflexivity].
  apply hasKey_keys, H in E. unfold OrdinaryKey in E. congruence.
Qed.

Lemma OrdinaryKeys_assign {V : Type} (o : Obj V) (f : string) (v : V) :
  OrdinaryKeys o -> OrdinaryKey f -> OrdinaryKeys (assign f v o).
Proof.
  intros H Hf k Hk.
  destruct (string_dec k f) as [->|Hne]; [exact Hf|].
  apply H, hasKey_keys. apply hasKey_keys in Hk. unfold hasKey in *.
  now rewrite lookup_assign_other in Hk.
Qed.

(** X6. Let the cache hold no rules under a key of [Object.prototype],
    as is the case for every cache filled by [getFieldRules]. Then
    [getFieldRules] ends as [buildFieldRules] does, whatever the cache
    holds: with a [TypeError] for a key of [Object.prototype] and with
    the rules of the tables for every other field. Rules that are
    returned are then in the cache, an exception leaves the cache as it
    was; the same question gets the same answer again without a change
    of the cache; no other field's entry is touched; clearing the cache
    changes no answer. *)
Theorem getFieldRules_cache_transparent :
  forall (f : string) (cache : RulesCache),
    cache_ok cache ->
    OrdinaryKeys cache ->
    let outcome := fst (getFieldRules f cache) in
    let cache' := snd (getFieldRules f cache) in
    outcome = buildFieldRules f
    /\ outcome = (if inheritsKey f then Throws TypeError else Returns (fieldRules f))
    /\ cache_ok cache'
    /\ OrdinaryKeys cache'
    /\ (forall rules, outcome = Returns rules -> lookup f cache' = Some rules)
    /\ (forall e, outcome = Throws e -> cache' = cache)
    /\ getFieldRules f cache' = (outcome, cache')
    /\ (forall g, g <> f -> lookup g cache' = lookup g cache)
    /\ fst (getFieldRules f (clearFieldRulesCache cache')) = outcome.
Proof.
  intros f cache Hc Hord outcome cache'.
  pose proof (getFieldRules_cache_ok f cache Hc) as Hc'. fold cache' in Hc'.
  assert (Hclear : fst (getFieldRules f (clearFieldRulesCache cache'))
                   = buildFieldRules f).
  { unfold clearFieldRulesCache.
    rewrite (getFieldRules_spec f [] cache_ok_nil), buildFieldRules_spec.
    cbn [hasKey lookup]. now destruct (inheritsKey f). }
  rewrite Hclear. clear Hclear.
  assert (Hagain : getFieldRules f cache' = (outcome, cache')).
  { rewrite (getFieldRules_spec f cache' Hc'). subst outcome cache'.
    rewrite (getFieldRules_spec f cache Hc).
    destruct (hasKey f cache) eqn:E; cbn [fst snd]; [now rewrite E|].
    destruct (inheritsKey f) eqn:Hf; cbn [fst snd].
    - now rewrite E.
    - unfold hasKey. now rewrite lookup_assign_same. }
  rewrite Hagain. clear Hagain.
  subst outcome cache'. rewrite buildFieldRules_spec.
  rewrite (getFieldRules_spec f cache Hc) in *.
  destruct (inheritsKey f) eqn:Hf.
  - rewrite (OrdinaryKeys_hasKey cache f Hord Hf). cbn [fst snd].
    repeat split; try assumption; try reflexivity;
      try (intros ? Hx; discriminate Hx).
  - destruct (hasKey f cache) eqn:E; cbn [fst snd].
    + repeat split; try assumption; try reflexivity;
        try (intros ? Hx; discriminate Hx).
      intros rules [= <-]. unfold hasKey in E.
      destruct (lookup f cache) as [rs|] eqn:El; [|discriminate E].
      now rewrite (Hc f rs El).
    + repeat split; try assumption; try reflexivity;
        try (intros ? Hx; discriminate Hx);
        try (now apply OrdinaryKeys_assign);
        try (intros g Hg; now apply lookup_assign_other).
      intros rules [= <-]. apply lookup_assign_same.
Qed.

Lemma getFieldRules_cache_transparent_witness :
  cache_ok [] /\
  OrdinaryKeys (@nil (string * list FieldValidationRule)) /\
  "N8N_HOST" <> "N8N_PORT" /\
  lookup "N8N_HOST" (snd (getFieldRules "N8N_PORT" [])) = None /\
  getFieldRules "N8N_PORT" (snd (getFieldRules "N8N_PORT" []))
  = getFieldRules "N8N_PORT" [] /\
  snd (getFieldRules "toString" []) = [].
Proof.
  assert (H : "N8N_HOST" <> "N8N_PORT") by discriminate.
  pose proof (getFieldRules_cache_transparent "N8N_PORT" [] cache_ok_nil
                OrdinaryKeys_nil) as T.
  pose proof (getFieldRules_cache_transparent "toString" [] cache_ok_nil
                OrdinaryKeys_nil) as U.
  refine (conj cache_ok_nil (conj OrdinaryKeys_nil (conj H (conj _ (conj _ _))))).
  - exact (proj1 (proj2 (proj2 (proj2 (proj2 (proj2 (proj2 (proj2 T)))))))
             "N8N_HOST" H).
  - rewrite (proj1 (proj2 (proj2 (proj2 (proj2 (proj2 (proj2 T))))))).
    reflexivity.
  - exact (proj1 (proj2 (proj2 (proj2 (proj2 (proj2 U))))) TypeError
             (proj1 (proj2 U))).
Defined.

Lemma flat_map_nil_iff {A B : Type} (f : A -> list B) (l : list A) :
  flat_map f l = [] <-> forall x, In x l -> f x = [].
Proof.
  induction l as [|x l IH]; simpl.
  - split; [intros _ y [] | reflexivity].
  - split.
    + intros H. apply app_eq_nil in H as [Hx Hl].
      intros y [<-|Hy]; [exact Hx | now apply IH].
    + intros H. rewrite (H x (or_introl eq_refl)). simpl.
      apply IH. intros y Hy. apply H. now right.
Qed.

Lemma dependencyAdditions_clean (message : string -> string)
  (fields : list string) (config : Config) :
  dependencyAdditions message fields config [] = [] <->
  forall f, In f fields -> ~ AbsentOrBlank f config.
Proof.
  unfold dependencyAdditions. cbn [existsb negb]. split.
  - intros H f Hf Hblank. apply isBlank_spec in Hblank.
    apply map_eq_nil in H.
    assert (Hin : In f (filter (fun f => isBlank (lookup f config) && true) fields))
      by (apply filter_In; split; [exact Hf | now rewrite Hblank]).
    rewrite H in Hin. destruct Hin.
  - intros H. rewrite filter_none; [reflexivity|].
    intros f Hf. rewrite andb_true_r.
    destruct (isBlank (lookup f config)) eqn:E; [|reflexivity].
    apply isBlank_spec in E. now apply H in E.
Qed.

(** When a configuration has no error at all. *)
Lemma configErrors_nil_iff (config : Config) :
  configErrors config = [] <->
  perFieldErrors config = []
  /\ (lookup "DB_TYPE" config = Some "postgresdb" ->
      forall f, In f POSTGRES_REQUIRED_FIELDS -> ~ AbsentOrBlank f config)
  /\ (lookup "EXECUTIONS_MODE" config = Some "queue" ->
      forall f, In f REDIS_REQUIRED_FIELDS -> ~ AbsentOrBlank f config).
Proof.
  rewrite configErrors_shape. cbv zeta.
  rewrite <- usesPostgres_spec, <- usesQueue_spec. split.
  - intros H. apply app_eq_nil in H as [H Hq]. apply app_eq_nil in H as [H1 Hp].
    rewrite Hp, H1 in Hq. rewrite H1 in Hp. cbn [app] in Hq.
    split; [exact H1|]. split.
    + intros E. rewrite E in Hp. exact (proj1 (dependencyAdditions_clean _ _ _) Hp).
    + intros E. rewrite E in Hq. exact (proj1 (dependencyAdditions_clean _ _ _) Hq).
  - intros (H1 & Hp & Hq). rewrite H1. cbn [app].
    assert (Hp' : (if usesPostgres config
                   then dependencyAdditions postgresMessage POSTGRES_REQUIRED_FIELDS
                                            config []
                   else []) = []).
    { destruct (usesPostgres config); [|reflexivity].
      apply dependencyAdditions_clean. now apply Hp. }
    rewrite Hp'. cbn [app].
    destruct (usesQueue config); [|reflexivity].
    apply dependencyAdditions_clean. now apply Hq.
Qed.

Lemma length_eqb_0 {A : Type} (l : list A) :
  (List.length l =? 0)%nat = true <-> l = [].
Proof. destruct l; simpl; split; congruence. Qed.

(** The properties that are set validate one by one exactly when the
    rules of every key can be had and no rule is broken. *)
Lemma FieldsValidate_iff (config : Config) (cache : RulesCache) :
  cache_ok cache ->
  (FieldsValidate config cache <->
   forallb (fun kv => hasRules cache (fst kv)) config = true /\
   perFieldErrors config = []).
Proof.
  intros Hc. unfold FieldsValidate, perFieldErrors.
  rewrite forallb_forall, flat_map_nil_iff. split.
  - intros H. split; intros [k v] Hkv; specialize (H k v Hkv);
      destruct (validateField_cases k v config cache Hc) as [(Hk & He & _)|(Hk & He)];
      rewrite He in H; cbn [fst] in *; try discriminate H.
    + exact Hk.
    + now injection H.
  - intros [Hr He] k v Hkv.
    specialize (Hr (k, v) Hkv). specialize (He (k, v) Hkv). cbn [fst] in Hr.
    destruct (validateField_cases k v config cache Hc) as [(_ & E & _)|(Hk & _)];
      [|congruence].
    rewrite E. now rewrite He.
Qed.

Lemma canGenerate_spec (config : Config) (cache : RulesCache) :
  cache_ok cache ->
  fst (canGenerate config cache) =
    if forallb (fun kv => hasRules cache (fst kv)) config
    then Returns (List.length (configErrors config) =? 0)%nat
    else Throws TypeError.
Proof.
  intros Hc. unfold canGenerate.
  pose proof (validateConfig_spec config cache Hc) as Hs.
  destruct (validateConfig config cache) as [[result|e] cache']; cbn [fst] in *;
    destruct (forallb _ config); try discriminate Hs; injection Hs as ->;
    reflexivity.
Qed.

(** X4. [canGenerate] returns [true] exactly when every property that
    is set validates without error ([validateField] returns the empty
    list for it) and, in Postgres mode and in queue mode, none of the
    required connection fields is absent or blank. *)
Theorem canGenerate_iff :
  forall (config : Config) (cache : RulesCache),
    cache_ok cache ->
    (fst (canGenerate config cache) = Returns true <->
     FieldsValidate config cache
     /\ (lookup "DB_TYPE" config = Some "postgresdb" ->
         forall f, In f POSTGRES_REQUIRED_FIELDS -> ~ AbsentOrBlank f config)
     /\ (lookup "EXECUTIONS_MODE" config = Some "queue" ->
         forall f, In f REDIS_REQUIRED_FIELDS -> ~ AbsentOrBlank f config)).
Proof.
  intros config cache Hc.
  rewrite (canGenerate_spec config cache Hc), (FieldsValidate_iff config cache Hc).
  pose proof (configErrors_nil_iff config) as Hnil.
  pose proof (length_eqb_0 (configErrors config)) as Hlen.
  destruct (forallb (fun kv => hasRules cache (fst kv)) config).
  - split.
    + intros [= E]. apply Hlen, Hnil in E. tauto.
    + intros [[_ H1] H2]. f_equal. apply Hlen, Hnil. tauto.
  - split; [discriminate|]. intros [[H _] _]. discriminate H.
Qed.

Lemma canGenerate_iff_witness :
  let config := [("N8N_HOST", "localhost"); ("N8N_PORT", "5678"); ("DB_TYPE", "sqlite")] in
  cache_ok [] /\
  FieldsValidate config [] /\
  lookup "DB_TYPE" config <> Some "postgresdb" /\
  lookup "EXECUTIONS_MODE" config <> Some "queue" /\
  fst (canGenerate config []) = Returns true.
Proof.
  intros config.
  assert (H1 : FieldsValidate config []).
  { intros k v Hkv. simpl in Hkv.
    destruct Hkv as [E|[E|[E|[]]]]; injection E as <- <-; reflexivity. }
  assert (H2 : lookup "DB_TYPE" config <> Some "postgresdb") by discriminate.
  assert (H3 : lookup "EXECUTIONS_MODE" config <> Some "queue") by discriminate.
  refine (conj cache_ok_nil (conj H1 (conj H2 (conj H3 _)))).
  apply (proj2 (canGenerate_iff config [] cache_ok_nil)).
  split; [exact H1|]. split; intros E; [now apply H2 in E | now apply H3 in E].
Defined.

Lemma fieldRules_unknown (f : string) :
  ~ KnownField f -> fieldRules f = [].
Proof.
  unfold KnownField. intros H. rewrite fieldRules_app.
  assert (Hinc : forall l, ~ In f l -> includes l f = false).
  { intros l Hl. destruct (includes l f) eqn:E; [|reflexivity].
    apply includes_In in E. contradiction. }
  rewrite !Hinc by tauto.
  assert (E : lookup f ENUM_VALUES = None) by (apply lookup_None_keys; tauto).
  rewrite E. reflexivity.
Qed.

Lemma fieldRules_known (f : string) (r : FieldValidationRule) :
  In r (fieldRules f) -> KnownField f.
Proof.
  intros H. apply fieldRules_In in H. unfold KnownField.
  destruct H as [[H _]|[[H _]|[[H _]|[[allowed [H _]]|[[H _]|[H _]]]]]]; auto 7.
  right. right. right. left. exact (in_map fst ENUM_VALUES (f, allowed) H).
Qed.

(** X7. A key that no rule table mentions never gets an error,
    whatever its value: [validateField] returns the empty list for it,
    unless the key is a key of [Object.prototype] without cached rules,
    for which the call ends with a [TypeError]. [validateConfig] returns
    exactly when the rules of every key can be had, and every error of
    its result has severity [error] and names a field of the rule tables
    that is either set in the configuration or required by the database
    or queue mode in force. *)
Theorem validation_tolerates_unknown_keys :
  forall (config : Config) (cache : RulesCache),
    cache_ok cache ->
    (forall field value,
        ~ KnownField field ->
        fst (validateField field value config cache)
        = if hasRules cache field then Returns [] else Throws TypeError)
    /\ (forall field, OrdinaryKey field -> hasRules cache field = true)
    /\ (forall field, inheritsKey field = true ->
          ~ KnownField field /\ hasRules cache field = hasKey field cache)
    /\ ((exists result, fst (validateConfig config cache) = Returns result) <->
        (forall k, In k (keys config) -> hasRules cache k = true))
    /\ (forall result, fst (validateConfig config cache) = Returns result ->
        forall e, In e (errors result) ->
          KnownField (err_field e)
          /\ err_type e = error
          /\ (In (err_field e) (keys config)
              \/ (lookup "DB_TYPE" config = Some "postgresdb" /\
                  In (err_field e) POSTGRES_REQUIRED_FIELDS)
              \/ (lookup "EXECUTIONS_MODE" config = Some "queue" /\
                  In (err_field e) REDIS_REQUIRED_FIELDS))).
Proof.
  intros config cache Hc.
  assert (Hall : forallb (fun kv => hasRules cache (fst kv)) config = true <->
                 (forall k, In k (keys config) -> hasRules cache k = true)).
  { rewrite forallb_forall. unfold keys. split.
    - intros H k Hk. apply in_map_iff in Hk as [kv [<- Hkv]]. now apply H.
    - intros H kv Hkv. apply H. now apply in_map. }
  split; [|split; [|split; [|split]]].
  - intros field value Hf.
    destruct (validateField_cases field value config cache Hc)
      as [(Hk & He & _)|(Hk & He)]; rewrite Hk, He; [|reflexivity].
    unfold fieldErrors. now rewrite (fieldRules_unknown field Hf).
  - intros field. apply hasRules_ordinary.
  - intros field Hf. split.
    + intros Hk. unfold KnownField in Hk. rewrite <- !in_app_iff in Hk.
      apply rule_tables_ordinary in Hk. unfold OrdinaryKey in Hk. congruence.
    + unfold hasRules. rewrite Hf. apply orb_false_r.
  - rewrite <- Hall, (validateConfig_spec config cache Hc).
    destruct (forallb (fun kv => hasRules cache (fst kv)) config).
    + split; [reflexivity | eauto].
    + split; [intros [result H]; discriminate H | discriminate].
  - rewrite (validateConfig_spec config cache Hc).
    destruct (forallb (fun kv => hasRules cache (fst kv)) config);
      [|discriminate].
    intros result [= <-]. cbn [errors]. intros e He.
    apply configErrors_In in He as [He|[[Hp [g [Hg ->]]]|[Hq [g [Hg ->]]]]].
    + apply perFieldErrors_In in He as (k & v & r & Hkv & Hr & _ & ->).
      cbn [err_field err_type]. split; [exact (fieldRules_known k r Hr)|].
      split; [reflexivity|]. left. exact (in_map fst config (k, v) Hkv).
    + cbn [err_field err_type]. unfold KnownField.
      apply usesPostgres_spec in Hp. auto 8.
    + cbn [err_field err_type]. unfold KnownField.
      apply usesQueue_spec in Hq. auto 8.
Qed.

Lemma validation_tolerates_unknown_keys_witness :
  cache_ok [] /\
  ~ KnownField "MY_CUSTOM_KEY" /\
  OrdinaryKey "MY_CUSTOM_KEY" /\
  inheritsKey "toString" = true /\
  fst (validateField "MY_CUSTOM_KEY" "not a number" [] []) = Returns [] /\
  fst (validateField "toString" "x" [] []) = Throws TypeError /\
  exists result,
    fst (validateConfig [("N8N_PORT", "x"); ("MY_CUSTOM_KEY", "y")] []) = Returns result /\
    errors result <> [] /\
    forall e, In e (errors result) -> KnownField (err_field e) /\ err_type e = error.
Proof.
  assert (H : ~ KnownField "MY_CUSTOM_KEY").
  { unfold KnownField. simpl. intuition discriminate. }
  assert (Ho : OrdinaryKey "MY_CUSTOM_KEY") by reflexivity.
  assert (Hi : inheritsKey "toString" = true) by reflexivity.
  pose proof (validation_tolerates_unknown_keys [] [] cache_ok_nil) as T.
  pose proof (validation_tolerates_unknown_keys
                [("N8N_PORT", "x"); ("MY_CUSTOM_KEY", "y")] [] cache_ok_nil) as U.
  refine (conj cache_ok_nil (conj H (conj Ho (conj Hi (conj _ (conj _ _)))))).
  - rewrite (proj1 T "MY_CUSTOM_KEY" "not a number" H).
    now rewrite (proj1 (proj2 T) "MY_CUSTOM_KEY" Ho).
  - rewrite (proj1 T "toString" "x" (proj1 (proj1 (proj2 (proj2 T)) "toString" Hi))).
    now rewrite (proj2 (proj1 (proj2 (proj2 T)) "toString" Hi)).
  - destruct (proj2 (proj1 (proj2 (proj2 (proj2 U))))) as [result Hres].
    { intros k [<-|[<-|[]]]; reflexivity. }
    exists result. split; [exact Hres|]. split.
    + assert (E : Returns result
                  = Returns {| valid := false;
                               errors := [mkError "N8N_PORT"
                                            "N8N_PORT must be a valid number" error];
                               warnings := [] |})
        by (rewrite <- Hres; reflexivity).
      injection E as ->. discriminate.
    + intros e He.
      destruct (proj2 (proj2 (proj2 (proj2 U))) result Hres e He) as (Hk & Ht & _).
      exact (conj Hk Ht).
Defined.

Lemma keys_assign {V : Type} (k : string) (v : V) (o : Obj V) :
  keys (assign k v o) = if hasKey k o then keys o else keys o ++ [k].
Proof.
  unfold hasKey. induction o as [|[k' v'] o IH]; simpl; [reflexivity|].
  destruct (String.eqb_spec k' k) as [->|Hne]; simpl; [reflexivity|].
  unfold keys in *. rewrite IH. now destruct (lookup k o).
Qed.

Lemma assign_keys_NoDup {V : Type} (k : string) (v : V) (o : Obj V) :
  NoDup (keys o) -> NoDup (keys (assign k v o)).
Proof.
  intros H. rewrite keys_assign. destruct (hasKey k o) eqn:E; [exact H|].
  assert (Hk : ~ In k (keys o)).
  { intros Hin. apply hasKey_keys in Hin. congruence. }
  clear E. induction H as [|x l Hx Hl IH]; simpl.
  - constructor; [intros [] | constructor].
  - constructor.
    + rewrite in_app_iff. simpl. intros [Hin|[<-|[]]]; [contradiction|].
      apply Hk. now left.
    + apply IH. intros Hin. apply Hk. now right.
Qed.

(** The grouping loop of [getValidationErrorsByField], from any map. *)
Lemma groupByField_lookup (errs : list ValidationError) :
  forall (acc : Obj (list ValidationError)) (f : string),
    lookup f
      (fold_left
         (fun errorsByField e =>
            assign (err_field e)
                   (match lookup (err_field e) errorsByField with
                    | Some es => es
                    | None => []
                    end ++ [e])
                   errorsByField)
         errs acc)
    = match lookup f acc, errorsFor f errs with
      | Some es, more => Some (es ++ more)
      | None, [] => None
      | None, more => Some more
      end.
Proof.
  induction errs as [|e errs IH]; intros acc f; cbn [fold_left errorsFor filter].
  - destruct (lookup f acc); [now rewrite app_nil_r | reflexivity].
  - rewrite IH. fold (errorsFor f errs).
    destruct (String.eqb_spec (err_field e) f) as [<-|Hne].
    + rewrite lookup_assign_same.
      destruct (lookup (err_field e) acc); [now rewrite <- app_assoc | reflexivity].
    + rewrite lookup_assign_other by congruence. reflexivity.
Qed.

Lemma groupByField_NoDup (errs : list ValidationError) :
  forall (acc : Obj (list ValidationError)),
    NoDup (keys acc) ->
    NoDup (keys
      (fold_left
         (fun errorsByField e =>
            assign (err_field e)
                   (match lookup (err_field e) errorsByField with
                    | Some es => es
                    | None => []
                    end ++ [e])
                   errorsByField)
         errs acc)).
Proof.
  induction errs as [|e errs IH]; intros acc H; cbn [fold_left]; [exact H|].
  apply IH. now apply assign_keys_NoDup.
Qed.

(** X5. [getValidationErrorsByField] ends as [validateConfig] does: an
    exception of [validateConfig] is passed on, and for a configuration
    none of whose keys is a key of [Object.prototype] both return. The
    map returned takes each field that has an error to all the errors
    [validateConfig] reports for it, in the order they were reported; a
    field without an error has no entry, and no field has two. *)
Theorem getValidationErrorsByField_spec :
  forall (config : Config) (cache : RulesCache),
    cache_ok cache ->
    (OrdinaryKeys config ->
     exists result, fst (validateConfig config cache) = Returns result)
    /\ (forall e, fst (validateConfig config cache) = Throws e ->
          fst (getValidationErrorsByField config cache) = Throws e)
    /\ (forall result, fst (validateConfig config cache) = Returns result ->
        exists byField,
          fst (getValidationErrorsByField config cache) = Returns byField /\
          let reported := errors result in
          (forall f,
              lookup f byField
              = match errorsFor f reported with
                | [] => None
                | es => Some es
                end)
          /\ (forall f, In f (keys byField) <->
                        exists e, In e reported /\ err_field e = f)
          /\ NoDup (keys byField)).
Proof.
  intros config cache Hc. split; [|split].
  - intros Hord. destruct (validateConfig_ok config cache Hc Hord) as [Hres _].
    eauto.
  - intros e He. unfold getValidationErrorsByField.
    destruct (validateConfig config cache) as [[result|e'] cache'];
      cbn [fst] in *; [discriminate He | now injection He as ->].
  - intros result Hres.
    set (byField := fold_left
                      (fun errorsByField e =>
                         assign (err_field e)
                                (match lookup (err_field e) errorsByField with
                                 | Some es => es
                                 | None => []
                                 end ++ [e])
                                errorsByField)
                      (errors result) []).
    exists byField. split.
    { unfold getValidationErrorsByField.
      destruct (validateConfig config cache) as [[result'|e'] cache'];
        cbn [fst] in *; [|discriminate Hres].
      injection Hres as ->. reflexivity. }
    cbv zeta.
    assert (Hlookup : forall f,
               lookup f byField
               = match errorsFor f (errors result) with
                 | [] => None
                 | es => Some es
                 end).
    { intros f. unfold byField. rewrite groupByField_lookup. reflexivity. }
    split; [exact Hlookup|]. split.
    + intros f. rewrite <- hasKey_keys. unfold hasKey. rewrite Hlookup. split.
      * destruct (errorsFor f (errors result)) as [|e es] eqn:E; [discriminate|].
        intros _. exists e. apply (errorsFor_In f). rewrite E. now left.
      * intros [e He]. apply (errorsFor_In f) in He.
        destruct (errorsFor f (errors result)); [destruct He | reflexivity].
    + unfold byField. apply groupByField_NoDup. constructor.
Qed.

Lemma getValidationErrorsByField_spec_witness :
  let config := [("N8N_PORT", "invalid"); ("DB_TYPE", "postgresdb")] in
  cache_ok [] /\
  OrdinaryKeys config /\
  exists byField,
    fst (getValidationErrorsByField config []) = Returns byField /\
    In "N8N_PORT" (keys byField) /\
    lookup "N8N_HOST" byField = None.
Proof.
  intros config.
  assert (H0 : OrdinaryKeys config).
  { intros k [<-|[<-|[]]]; reflexivity. }
  pose proof (getValidationErrorsByField_spec config [] cache_ok_nil) as T.
  refine (conj cache_ok_nil (conj H0 _)).
  destruct (proj1 T H0) as [result Hres].
  destruct (proj2 (proj2 T) result Hres) as (byField & Hby & Hlookup & Hkeys & _).
  exists byField. split; [exact Hby|].
  assert (Hr : result = {| valid := (List.length (configErrors config) =? 0)%nat;
                           errors := configErrors config;
                           warnings := [] |}).
  { assert (E : Returns result
                = Returns {| valid := (List.length (configErrors config) =? 0)%nat;
                             errors := configErrors config;
                             warnings := [] |})
      by (rewrite <- Hres; reflexivity).
    now injection E. }
  split.
  - apply (proj2 (Hkeys "N8N_PORT")).
    exists (mkError "N8N_PORT" "N8N_PORT must be a valid number" error).
    rewrite Hr. split; [left; reflexivity | reflexivity].
  - rewrite (Hlookup "N8N_HOST"), Hr. reflexivity.
Defined.

Lemma lookup_Permutation {V : Type} (a b : Obj V) (k : string) :
  NoDup (keys a) -> Permutation a b -> lookup k a = lookup k b.
Proof.
  intros Hnd Hp.
  assert (Hnd' : NoDup (keys b))
    by (exact (Permutation_NoDup (Permutation_map fst Hp) Hnd)).
  destruct (lookup k a) as [v|] eqn:Ea.
  - apply lookup_Some_In in Ea. apply (Permutation_in _ Hp) in Ea.
    symmetry. clear Hp Hnd.
    induction b as [|[k' v'] b IH]; [destruct Ea|].
    simpl in *. inversion Hnd' as [|? ? Hk' Hb]; subst.
    destruct Ea as [E|Hin].
    + injection E as -> ->. now rewrite String.eqb_refl.
    + destruct (String.eqb_spec k' k) as [->|_]; [|now apply IH].
      exfalso. apply Hk'. exact (in_map fst b (k, v) Hin).
  - symmetry. apply lookup_None_keys. apply lookup_None_keys in Ea.
    intros Hin. apply Ea.
    exact (Permutation_in _ (Permutation_sym (Permutation_map fst Hp)) Hin).
Qed.

Lemma hasErrorFor_Permutation (f : string) (a b : list ValidationError) :
  Permutation a b -> hasErrorFor f a = hasErrorFor f b.
Proof.
  intros Hp. unfold hasErrorFor.
  induction Hp as [|x l l' _ IH|x y l|l l' l'' _ IH1 _ IH2]; simpl.
  - reflexivity.
  - now rewrite IH.
  - now rewrite !orb_assoc, (orb_comm (_ && _) (_ && _)).
  - congruence.
Qed.

Lemma dependencyAdditions_ext (message : string -> string) (fields : list string)
  (config config' : Config) (errs errs' : list ValidationError) :
  (forall f, lookup f config = lookup f config') ->
  Permutation errs errs' ->
  dependencyAdditions message fields config errs
  = dependencyAdditions message fields config' errs'.
Proof.
  intros Hl Hp. unfold dependencyAdditions. f_equal.
  apply filter_ext. intros f. rewrite Hl.
  change (existsb (fun e => (err_field e =? f)%string && Severity_eqb (err_type e) error))
    with (hasErrorFor f).
  now rewrite (hasErrorFor_Permutation f errs errs' Hp).
Qed.

Lemma fieldErrors_ext (k v : string) (config config' : Config) :
  (forall f, lookup f config = lookup f config') ->
  fieldErrors k v config = fieldErrors k v config'.
Proof.
  intros Hl. unfold fieldErrors. f_equal. apply filter_ext_in. intros r Hr.
  f_equal. apply fieldRules_In in Hr.
  destruct Hr as [[_ ->]|[[_ ->]|[[_ ->]|[[allowed [_ ->]]|[[_ ->]|[_ ->]]]]]];
    try reflexivity; cbn [rule_validate createPostgresDependencyRule
                          createRedisDependencyRule];
    unfold usesPostgres, usesQueue; now rewrite Hl.
Qed.

Lemma forallb_Permutation {A : Type} (p : A -> bool) (l l' : list A) :
  Permutation l l' -> forallb p l = forallb p l'.
Proof.
  intros Hp. induction Hp as [|x l l' _ IH|x y l|l l' l'' _ IH1 _ IH2];
    cbn [forallb].
  - reflexivity.
  - now rewrite IH.
  - now rewrite !andb_assoc, (andb_comm (p y) (p x)).
  - congruence.
Qed.

(** X8. Validation does not depend on the order in which the properties
    of the configuration are listed. On two listings of the same
    properties, none named like a member of [Object.prototype],
    [validateConfig] returns the same errors up to order, and the same
    verdict, whatever the rule cache holds; and from one state of the
    cache, it throws on both listings or on neither. *)
Theorem validateConfig_order_insensitive :
  forall (config config' : Config) (cache cache' : RulesCache),
    cache_ok cache -> cache_ok cache' ->
    NoDup (keys config) ->
    Permutation config config' ->
    (OrdinaryKeys config ->
     exists result result',
       fst (validateConfig config cache) = Returns result /\
       fst (validateConfig config' cache') = Returns result' /\
       Permutation (errors result) (errors result') /\
       valid result = valid result')
    /\ (fst (validateConfig config cache) = Throws TypeError <->
        fst (validateConfig config' cache) = Throws TypeError).
Proof.
  intros config config' cache cache' Hc Hc' Hnd Hp.
  split.
  2:{ rewrite !(validateConfig_spec _ cache Hc).
      rewrite (forallb_Permutation (fun kv => hasRules cache (fst kv)) _ _ Hp).
      destruct (forallb (fun kv => hasRules cache (fst kv)) config');
        split; intros H; try discriminate H; reflexivity. }
  intros Hord.
  assert (Hord' : OrdinaryKeys config').
  { intros k Hk. apply Hord.
    exact (Permutation_in _ (Permutation_sym (Permutation_map fst Hp)) Hk). }
  destruct (validateConfig_ok config cache Hc Hord) as [Hres _].
  destruct (validateConfig_ok config' cache' Hc' Hord') as [Hres' _].
  eexists. eexists. split; [exact Hres|]. split; [exact Hres'|].
  cbn [errors valid].
  assert (Hl : forall f, lookup f config = lookup f config')
    by (intros f; now apply lookup_Permutation).
  assert (H1 : Permutation (perFieldErrors config) (perFieldErrors config')).
  { unfold perFieldErrors.
    rewrite (flat_map_ext (fun '(k, v) => fieldErrors k v config)
                          (fun '(k, v) => fieldErrors k v config')).
    - now apply Permutation_flat_map.
    - intros [k v]. now apply fieldErrors_ext. }
  assert (Hpg : usesPostgres config = usesPostgres config')
    by (unfold usesPostgres; now rewrite Hl).
  assert (Hq : usesQueue config = usesQueue config')
    by (unfold usesQueue; now rewrite Hl).
  assert (Hperm : Permutation (configErrors config) (configErrors config')).
  { rewrite !configErrors_shape. cbv zeta. rewrite <- Hpg, <- Hq.
    assert (H2 : Permutation
                   (perFieldErrors config ++
                    (if usesPostgres config
                     then dependencyAdditions postgresMessage POSTGRES_REQUIRED_FIELDS
                                              config (perFieldErrors config)
                     else []))
                   (perFieldErrors config' ++
                    (if usesPostgres config
                     then dependencyAdditions postgresMessage POSTGRES_REQUIRED_FIELDS
                                              config' (perFieldErrors config')
                     else []))).
    { apply Permutation_app; [exact H1|].
      destruct (usesPostgres config); [|reflexivity].
      now rewrite (dependencyAdditions_ext _ _ config config' _ _ Hl H1). }
    apply Permutation_app; [exact H2|].
    destruct (usesQueue config); [|reflexivity].
    now rewrite (dependencyAdditions_ext _ _ config config' _ _ Hl H2). }
  split; [exact Hperm|]. now rewrite (Permutation_length Hperm).
Qed.

Lemma validateConfig_order_insensitive_witness :
  let config := [("DB_TYPE", "postgresdb"); ("N8N_PORT", "x")] in
  let config' := [("N8N_PORT", "x"); ("DB_TYPE", "postgresdb")] in
  cache_ok [] /\
  NoDup (keys config) /\
  Permutation config config' /\
  OrdinaryKeys config /\
  exists result result',
    fst (validateConfig config []) = Returns result /\
    fst (validateConfig config' []) = Returns result' /\
    valid result = valid result'.
Proof.
  intros config config'.
  assert (H0 : OrdinaryKeys config).
  { intros k [<-|[<-|[]]]; reflexivity. }
  assert (H1 : NoDup (keys config)).
  { simpl. repeat constructor; simpl; intuition discriminate. }
  assert (H2 : Permutation config config') by apply perm_swap.
  refine (conj cache_ok_nil (conj H1 (conj H2 (conj H0 _)))).
  destruct (proj1 (validateConfig_order_insensitive config config' [] []
                     cache_ok_nil cache_ok_nil H1 H2) H0)
    as (result & result' & Hr & Hr' & _ & Hv).
  exists result, result'. auto.
Defined.

(* ====================================================================== *)
(** ** More on the diff engine *)
(* ====================================================================== *)

Lemma valueOf_unset (a b : JsObject) (k : string) :
  ~ In k (keys a) -> ~ In k (keys b) -> valueOf a k = valueOf b k.
Proof.
  intros Ha Hb. apply lookup_None_keys in Ha, Hb. unfold valueOf.
  apply getOrEmpty_lookup. congruence.
Qed.

Lemma classify_flip (cur def : Value) :
  classify def cur = flipType (classify cur def).
Proof.
  unfold classify.
  destruct (Value_eqb def (Str "")), (Value_eqb cur (Str "")); reflexivity.
Qed.

Lemma Value_eq_dec (a b : Value) : {a = b} + {a <> b}.
Proof.
  destruct (Value_eqb a b) eqn:E.
  - left. now apply Value_eqb_eq.
  - right. now apply Value_eqb_false.
Qed.

Lemma filter_all {A : Type} (p : A -> bool) (l : list A) :
  (forall x, In x l -> p x = true) -> filter p l = l.
Proof. intros H. apply forallb_filter_id. now apply forallb_forall. Qed.

Lemma filter_out_one (x : string) (l : list string) :
  NoDup l -> In x l ->
  S (List.length (filter (fun y => negb (y =? x)%string) l)) = List.length l.
Proof.
  induction 1 as [|y l Hy Hl IH]; simpl; [tauto|].
  intros [->|Hin].
  - rewrite String.eqb_refl. simpl. f_equal. f_equal. apply filter_all.
    intros z Hz. apply negb_true_iff, string_eqb_false. intros ->. contradiction.
  - destruct (String.eqb_spec y x) as [->|_]; [contradiction|].
    simpl. f_equal. now apply IH.
Qed.

Section DiffMore.
Variable localeCompare : string -> string -> Z.

Lemma computeDiff_same_values (a b : JsObject) :
  (forall k, valueOf a k = valueOf b k) -> computeDiff localeCompare a b = noChanges.
Proof.
  intros H.
  assert (He : entries (computeDiff localeCompare a b) = []).
  { rewrite computeDiff_entries. rewrite filter_none; [reflexivity|].
    intros k _. now rewrite H, Value_eqb_refl. }
  unfold computeDiff in *. cbn [entries] in He. unfold noChanges. now rewrite He.
Qed.

Lemma computeDiff_fields_NoDup (a b : JsObject) :
  NoDup (map diff_field (entries (computeDiff localeCompare a b))).
Proof.
  apply (Permutation_NoDup (Permutation_sym (computeDiff_changed_keys _ _ _))).
  apply NoDup_filter, newSet_NoDup.
Qed.

Lemma computeDiff_In (a b : JsObject) (e : DiffEntry) :
  In e (entries (computeDiff localeCompare a b)) <->
  e = diffEntry a b (diff_field e)
  /\ (In (diff_field e) (keys a) \/ In (diff_field e) (keys b))
  /\ valueOf a (diff_field e) <> valueOf b (diff_field e).
Proof.
  split.
  - intros He. destruct (computeDiff_entry localeCompare a b e He) as [E _].
    split; [exact E|].
    apply (proj1 (computeDiff_fields localeCompare a b (diff_field e))).
    now apply in_map.
  - intros (E & Hk).
    apply (proj2 (computeDiff_fields localeCompare a b (diff_field e))) in Hk.
    apply in_map_iff in Hk as [e' [Hf He']].
    destruct (computeDiff_entry localeCompare a b e' He') as [E' _].
    rewrite E, <- Hf, <- E'. exact He'.
Qed.

(** X9. [computeDiff] reports no changes exactly when every key reads
    the same in the two maps, where a key reads as its own value, else
    as what [Object.prototype] holds under that name, else as the empty
    string; the result is then the empty diff. For two maps of strings
    this is to say that every key that is set in one of them and is a
    key of [Object.prototype] is set to the same string in the other,
    and that every other key is set to the same string in both or is
    empty or unset in both. *)
Theorem computeDiff_no_changes_iff :
  forall (config defaults : JsObject),
    (hasChanges (computeDiff localeCompare config defaults) = false <->
     forall k, valueOf config k = valueOf defaults k)
    /\ (hasChanges (computeDiff localeCompare config defaults) = false ->
        computeDiff localeCompare config defaults = noChanges)
    /\ (forall (a b : Config),
          (forall k, valueOf (ofConfig a) k = valueOf (ofConfig b) k) <->
          (forall k,
              if inheritsKey k
              then lookup k a = lookup k b
              else nullish (lookup k a) "" = nullish (lookup k b) "")).
Proof.
  intros config defaults.
  refine ((fun Hmain => conj (proj1 Hmain) (conj (proj2 Hmain) _)) _).
  { clear Hmain. intros a b. split; intros H k; specialize (H k);
      rewrite ?valueOf_ofConfig in *; unfold nullish in *;
      destruct (inheritsKey k), (lookup k a), (lookup k b);
      congruence. }
  assert (Hiff : hasChanges (computeDiff localeCompare config defaults) = false <->
                 forall k, valueOf config k = valueOf defaults k).
  { split.
    - intros H k.
      assert (He : entries (computeDiff localeCompare config defaults) = []).
      { unfold computeDiff in *. cbn [hasChanges entries] in *.
        destruct (sortBy _ _); [reflexivity | discriminate H]. }
      destruct (Value_eq_dec (valueOf config k) (valueOf defaults k)) as [E|Hne];
        [exact E|].
      exfalso.
      assert (Hin : In k (map diff_field
                            (entries (computeDiff localeCompare config defaults)))).
      { apply (proj2 (computeDiff_fields localeCompare config defaults k)).
        split; [|exact Hne].
        destruct (in_dec string_dec k (keys config)) as [|Hc]; [now left|].
        destruct (in_dec string_dec k (keys defaults)) as [|Hd]; [now right|].
        exfalso. apply Hne. now apply valueOf_unset. }
      rewrite He in Hin. destruct Hin.
    - intros H. now rewrite (computeDiff_same_values config defaults H). }
  split; [exact Hiff|].
  intros H. apply computeDiff_same_values. now apply Hiff.
Qed.

(** X10. Exchanging the two maps gives the mirror diff: the same fields
    have an entry, each entry has its two values exchanged and [added]
    and [removed] exchanged, and the number of changes is the same. *)
Theorem computeDiff_swap :
  forall (config defaults : JsObject),
    let forward := computeDiff localeCompare config defaults in
    let backward := computeDiff localeCompare defaults config in
    (forall e, In e (entries forward) <-> In (swapEntry e) (entries backward))
    /\ (forall e, In e (entries backward) -> exists e', In e' (entries forward) /\ e = swapEntry e')
    /\ totalChanges forward = totalChanges backward
    /\ hasChanges forward = hasChanges backward.
Proof.
  intros config defaults forward backward. subst forward backward.
  assert (Hswap : forall a b k, swapEntry (diffEntry a b k) = diffEntry b a k).
  { intros a b k. unfold swapEntry, diffEntry.
    cbn [diff_field diff_category diff_type currentValue defaultValue].
    f_equal. symmetry. apply classify_flip. }
  assert (Hinv : forall e, swapEntry (swapEntry e) = e).
  { intros [f c t cv dv]. unfold swapEntry.
    cbn [diff_field diff_category diff_type currentValue defaultValue].
    now destruct t. }
  assert (Hto : forall a b e,
             In e (entries (computeDiff localeCompare a b)) ->
             In (swapEntry e) (entries (computeDiff localeCompare b a))).
  { intros a b e He. apply computeDiff_In in He as (E & Hk & Hne).
    apply computeDiff_In. rewrite E, Hswap.
    cbn [diff_field diffEntry]. split; [reflexivity|]. split; [tauto|congruence]. }
  assert (Hlen : List.length (entries (computeDiff localeCompare config defaults))
                 = List.length (entries (computeDiff localeCompare defaults config))).
  { rewrite <- (length_map diff_field (entries (computeDiff _ config defaults))).
    rewrite <- (length_map diff_field (entries (computeDiff _ defaults config))).
    apply Permutation_length. apply NoDup_Permutation.
    - apply computeDiff_fields_NoDup.
    - apply computeDiff_fields_NoDup.
    - intros k. rewrite !computeDiff_fields. split; intros [Hk Hne];
        (split; [tauto | congruence]). }
  split; [|split; [|split]].
  - intros e. split; [apply Hto|].
    intros H. apply Hto in H. now rewrite Hinv in H.
  - intros e He. exists (swapEntry e). split; [now apply Hto | now rewrite Hinv].
  - exact Hlen.
  - unfold computeDiff in *. cbn [hasChanges entries] in *. now rewrite Hlen.
Qed.

(** X11. After [revertAll], a diff of the returned configuration against
    the same defaults reports no changes. *)
Theorem revertAll_then_diff :
  forall (config defaults : ref) (st : Store),
    let r := fst (revertAll config defaults st) in
    let st' := snd (revertAll config defaults st) in
    computeDiff localeCompare (cells st' r) (cells st' defaults) = noChanges.
Proof.
  intros config defaults st r st'. subst r st'. unfold revertAll.
  rewrite alloc_cells_new.
  assert (E : cells (snd (alloc (cells st defaults) st)) defaults = cells st defaults).
  { simpl. now destruct (defaults =? next st)%nat. }
  rewrite E. now apply computeDiff_same_values.
Qed.

(** X12. Reverting a field takes exactly its entry out of the diff: the
    entries of the diff after [revertField] are the entries before it
    other than the one for the field, so the number of changes drops by
    one when the field had an entry and stays the same when it had
    none. The field [__proto__] is the exception when the defaults have
    such a property and the configuration has none: the assignment then
    stores nothing, and the diff after is the diff before. *)
Theorem revertField_removes_one_entry :
  forall (field : string) (config defaults : ref) (st : Store),
    allocated st defaults ->
    let r := fst (revertField field config defaults st) in
    let st' := snd (revertField field config defaults st) in
    let before := computeDiff localeCompare (cells st config) (cells st defaults) in
    let after := computeDiff localeCompare (cells st' r) (cells st' defaults) in
    ((field = "__proto__" ->
      In field (keys (cells st defaults)) ->
      In field (keys (cells st config))) ->
     Permutation (entries after)
                 (filter (fun e => negb (diff_field e =? field)%string) (entries before))
     /\ (In field (map diff_field (entries before)) ->
         S (totalChanges after) = totalChanges before)
     /\ (~ In field (map diff_field (entries before)) ->
         totalChanges after = totalChanges before))
    /\ (field = "__proto__" ->
        ~ In field (keys (cells st config)) ->
        after = before).
Proof.
  intros field config defaults st Hd r st' before after.
  assert (Hdef : cells st' defaults = cells st defaults)
    by (subst st'; now apply revertField_frame).
  split.
  2:{ intros -> Hk. subst before after. rewrite Hdef. subst r st'.
      now rewrite (revertField_proto_copy config defaults st Hd Hk). }
  intros Hp.
  assert (Hother : forall k, k <> field ->
                             lookup k (cells st' r) = lookup k (cells st config))
    by (intros k Hk; subst r st'; now apply revertField_other).
  assert (Hsame : valueOf (cells st' r) field = valueOf (cells st defaults) field)
    by (unfold valueOf; subst r st'; now apply revertField_reads).
  subst before after. rewrite Hdef.
  set (c := cells st config) in *. set (d := cells st defaults) in *.
  set (c' := cells st' r) in *.
  assert (Hval : forall k, k <> field -> valueOf c' k = valueOf c k)
    by (intros k Hk; unfold valueOf; apply getOrEmpty_lookup; now apply Hother).
  assert (Hkeys : forall k, k <> field -> (In k (keys c') <-> In k (keys c))).
  { intros k Hk. rewrite <- !hasKey_keys. unfold hasKey. now rewrite Hother. }
  assert (Hperm : Permutation
                    (entries (computeDiff localeCompare c' d))
                    (filter (fun e => negb (diff_field e =? field)%string)
                            (entries (computeDiff localeCompare c d)))).
  { apply NoDup_Permutation.
    - apply (NoDup_map_inv diff_field), computeDiff_fields_NoDup.
    - apply NoDup_filter, (NoDup_map_inv diff_field), computeDiff_fields_NoDup.
    - intros e. rewrite filter_In, !computeDiff_In, negb_true_iff, string_eqb_false.
      split.
      + intros (E & Hk & Hne).
        assert (Hf : diff_field e <> field) by (intros Ef; rewrite Ef in Hne; tauto).
        rewrite (Hval _ Hf) in Hne. rewrite (Hkeys _ Hf) in Hk.
        split; [|exact Hf]. split; [|tauto].
        rewrite E. unfold diffEntry. cbn [diff_field]. now rewrite (Hval _ Hf).
      + intros [(E & Hk & Hne) Hf].
        rewrite <- (Hval _ Hf) in Hne. rewrite <- (Hkeys _ Hf) in Hk.
        split; [|tauto].
        rewrite E at 1. unfold diffEntry. cbn [diff_field]. now rewrite (Hval _ Hf). }
  split; [exact Hperm|].
  assert (Hlen : totalChanges (computeDiff localeCompare c' d)
                 = List.length
                     (filter (fun k => negb (k =? field)%string)
                             (map diff_field (entries (computeDiff localeCompare c d))))).
  { change (totalChanges (computeDiff localeCompare c' d))
      with (List.length (entries (computeDiff localeCompare c' d))).
    rewrite (Permutation_length Hperm).
    rewrite <- (length_map diff_field).
    f_equal. generalize (entries (computeDiff localeCompare c d)).
    induction l as [|e l IH]; simpl; [reflexivity|].
    destruct (diff_field e =? field)%string; simpl; now rewrite IH. }
  rewrite Hlen.
  change (totalChanges (computeDiff localeCompare c d))
    with (List.length (entries (computeDiff localeCompare c d))).
  rewrite <- (length_map diff_field (entries (computeDiff localeCompare c d))).
  split.
  - intros Hin. apply filter_out_one; [apply computeDiff_fields_NoDup | exact Hin].
  - intros Hnot. f_equal. apply filter_all.
    intros k Hk. apply negb_true_iff, string_eqb_false. intros ->. contradiction.
Qed.
End DiffMore.

Lemma computeDiff_no_changes_iff_witness :
  let config := ofConfig [("N8N_PORT", "5678"); ("N8N_PATH", "")] in
  let defaults := ofConfig [("N8N_PORT", "5678")] in
  hasChanges (computeDiff codeUnitCompare config defaults) = false
  /\ computeDiff codeUnitCompare config defaults = noChanges.
Proof.
  intros config defaults.
  assert (H : hasChanges (computeDiff codeUnitCompare config defaults) = false)
    by reflexivity.
  exact (conj H (proj1 (proj2 (computeDiff_no_changes_iff codeUnitCompare _ _)) H)).
Defined.

Lemma computeDiff_swap_witness :
  let added_port := {| diff_field := "N8N_PORT"; diff_category := "deployment";
                       diff_type := added;
                       currentValue := Str "9000"; defaultValue := Str "" |} in
  In added_port
     (entries (computeDiff codeUnitCompare (ofConfig [("N8N_PORT", "9000")])
                           (ofConfig [])))
  /\ In {| diff_field := "N8N_PORT"; diff_category := "deployment";
           diff_type := removed;
           currentValue := Str ""; defaultValue := Str "9000" |}
        (entries (computeDiff codeUnitCompare (ofConfig [])
                              (ofConfig [("N8N_PORT", "9000")]))).
Proof.
  intros added_port.
  assert (H : In added_port
                 (entries (computeDiff codeUnitCompare
                             (ofConfig [("N8N_PORT", "9000")]) (ofConfig []))))
    by (vm_compute; auto).
  exact (conj H (proj1 (proj1 (computeDiff_swap codeUnitCompare
                                 (ofConfig [("N8N_PORT", "9000")]) (ofConfig []))
                          added_port) H)).
Defined.

Lemma revertField_removes_one_entry_witness :
  let st := {| cells := fun r => match r with
                                 | 0 => ofConfig [("N8N_PORT", "9000"); ("EXTRA", "1")]
                                 | _ => ofConfig [("N8N_PORT", "5678")]
                                 end;
               next := 2 |} in
  allocated st 1 /\
  ("EXTRA" = "__proto__" ->
   In "EXTRA" (keys (cells st 1)) -> In "EXTRA" (keys (cells st 0))) /\
  In "EXTRA" (map diff_field (entries (computeDiff codeUnitCompare (cells st 0) (cells st 1)))) /\
  totalChanges
    (computeDiff codeUnitCompare
       (cells (snd (revertField "EXTRA" 0 1 st)) (fst (revertField "EXTRA" 0 1 st)))
       (cells (snd (revertField "EXTRA" 0 1 st)) 1)) = 1.
Proof.
  intros st.
  assert (H1 : allocated st 1) by (unfold allocated; simpl; lia).
  assert (H2 : In "EXTRA" (map diff_field
                  (entries (computeDiff codeUnitCompare (cells st 0) (cells st 1)))))
    by (vm_compute; auto).
  assert (H3 : "EXTRA" = "__proto__" ->
               In "EXTRA" (keys (cells st 1)) -> In "EXTRA" (keys (cells st 0)))
    by discriminate.
  refine (conj H1 (conj H3 (conj H2 _))).
  pose proof (proj1 (proj2 (proj1 (revertField_removes_one_entry
                                     codeUnitCompare "EXTRA" 0 1 st H1) H3)) H2) as E.
  exact (eq_add_S _ _ (eq_trans E eq_refl)).
Defined.

(* ====================================================================== *)
(** ** The variable registry *)

Lemma find_name_None (f : string) (vs : list EnvVariable) :
  find (fun v => var_name v =? f) vs = None <->
  forall v, In v vs -> var_name v <> f.
Proof.
  split.
  - intros H v Hv. apply string_eqb_false. exact (find_none _ _ H v Hv).
  - intros H. destruct (find _ vs) as [v|] eqn:E; [|reflexivity].
    apply find_some in E as [Hv E]. apply String.eqb_eq in E.
    now destruct (H v Hv).
Qed.

Lemma getFieldCategory_declared :
  forallb (fun c =>
             negb (cat_id c =? "unknown")
             && forallb (fun v => getFieldCategory (var_name v) =? cat_id c)
                        (cat_variables c))
          categories = true.
Proof. vm_compute. reflexivity. Qed.

(** X13. [getFieldCategory] gives the id of the category that declares
    the field, for every variable of the registry, and ["unknown"]
    exactly for the names that no category declares. *)
Theorem getFieldCategory_spec :
  forall (fieldName : string),
    (forall c, In c categories -> Declares c fieldName ->
               getFieldCategory fieldName = cat_id c)
    /\ (getFieldCategory fieldName = "unknown" <->
        forall c, In c categories -> ~ Declares c fieldName).
Proof.
  intros f.
  assert (Hdecl : forall c, In c categories -> Declares c f ->
                            getFieldCategory f = cat_id c /\ cat_id c <> "unknown").
  { intros c Hc (v & Hv & <-).
    pose proof (proj1 (forallb_forall _ _) getFieldCategory_declared c Hc) as H.
    apply andb_true_iff in H as [Hid H].
    apply negb_true_iff, string_eqb_false in Hid.
    split; [|exact Hid].
    apply String.eqb_eq. exact (proj1 (forallb_forall _ _) H v Hv). }
  split; [intros c Hc Hd; exact (proj1 (Hdecl c Hc Hd))|].
  split.
  - intros Hu c Hc Hd. destruct (Hdecl c Hc Hd) as [E Hne]. congruence.
  - unfold getFieldCategory. generalize categories.
    induction l as [|c cs IH]; intros H; [reflexivity|].
    destruct (find _ (cat_variables c)) as [v|] eqn:E.
    + apply find_some in E as [Hv E]. apply String.eqb_eq in E.
      destruct (H c (or_introl eq_refl)). now exists v.
    + apply IH. intros c' Hc'. apply H. now right.
Qed.

Lemma getFieldCategory_spec_witness :
  In (nth 0 categories {| cat_id := ""; cat_variables := [] |}) categories
  /\ Declares (nth 0 categories {| cat_id := ""; cat_variables := [] |}) "N8N_PORT"
  /\ getFieldCategory "N8N_PORT" = "deployment"
  /\ getFieldCategory "MY_OWN_VARIABLE" = "unknown".
Proof.
  assert (H1 : In (nth 0 categories {| cat_id := ""; cat_variables := [] |}) categories)
    by (vm_compute; auto).
  assert (H2 : Declares (nth 0 categories {| cat_id := ""; cat_variables := [] |}) "N8N_PORT").
  { exists (mkVar "N8N_PORT" "Number" "5678" true false). split; [|reflexivity].
    vm_compute. auto. }
  refine (conj H1 (conj H2 (conj _ _))).
  - exact (proj1 (getFieldCategory_spec "N8N_PORT") _ H1 H2).
  - reflexivity.
Defined.

Lemma registry_tables_check :
  forallb (fun v =>
             Bool.eqb (var_type v =? "Number") (includes NUMERIC_FIELDS (var_name v))
             && Bool.eqb (var_type v =? "Boolean") (includes BOOLEAN_FIELDS (var_name v))
             && Bool.eqb (var_type v =? "Enum") (includes (keys ENUM_VALUES) (var_name v))
             && Bool.eqb (var_required v) (includes REQUIRED_FIELDS (var_name v)))
          registryVariables = true.
Proof. vm_compute. reflexivity. Qed.

Lemma rule_tables_declared_check :
  forallb (fun k => includes (map var_name registryVariables) k)
          (REQUIRED_FIELDS ++ NUMERIC_FIELDS ++ BOOLEAN_FIELDS ++ keys ENUM_VALUES
           ++ POSTGRES_REQUIRED_FIELDS ++ REDIS_REQUIRED_FIELDS) = true.
Proof. vm_compute. reflexivity. Qed.

Lemma eqb_includes (b : bool) (l : list string) (x : string) :
  Bool.eqb b (includes l x) = true -> (b = true <-> In x l).
Proof. intros H. apply Bool.eqb_prop in H. rewrite H. apply includes_In. Qed.

(** X14. The registry and the validator's tables agree: a declared
    variable is of type Number, Boolean or Enum exactly when it is in
    [NUMERIC_FIELDS], [BOOLEAN_FIELDS] or has an entry in [ENUM_VALUES],
    and is marked required exactly when it is in [REQUIRED_FIELDS]; and
    every field that a validation table names is a declared variable. *)
Theorem registry_agrees_with_rule_tables :
  (forall v, In v registryVariables ->
     (var_type v = "Number" <-> In (var_name v) NUMERIC_FIELDS)
     /\ (var_type v = "Boolean" <-> In (var_name v) BOOLEAN_FIELDS)
     /\ (var_type v = "Enum" <-> In (var_name v) (keys ENUM_VALUES))
     /\ (var_required v = true <-> In (var_name v) REQUIRED_FIELDS))
  /\ (forall k, KnownField k -> In k (map var_name registryVariables)).
Proof.
  split.
  - intros v Hv.
    pose proof (proj1 (forallb_forall _ _) registry_tables_check v Hv) as H.
    repeat (apply andb_true_iff in H as [H ?]).
    repeat split;
      try (rewrite <- (String.eqb_eq (var_type v)); now apply eqb_includes);
      try now apply eqb_includes.
      all: try (intros E; apply (eqb_includes _ _ _ ltac:(eassumption));
                now apply String.eqb_eq).
  - intros k Hk. apply includes_In.
    apply (proj1 (forallb_forall _ _) rule_tables_declared_check).
    unfold KnownField in Hk. rewrite !in_app_iff. tauto.
Qed.

Lemma registry_agrees_with_rule_tables_witness :
  In (mkVar "N8N_PORT" "Number" "5678" true false) registryVariables
  /\ In "N8N_PORT" NUMERIC_FIELDS
  /\ In "N8N_PORT" REQUIRED_FIELDS.
Proof.
  assert (H : In (mkVar "N8N_PORT" "Number" "5678" true false) registryVariables)
    by (vm_compute; auto).
  destruct (proj1 registry_agrees_with_rule_tables _ H) as (Hn & _ & _ & Hr).
  exact (conj H (conj (proj1 Hn eq_refl) (proj1 Hr eq_refl))).
Defined.

(* ====================================================================== *)
(** ** The .env parser and serializer *)

(** *** Lines *)

Lemma splitLines_cons (c : ascii) (s : string) :
  Ascii.eqb c LF = false -> Ascii.eqb c CR = false ->
  splitLines (String c s) = pushChar c (splitLines s).
Proof.
  intros H1 H2. cbn [splitLines]. rewrite H1, H2. now destruct s.
Qed.

Lemma splitLines_line (a : string) : NoLineBreak a -> splitLines a = [a].
Proof.
  unfold NoLineBreak. induction a as [|c a IH]; [reflexivity|].
  cbn [allChars]. intros H. apply andb_true_iff in H as [Hc Ha].
  apply andb_true_iff in Hc as [H1 H2]. apply negb_true_iff in H1, H2.
  rewrite (splitLines_cons _ _ H1 H2), (IH Ha). reflexivity.
Qed.

Lemma splitLines_app (a b : string) :
  NoLineBreak a -> splitLines (a ++ String LF b)%string = a :: splitLines b.
Proof.
  unfold NoLineBreak. induction a as [|c a IH]; [reflexivity|].
  cbn [allChars]. intros H. apply andb_true_iff in H as [Hc Ha].
  apply andb_true_iff in Hc as [H1 H2]. apply negb_true_iff in H1, H2.
  cbn [append]. rewrite (splitLines_cons _ _ H1 H2), (IH Ha). reflexivity.
Qed.

Lemma splitLines_join (l : string) (ls : list string) :
  Forall NoLineBreak (l :: ls) ->
  splitLines (join (String LF "") (l :: ls)) = l :: ls.
Proof.
  revert l. induction ls as [|l' ls IH]; intros l H.
  - apply splitLines_line. now inversion H.
  - inversion H as [|? ? Hl Hls]; subst.
    change (join (String LF "") (l :: l' :: ls))
      with (l ++ String LF (join (String LF "") (l' :: ls)))%string.
    rewrite (splitLines_app _ _ Hl). f_equal. now apply IH.
Qed.

Lemma NoLineBreak_app (a b : string) :
  NoLineBreak (a ++ b)%string <-> NoLineBreak a /\ NoLineBreak b.
Proof.
  unfold NoLineBreak. induction a as [|c a IH]; cbn [append allChars].
  - tauto.
  - rewrite !andb_true_iff, IH. tauto.
Qed.

(** *** Trimming, searching and slicing *)

Lemma trimEnd_head (c : ascii) (s : string) :
  isWhiteSpace c = false -> exists t, trimEnd (String c s) = String c t.
Proof.
  intros H. cbn [trimEnd]. rewrite H. destruct (trimEnd s); eauto.
Qed.

Lemma trim_head (c : ascii) (s : string) :
  isWhiteSpace c = false -> exists t, trim (String c s) = String c t.
Proof.
  intros H. unfold trim. cbn [trimStart]. rewrite H. now apply trimEnd_head.
Qed.

Lemma trimEnd_last (s : string) (c : ascii) :
  isWhiteSpace c = false ->
  trimEnd (s ++ String c "")%string = (s ++ String c "")%string.
Proof.
  intros H. induction s as [|d s IH].
  - cbn. now rewrite H.
  - cbn [append trimEnd]. rewrite IH. now destruct s.
Qed.

Lemma trimEnd_solid (s : string) :
  allChars (fun c => negb (isWhiteSpace c)) s = true -> trimEnd s = s.
Proof.
  induction s as [|c s IH]; [reflexivity|].
  cbn [allChars trimEnd]. intros H. apply andb_true_iff in H as [Hc Hs].
  apply negb_true_iff in Hc. rewrite (IH Hs), Hc. now destruct s.
Qed.

Lemma trim_solid (s : string) :
  allChars (fun c => negb (isWhiteSpace c)) s = true -> trim s = s.
Proof.
  intros H. unfold trim.
  assert (E : trimStart s = s).
  { destruct s as [|c s]; [reflexivity|]. cbn [allChars] in H.
    apply andb_true_iff in H as [Hc _]. apply negb_true_iff in Hc.
    cbn [trimStart]. now rewrite Hc. }
  rewrite E. now apply trimEnd_solid.
Qed.

Lemma allChars_impl (p q : ascii -> bool) (s : string) :
  (forall c, p c = true -> q c = true) ->
  allChars p s = true -> allChars q s = true.
Proof.
  intros Hpq. induction s as [|c s IH]; [reflexivity|].
  cbn [allChars]. rewrite !andb_true_iff. intros [Hc Hs]. auto.
Qed.

Lemma allChars_app (p : ascii -> bool) (a b : string) :
  allChars p (a ++ b)%string = allChars p a && allChars p b.
Proof.
  induction a as [|c a IH]; cbn [append allChars]; [reflexivity|].
  now rewrite IH, andb_assoc.
Qed.

Lemma allChars_trimStart (p : ascii -> bool) (s : string) :
  allChars p s = true -> allChars p (trimStart s) = true.
Proof.
  induction s as [|c s IH]; [reflexivity|].
  intros H. cbn [trimStart]. destruct (isWhiteSpace c); [|exact H].
  cbn [allChars] in H. apply andb_true_iff in H as [_ H]. auto.
Qed.

Lemma allChars_trimEnd (p : ascii -> bool) (s : string) :
  allChars p s = true -> allChars p (trimEnd s) = true.
Proof.
  induction s as [|c s IH]; [reflexivity|].
  cbn [allChars trimEnd]. intros H. apply andb_true_iff in H as [Hc Hs].
  specialize (IH Hs). destruct (trimEnd s) as [|d t].
  - destruct (isWhiteSpace c); cbn [allChars]; [reflexivity | now rewrite Hc].
  - cbn [allChars] in *. now rewrite Hc, IH.
Qed.

Lemma allChars_trim (p : ascii -> bool) (s : string) :
  allChars p s = true -> allChars p (trim s) = true.
Proof. intros H. now apply allChars_trimEnd, allChars_trimStart. Qed.

(** A one-character literal that is nowhere in [s]. *)
Lemma searchFrom_char_false (q : ascii) (s : string) :
  searchFrom (String q "") s = false ->
  allChars (fun c => negb (Ascii.eqb q c)) s = true.
Proof.
  induction s as [|c s IH]; [reflexivity|].
  cbn [searchFrom startsWith allChars]. intros H.
  apply orb_false_iff in H as [Hc Hs].
  rewrite andb_true_r in Hc. now rewrite Hc, (IH Hs).
Qed.

Lemma startsWith_char_false (q : ascii) (s : string) :
  allChars (fun c => negb (Ascii.eqb q c)) s = true ->
  startsWith (String q "") s = false.
Proof.
  destruct s as [|c s]; [reflexivity|].
  cbn [allChars startsWith]. intros H. apply andb_true_iff in H as [Hc _].
  apply negb_true_iff in Hc. now rewrite Hc.
Qed.

Lemma identChar_facts (c : ascii) :
  isIdentChar c = true ->
  isWhiteSpace c = false /\ Ascii.eqb c "="%char = false
  /\ Ascii.eqb c LF = false /\ Ascii.eqb c CR = false
  /\ Ascii.eqb "#"%char c = false.
Proof.
  destruct c as [[] [] [] [] [] [] [] []]; vm_compute; intuition discriminate.
Qed.

Lemma identStart_identChar (c : ascii) :
  isIdentStart c = true -> isIdentChar c = true.
Proof.
  unfold isIdentStart, isIdentChar. intros H.
  apply orb_true_iff in H as [H|H]; rewrite H; [reflexivity | apply orb_true_r].
Qed.

Lemma isIdentifier_chars (k : string) :
  isIdentifier k = true ->
  allChars isIdentChar k = true /\ exists c k', k = String c k'.
Proof.
  destruct k as [|c k]; [discriminate|].
  cbn [isIdentifier allChars]. intros H. apply andb_true_iff in H as [Hc Hk].
  split; [|eauto]. now rewrite (identStart_identChar _ Hc), Hk.
Qed.

Lemma isIdentifier_trim (k : string) : isIdentifier k = true -> trim k = k.
Proof.
  intros H. apply trim_solid. destruct (isIdentifier_chars k H) as [Hk _].
  revert Hk. apply allChars_impl. intros c Hc.
  apply negb_true_iff. apply (identChar_facts c Hc).
Qed.

Lemma isIdentifier_NoLineBreak (k : string) : isIdentifier k = true -> NoLineBreak k.
Proof.
  intros H. destruct (isIdentifier_chars k H) as [Hk _].
  revert Hk. apply allChars_impl. intros c Hc.
  destruct (identChar_facts c Hc) as (_ & _ & H1 & H2 & _). now rewrite H1, H2.
Qed.

Lemma index_equals (k w : string) :
  allChars isIdentChar k = true ->
  String.index 0 "=" (k ++ String "="%char w)%string = Some (String.length k).
Proof.
  induction k as [|c k IH]; cbn [allChars append String.length]; intros H.
  - cbn. destruct (ascii_dec "=" "="); [now destruct w | congruence].
  - apply andb_true_iff in H as [Hc Hk].
    destruct (identChar_facts c Hc) as (_ & He & _).
    cbn [String.index prefix]. destruct (ascii_dec "=" c) as [<-|_].
    + discriminate He.
    + now rewrite (IH Hk).
Qed.

Lemma substring_prefix (k r : string) :
  String.substring 0 (String.length k) (k ++ r)%string = k.
Proof.
  induction k as [|c k IH]; cbn [append String.length String.substring].
  - now destruct r.
  - now rewrite IH.
Qed.

Lemma substring_all (w : string) : String.substring 0 (String.length w) w = w.
Proof. rewrite <- (append_nil_r w) at 2. apply substring_prefix. Qed.

Lemma substring_after (k w : string) :
  String.substring (String.length k + 1)
    (String.length (k ++ String "="%char w)%string - (String.length k + 1))
    (k ++ String "="%char w)%string = w.
Proof.
  induction k as [|c k IH].
  - cbn [append String.length Nat.add Nat.sub String.substring].
    rewrite Nat.sub_0_r. apply substring_all.
  - cbn [append String.length Nat.add String.substring].
    cbn [Nat.sub]. exact IH.
Qed.

Lemma dropLast_last (s : string) (c : ascii) :
  dropLast (s ++ String c "")%string = s.
Proof.
  induction s as [|d s IH]; [reflexivity|].
  cbn [append dropLast]. rewrite IH. now destruct s.
Qed.

Lemma length_append (a b : string) :
  String.length (a ++ b)%string = String.length a + String.length b.
Proof. induction a as [|c a IH]; cbn; [reflexivity | now rewrite IH]. Qed.

Lemma escapeQuotes_NoLineBreak (v : string) :
  NoLineBreak v -> NoLineBreak (escapeQuotes v).
Proof.
  unfold NoLineBreak. induction v as [|c v IH]; [reflexivity|].
  cbn [allChars escapeQuotes]. intros H. apply andb_true_iff in H as [Hc Hv].
  destruct (Ascii.eqb c (ascii_of_nat 34)); cbn [allChars];
    rewrite Hc, (IH Hv); reflexivity.
Qed.

(** *** One line of [parseEnv] *)

Lemma parseEnvLine_skip (r : Config) (line : string) :
  ((trim line =? "")%string || startsWith "#" (trim line)) = true ->
  parseEnvLine (idle r) line = idle r.
Proof.
  intros H. unfold parseEnvLine. cbn [idle env_inMultiline andb]. now rewrite H.
Qed.

Lemma parseEnvLine_comment (r : Config) (rest : string) :
  parseEnvLine (idle r) (String "#"%char rest) = idle r.
Proof.
  apply parseEnvLine_skip.
  destruct (trim_head "#"%char rest eq_refl) as [t ->]. reflexivity.
Qed.

Lemma parseEnvLine_assignment (r : Config) (k w : string) :
  isIdentifier k = true ->
  parseEnvLine (idle r) (k ++ String "="%char w)%string =
    if quotedWith dquote (trim w) || quotedWith "'" (trim w)
    then idle (setProperty k (dropLast (dropFirst (trim w))) r)
    else if startsWith dquote (trim w) || startsWith "'" (trim w)
         then {| env_result := r;
                 env_currentKey := Some k;
                 env_currentValue := [dropFirst (trim w)];
                 env_inMultiline := true;
                 env_quoteChar := firstChar (trim w) |}
         else idle (setProperty k (trim w) r).
Proof.
  intros Hid. destruct (isIdentifier_chars k Hid) as [Hk (c & k' & E)].
  assert (Hc : isIdentChar c = true).
  { rewrite E in Hk. cbn [allChars] in Hk. now apply andb_true_iff in Hk as [Hc _]. }
  destruct (identChar_facts c Hc) as (Hws & _ & _ & _ & Hhash).
  assert (Hline : ((trim (k ++ String "="%char w) =? "")%string
                   || startsWith "#" (trim (k ++ String "="%char w))) = false).
  { rewrite E. cbn [append].
    destruct (trim_head c (k' ++ String "="%char w) Hws) as [t ->].
    cbn [String.eqb startsWith orb]. now rewrite Hhash. }
  assert (Hkey : ((k =? "")%string || negb (isIdentifier k)) = false).
  { rewrite Hid, E. reflexivity. }
  unfold parseEnvLine. cbn [idle env_inMultiline andb].
  rewrite Hline, (index_equals k w Hk), substring_prefix, substring_after.
  rewrite (isIdentifier_trim k Hid), Hkey.
  cbn [env_result env_currentKey env_currentValue env_inMultiline env_quoteChar].
  reflexivity.
Qed.

Lemma quotedWith_false (q t : string) : startsWith q t = false -> quotedWith q t = false.
Proof. intros H. unfold quotedWith. now rewrite H. Qed.

(** An unquoted value is stored trimmed. *)
Lemma parseEnvLine_bare (r : Config) (k w : string) :
  isIdentifier k = true ->
  startsWith dquote (trim w) = false -> startsWith "'" (trim w) = false ->
  parseEnvLine (idle r) (k ++ String "="%char w)%string = idle (setProperty k (trim w) r).
Proof.
  intros Hid H1 H2. rewrite (parseEnvLine_assignment r k w Hid).
  now rewrite (quotedWith_false _ _ H1), (quotedWith_false _ _ H2), H1, H2.
Qed.

(** A value between double quotes is stored without them. *)
Lemma parseEnvLine_quoted (r : Config) (k e : string) :
  isIdentifier k = true ->
  parseEnvLine (idle r) (k ++ String "="%char (dquote ++ e ++ dquote))%string
  = idle (setProperty k e r).
Proof.
  intros Hid. rewrite (parseEnvLine_assignment r k _ Hid).
  assert (Ht : trim (dquote ++ e ++ dquote)%string = (dquote ++ e ++ dquote)%string).
  { unfold trim. change (trimStart (dquote ++ e ++ dquote)%string)
      with (dquote ++ e ++ dquote)%string.
    rewrite <- append_assoc. now apply trimEnd_last. }
  rewrite Ht.
  assert (Hq : quotedWith dquote (dquote ++ e ++ dquote)%string = true).
  { unfold quotedWith. rewrite <- append_assoc at 2. rewrite matchAtEnd_append.
    rewrite !length_append. cbn.
    destruct (String.length e); reflexivity. }
  rewrite Hq. cbn [orb]. change (dropFirst (dquote ++ e ++ dquote)%string)
    with (e ++ dquote)%string.
  unfold dquote at 1. now rewrite dropLast_last.
Qed.

(** *** The loop of [parseEnv] *)

Lemma parseEnv_of_lines (content : string) (r : Config) :
  fold_left parseEnvLine (splitLines content) (idle []) = idle r ->
  parseEnv (Some content) = parsed r.
Proof.
  intros H. unfold parseEnv. change envParserStart with (idle []).
  rewrite H. reflexivity.
Qed.

Lemma splitLines_joined (lines : list string) :
  Forall NoLineBreak lines ->
  splitLines (join newline lines) = match lines with [] => [""] | _ => lines end.
Proof.
  destruct lines as [|l ls]; [reflexivity|]. apply splitLines_join.
Qed.

Lemma fold_assignments (line : string * string -> string) (norm : string -> string)
  (es : Config) :
  (forall k v r, In (k, v) es ->
                 parseEnvLine (idle r) (line (k, v)) = idle (setProperty k (norm v) r)) ->
  forall r,
    fold_left parseEnvLine (map line es) (idle r)
    = idle (fold_left (fun r kv => setProperty (fst kv) (norm (snd kv)) r) es r).
Proof.
  induction es as [|[k v] es IH]; intros H r; [reflexivity|].
  cbn [map fold_left fst snd]. rewrite (H k v r (or_introl eq_refl)).
  apply IH. intros k' v' r' Hin. apply H. now right.
Qed.

Lemma assign_fresh {V : Type} (k : string) (v : V) (o : Obj V) :
  ~ In k (keys o) -> assign k v o = o ++ [(k, v)].
Proof.
  induction o as [|[k' v'] o IH]; cbn [assign keys map fst app In]; [reflexivity|].
  intros H. destruct (String.eqb_spec k' k) as [->|_]; [tauto|].
  f_equal. apply IH. tauto.
Qed.

Lemma setProperty_fresh {V : Type} (k : string) (v : V) (o : Obj V) :
  ~ In k (keys o) ->
  setProperty k v o = if (k =? "__proto__")%string then o else o ++ [(k, v)].
Proof.
  intros H. unfold setProperty.
  destruct (hasKey k o) eqn:E; [apply hasKey_keys in E; contradiction|].
  destruct (k =? "__proto__")%string; [reflexivity | now apply assign_fresh].
Qed.

Lemma deleteProp_app {V : Type} (k : string) (a b : Obj V) :
  deleteProp k (a ++ b) = deleteProp k a ++ deleteProp k b.
Proof. apply filter_app. Qed.

Lemma deleteProp_absent {V : Type} (k : string) (o : Obj V) :
  ~ In k (keys o) -> deleteProp k o = o.
Proof.
  intros H. apply filter_all. intros [k' v] Hin. cbn [fst].
  apply negb_true_iff, string_eqb_false. intros ->.
  apply H. exact (in_map fst o (k, v) Hin).
Qed.

(** Assignments to distinct new keys, in order: each adds its property
    at the end, except the one to [__proto__], which adds nothing. *)
Lemma fold_assign_NoDup (norm : string -> string) (es acc : Config) :
  NoDup (keys (acc ++ es)) ->
  ~ In "__proto__" (keys acc) ->
  fold_left (fun r kv => setProperty (fst kv) (norm (snd kv)) r) es acc
  = acc ++ deleteProp "__proto__" (map (fun kv => (fst kv, norm (snd kv))) es).
Proof.
  revert acc. induction es as [|[k v] es IH]; intros acc H Hp.
  - cbn. now rewrite app_nil_r.
  - cbn [fold_left map fst snd].
    unfold keys in H. rewrite map_app in H. cbn [map fst] in H.
    assert (Hk : ~ In k (keys acc)).
    { apply NoDup_remove_2 in H. rewrite in_app_iff in H. unfold keys. tauto. }
    assert (Hrest : NoDup (keys (acc ++ es))).
    { apply NoDup_remove_1 in H. unfold keys. now rewrite map_app. }
    rewrite (setProperty_fresh k (norm v) acc Hk).
    unfold deleteProp at 1. cbn [filter fst].
    destruct (String.eqb_spec k "__proto__") as [->|Hne]; cbn [negb].
    + now apply IH.
    + rewrite IH.
      * rewrite <- app_assoc. reflexivity.
      * unfold keys. rewrite !map_app, <- app_assoc. exact H.
      * unfold keys. rewrite map_app, in_app_iff. cbn [map fst In].
        intros [Hin|[E|[]]]; [now apply Hp | congruence].
Qed.

Lemma parseEnv_of_assignments (line : string * string -> string)
  (norm : string -> string) (es : Config) (before : list string) :
  NoDup (keys es) ->
  (forall k v r, In (k, v) es ->
                 parseEnvLine (idle r) (line (k, v)) = idle (setProperty k (norm v) r)) ->
  (forall l r, In l before -> parseEnvLine (idle r) l = idle r) ->
  forall content,
    splitLines content = before ++ match es with [] => [""] | _ => map line es end ->
    parseEnv (Some content)
    = parsed (deleteProp "__proto__" (map (fun kv => (fst kv, norm (snd kv))) es)).
Proof.
  intros Hnd Hstep Hbefore content Hlines. apply parseEnv_of_lines.
  rewrite Hlines, fold_left_app.
  assert (E : fold_left parseEnvLine before (idle []) = idle []).
  { clear Hlines. induction before as [|l ls IH]; [reflexivity|].
    cbn [fold_left]. rewrite (Hbefore l [] (or_introl eq_refl)).
    apply IH. intros l' r Hl'. apply Hbefore. now right. }
  rewrite E. destruct es as [|e es]; [reflexivity|].
  rewrite (fold_assignments line norm (e :: es) Hstep).
  f_equal. apply (fold_assign_NoDup norm (e :: es) []); [exact Hnd | intros []].
Qed.

(** *** [serializeEnv] *)

Lemma serializeEnv_lines (config : Config) :
  serializeEnv config
  = join newline (map (fun kv => serializedLine (fst kv) (snd kv)) (serialized config)).
Proof.
  assert (H : forall acc,
             fold_left
               (fun lines (entry : string * string) =>
                  let '(key, value) := entry in
                  if (key =? "")%string || negb (isIdentifier key) then lines
                  else lines ++ [serializedLine key value])
               config acc
             = acc ++ map (fun kv => serializedLine (fst kv) (snd kv))
                          (serialized config)).
  { unfold serialized. induction config as [|[k v] config IH]; intros acc.
    - cbn. now rewrite app_nil_r.
    - cbn [fold_left filter fst].
      destruct (isIdentifier k) eqn:E.
      + assert (Hk : (k =? "")%string = false) by (now destruct k).
        rewrite Hk. cbn [orb negb map fst snd]. rewrite IH.
        rewrite <- app_assoc. reflexivity.
      + rewrite orb_true_r. apply IH. }
  unfold serializeEnv. rewrite H. reflexivity.
Qed.

Lemma escapeQuotes_plain (v : string) :
  searchFrom dquote v = false -> escapeQuotes v = v.
Proof.
  intros H. apply searchFrom_char_false in H.
  induction v as [|c v IH]; [reflexivity|].
  cbn [allChars escapeQuotes] in *. apply andb_true_iff in H as [Hc Hv].
  apply negb_true_iff in Hc. rewrite Ascii.eqb_sym in Hc.
  now rewrite Hc, (IH Hv).
Qed.

Lemma needsQuotes_false (v : string) :
  needsQuotes v = false ->
  searchFrom dquote v = false /\ searchFrom "'" v = false.
Proof.
  unfold needsQuotes. intros H.
  repeat (apply orb_false_iff in H as [H ?]). tauto.
Qed.

Lemma serializedLine_parsed (r : Config) (k v : string) :
  isIdentifier k = true ->
  parseEnvLine (idle r) (serializedLine k v) = idle (setProperty k (envNormal v) r).
Proof.
  intros Hid. unfold serializedLine, envNormal. destruct (needsQuotes v) eqn:E.
  - exact (parseEnvLine_quoted r k (escapeQuotes v) Hid).
  - destruct (needsQuotes_false v E) as [H1 H2].
    apply (parseEnvLine_bare r k v Hid).
    + apply startsWith_char_false, allChars_trim, searchFrom_char_false, H1.
    + apply startsWith_char_false, allChars_trim, searchFrom_char_false, H2.
Qed.

Lemma serializedLine_NoLineBreak (k v : string) :
  isIdentifier k = true -> NoLineBreak v -> NoLineBreak (serializedLine k v).
Proof.
  intros Hid Hv. unfold serializedLine. destruct (needsQuotes v).
  - repeat (apply NoLineBreak_app; split);
      try reflexivity; [now apply isIdentifier_NoLineBreak | now apply escapeQuotes_NoLineBreak].
  - repeat (apply NoLineBreak_app; split);
      try reflexivity; [now apply isIdentifier_NoLineBreak | exact Hv].
Qed.

Lemma NoDup_keys_filter {V : Type} (p : string * V -> bool) (o : Obj V) :
  NoDup (keys o) -> NoDup (keys (filter p o)).
Proof.
  unfold keys. induction o as [|kv o IH]; cbn [filter map]; [auto|].
  intros H. inversion H as [|? ? Hk Ho]; subst.
  destruct (p kv); [|auto]. cbn [map]. constructor; [|auto].
  intros Hin. apply Hk. apply in_map_iff in Hin as [x [E Hx]].
  apply filter_In in Hx as [Hx _]. rewrite <- E. now apply in_map.
Qed.

(** X20. Reading back what [serializeEnv] wrote: for a configuration
    whose values are free of line breaks, [parseEnv] succeeds on the text
    of [serializeEnv] and returns, in the same order, the properties with
    an identifier for key, except a property [__proto__], which the
    assignment of [parseEnv] does not create; a value that was written
    between quotes comes back with a backslash before each of its double
    quotes, a bare one comes back trimmed. *)
Theorem parseEnv_serializeEnv :
  forall (config : Config),
    NoDup (keys config) ->
    (forall k v, In (k, v) config -> isIdentifier k = true -> NoLineBreak v) ->
    parseEnv (Some (serializeEnv config))
    = parsed (deleteProp "__proto__"
                (map (fun kv => (fst kv, envNormal (snd kv))) (serialized config))).
Proof.
  intros config Hnd Hv.
  assert (Hs : forall k v, In (k, v) (serialized config) ->
                           isIdentifier k = true /\ NoLineBreak v).
  { intros k v H. apply filter_In in H as [Hin Hk]. cbn [fst] in Hk.
    split; [exact Hk | now apply (Hv k v)]. }
  apply (parseEnv_of_assignments
           (fun kv => serializedLine (fst kv) (snd kv)) envNormal
           (serialized config) []).
  - now apply NoDup_keys_filter.
  - intros k v r Hin. cbn [fst snd]. apply serializedLine_parsed.
    exact (proj1 (Hs k v Hin)).
  - intros l r [].
  - rewrite serializeEnv_lines, app_nil_l.
    rewrite splitLines_joined; [now destruct (serialized config)|].
    apply Forall_forall. intros l Hl. apply in_map_iff in Hl as [[k v] [<- Hin]].
    cbn [fst snd]. destruct (Hs k v Hin). now apply serializedLine_NoLineBreak.
Qed.

Lemma parseEnv_serializeEnv_witness :
  let config := [ ("N8N_HOST", "localhost");
                  ("NOTE", "say " ++ dquote ++ "hi" ++ dquote);
                  ("not a key", "x");
                  ("__proto__", "p");
                  ("N8N_PORT", " 5678") ]%string in
  NoDup (keys config)
  /\ (forall k v, In (k, v) config -> isIdentifier k = true -> NoLineBreak v)
  /\ parseEnv (Some (serializeEnv config))
     = parsed [ ("N8N_HOST", "localhost");
                ("NOTE", "say " ++ String (ascii_of_nat 92) dquote
                         ++ "hi" ++ String (ascii_of_nat 92) dquote);
                ("N8N_PORT", " 5678") ]%string.
Proof.
  intros config.
  assert (H1 : NoDup (keys config)) by (unfold config; solve_NoDup).
  assert (H2 : forall k v, In (k, v) config -> isIdentifier k = true -> NoLineBreak v).
  { intros k v Hin _. cbn in Hin.
    repeat (destruct Hin as [Hin|Hin]; [injection Hin as <- <-; reflexivity|]).
    destruct Hin. }
  exact (conj H1 (conj H2 (parseEnv_serializeEnv config H1 H2))).
Defined.

(** *** What [parseEnv] keeps true of its keys *)

Lemma KeysAreIdentifiers_assign (st : EnvParser) (k v : string)
  (key : option string) (value : list string) (multi : bool) (q : option string) :
  KeysAreIdentifiers st -> isIdentifier k = true ->
  (forall k', key = Some k' -> isIdentifier k' = true) ->
  KeysAreIdentifiers
    {| env_result := setProperty k v (env_result st);
       env_currentKey := key;
       env_currentValue := value;
       env_inMultiline := multi;
       env_quoteChar := q |}.
Proof.
  intros (Hnd & Hkeys & _) Hk Hkey. unfold KeysAreIdentifiers.
  cbn [env_result env_currentKey].
  assert (Hassign : NoDup (keys (assign k v (env_result st)))
                    /\ forall k', In k' (keys (assign k v (env_result st))) ->
                                  isIdentifier k' = true).
  { split.
    - now apply assign_keys_NoDup.
    - intros k'. rewrite keys_assign. destruct (hasKey k (env_result st)).
      + apply Hkeys.
      + rewrite in_app_iff. intros [H|[<-|[]]]; [now apply Hkeys | exact Hk]. }
  unfold setProperty.
  destruct (hasKey k (env_result st)); [tauto|].
  destruct (k =? "__proto__")%string; tauto.
Qed.

Lemma parseEnvLine_keys (st : EnvParser) (line : string) :
  KeysAreIdentifiers st -> KeysAreIdentifiers (parseEnvLine st line).
Proof.
  intros Hst. pose proof Hst as (Hnd & Hkeys & Hcur). unfold parseEnvLine.
  destruct (env_inMultiline st && truthy (env_currentKey st)).
  - destruct (endsWithQuote (env_quoteChar st) line).
    + destruct (env_currentKey st) as [ck|] eqn:E.
      * apply KeysAreIdentifiers_assign; [exact Hst | now apply Hcur | discriminate].
      * unfold KeysAreIdentifiers. cbn [env_result env_currentKey].
        split; [exact Hnd | split; [exact Hkeys | discriminate]].
    + unfold KeysAreIdentifiers. cbn [env_result env_currentKey]. auto.
  - destruct (_ || _); [exact Hst|].
    destruct (String.index 0 "=" line) as [equalIndex|]; [|exact Hst].
    destruct (_ || negb (isIdentifier _)) eqn:Hkey; [exact Hst|].
    apply orb_false_iff in Hkey as [_ Hkey]. apply negb_false_iff in Hkey.
    destruct (_ || _).
    + now apply KeysAreIdentifiers_assign.
    + destruct (_ || _).
      * unfold KeysAreIdentifiers. cbn [env_result env_currentKey].
        split; [exact Hnd | split; [exact Hkeys|]]. now intros k' [= <-].
      * now apply KeysAreIdentifiers_assign.
Qed.

(** X19. [parseEnv] fails on [null] only; on a text it returns a record
    without duplicate keys in which every key is an identifier
    ([/^[a-zA-Z_][a-zA-Z0-9_]*$/]), whatever the text. *)
Theorem parseEnv_keys_are_identifiers :
  success (parseEnv None) = false
  /\ forall (content : string),
       exists result,
         parseEnv (Some content) = parsed result
         /\ NoDup (keys result)
         /\ forall k, In k (keys result) -> isIdentifier k = true.
Proof.
  split; [reflexivity|]. intros content.
  assert (H : KeysAreIdentifiers (fold_left parseEnvLine (splitLines content) envParserStart)).
  { assert (H0 : KeysAreIdentifiers envParserStart).
    { unfold KeysAreIdentifiers, envParserStart. cbn.
      split; [constructor | split; [tauto | discriminate]]. }
    revert H0. generalize envParserStart.
    induction (splitLines content) as [|l ls IH]; intros st Hst; [exact Hst|].
    cbn [fold_left]. apply IH. now apply parseEnvLine_keys. }
  unfold parseEnv.
  set (st := fold_left parseEnvLine (splitLines content) envParserStart) in *.
  eexists. split; [reflexivity|].
  destruct (env_inMultiline st && truthy (env_currentKey st));
    [|exact (conj (proj1 H) (proj1 (proj2 H)))].
  destruct (env_currentKey st) as [ck|] eqn:E;
    [|exact (conj (proj1 H) (proj1 (proj2 H)))].
  assert (Hck : isIdentifier ck = true) by (now apply (proj2 (proj2 H))).
  pose proof (KeysAreIdentifiers_assign st ck
                (join newline (env_currentValue st)) None [] false None
                H Hck ltac:(discriminate)) as (Hn & Hk & _).
  exact (conj Hn Hk).
Qed.

(** *** From the environment file of the generator back to the record *)

Lemma generateEnvOutput_text (timestamp : string) (entries : list (string * string))
  (options : GeneratorOptions) :
  generateEnvOutput timestamp entries options
  = (("# Generated by n8n Configuration Wizard v"
        ++ orElse (wizardVersion options) "1.0.0")
       ++ String LF (("# Timestamp: " ++ timestamp)
       ++ String LF ("#"
       ++ String LF (join newline (map envLine entries)))))%string.
Proof.
  unfold generateEnvOutput, generateHeader.
  cbn [negb andb String.eqb Ascii.eqb Bool.eqb].
  change "
"%string with (String LF "").
  rewrite !append_assoc. cbn [append]. rewrite ?append_assoc. reflexivity.
Qed.

Lemma envLine_parsed (r : Config) (k v : string) :
  isIdentifier k = true -> PlainValue v ->
  parseEnvLine (idle r) (envLine (k, v)) = idle (setProperty k v r).
Proof.
  intros Hk (_ & Ht & H1 & H2).
  change (envLine (k, v)) with (k ++ String "="%char v)%string.
  rewrite <- Ht at 2. apply parseEnvLine_bare; [exact Hk | |]; now rewrite Ht.
Qed.

Lemma envLine_NoLineBreak (k v : string) :
  isIdentifier k = true -> PlainValue v -> NoLineBreak (envLine (k, v)).
Proof.
  intros Hk (Hv & _). unfold envLine.
  repeat (apply NoLineBreak_app; split);
    try reflexivity; [now apply isIdentifier_NoLineBreak | exact Hv].
Qed.

Lemma outputEntries_plain (config : Config) (mask : bool) :
  (forall k v, In (k, v) config -> v <> "" -> isIdentifier k = true /\ PlainValue v) ->
  forall k v, In (k, v) (outputEntries config mask) ->
              isIdentifier k = true /\ PlainValue v.
Proof.
  intros H k v Hin. apply outputEntries_In in Hin as (v0 & Hin & Hne & ->).
  destruct (H k v0 Hin Hne) as [Hk Hv]. split; [exact Hk|].
  destruct (mask && isSensitiveField k); [|exact Hv].
  repeat split.
Qed.

Lemma outputEntries_NoDup (config : Config) (mask : bool) :
  NoDup (keys config) -> NoDup (keys (outputEntries config mask)).
Proof.
  intros H. unfold outputEntries. rewrite maskSensitiveValues_keys.
  now apply NoDup_keys_filter.
Qed.

(** X22. The environment file of the generator reads back: when the keys
    of the non-empty values are identifiers and these values are plain
    (one line, no white space at either end, no quote in front), and the
    timestamp and the wizard version hold no line break, [parseEnv] on
    the text of [generateOutput] for the format [env] returns exactly the
    entries that were rendered: the non-empty values, masked when masking
    was asked for; except an entry for [__proto__], which the assignment
    of [parseEnv] does not create. *)
Theorem parseEnv_generateOutput_env :
  forall (timestamp : string) (config : Config) (options : GeneratorOptions),
    format options = "env" ->
    NoLineBreak timestamp ->
    NoLineBreak (orElse (wizardVersion options) "1.0.0") ->
    NoDup (keys config) ->
    (forall k v, In (k, v) config -> v <> "" ->
                 isIdentifier k = true /\ PlainValue v) ->
    parseEnv (Some (generateOutput timestamp config (inr options)))
    = parsed (deleteProp "__proto__"
                (outputEntries config
                   (match maskSecrets options with Some b => b | None => false end))).
Proof.
  intros timestamp config options Hf Hts Hver Hnd Hplain.
  unfold generateOutput. rewrite Hf. cbn [String.eqb Ascii.eqb Bool.eqb].
  set (es := outputEntries config _).
  assert (Hes : forall k v, In (k, v) es -> isIdentifier k = true /\ PlainValue v)
    by (apply outputEntries_plain, Hplain).
  rewrite <- (map_id es) at 2.
  rewrite (map_ext id (fun kv => (fst kv, id (snd kv))))
    by (intros [k v]; reflexivity).
  apply (parseEnv_of_assignments envLine id es
           [ ("# Generated by n8n Configuration Wizard v"
                ++ orElse (wizardVersion options) "1.0.0")%string;
             ("# Timestamp: " ++ timestamp)%string;
             "#"%string ]).
  - now apply outputEntries_NoDup.
  - intros k v r Hin. destruct (Hes k v Hin). now apply envLine_parsed.
  - intros l r Hl. cbn [In] in Hl.
    destruct Hl as [<-|[<-|[<-|[]]]]; apply parseEnvLine_comment.
  - rewrite generateEnvOutput_text.
    rewrite !splitLines_app.
    + cbn [app]. do 3 f_equal. rewrite splitLines_joined; [now destruct es|].
      apply Forall_forall. intros l Hl. apply in_map_iff in Hl as [[k v] [<- Hin]].
      destruct (Hes k v Hin). now apply envLine_NoLineBreak.
    + reflexivity.
    + apply NoLineBreak_app. split; [reflexivity | exact Hts].
    + apply NoLineBreak_app. split; [reflexivity | exact Hver].
Qed.

Lemma parseEnv_generateOutput_env_witness :
  let config := [ ("N8N_HOST", "n8n.example.com"); ("N8N_PATH", "");
                  ("__proto__", "p");
                  ("DB_POSTGRESDB_PASSWORD", "s3cret value") ]%string in
  let options := {| format := "env"; composeVersion := None;
                    maskSecrets := Some true; includeComments := None;
                    wizardVersion := None |} in
  format options = "env"
  /\ NoLineBreak "2024-01-01T00:00:00.000Z"
  /\ NoLineBreak (orElse (wizardVersion options) "1.0.0")
  /\ NoDup (keys config)
  /\ (forall k v, In (k, v) config -> v <> "" ->
                  isIdentifier k = true /\ PlainValue v)
  /\ parseEnv (Some (generateOutput "2024-01-01T00:00:00.000Z" config (inr options)))
     = parsed [ ("N8N_HOST", "n8n.example.com");
                ("DB_POSTGRESDB_PASSWORD", "********") ]%string.
Proof.
  intros config options.
  assert (H1 : format options = "env") by reflexivity.
  assert (H2 : NoLineBreak "2024-01-01T00:00:00.000Z") by reflexivity.
  assert (H3 : NoLineBreak (orElse (wizardVersion options) "1.0.0")) by reflexivity.
  assert (H4 : NoDup (keys config)) by (unfold config; solve_NoDup).
  assert (H5 : forall k v, In (k, v) config -> v <> "" ->
                           isIdentifier k = true /\ PlainValue v).
  { intros k v Hin Hne. cbn in Hin.
    destruct Hin as [Hin|[Hin|[Hin|[Hin|[]]]]]; injection Hin as <- <-;
      try (now destruct Hne); repeat split. }
  exact (conj H1 (conj H2 (conj H3 (conj H4 (conj H5
           (parseEnv_generateOutput_env _ config options H1 H2 H3 H4 H5)))))).
Defined.

(* ====================================================================== *)
(** ** The rules of one field, together *)

Lemma ruleIf_silent (b p : bool) (r : FieldValidationRule) :
  (if b && p then [r] else []) = [] <-> (b = true -> p = false).
Proof. destruct b, p; cbn; split; intros H; try congruence; auto. discriminate (H eq_refl). Qed.

Lemma map_nil_iff {A B : Type} (f : A -> B) (l : list A) : map f l = [] <-> l = [].
Proof. destruct l; cbn; split; congruence. Qed.

Lemma app_nil_iff {A : Type} (l l' : list A) : l ++ l' = [] <-> l = [] /\ l' = [].
Proof. split; [apply app_eq_nil | intros [-> ->]; reflexivity]. Qed.

Lemma fieldErrors_nil_iff (field value : string) (config : Config) :
  fieldErrors field value config = [] <->
  (In field REQUIRED_FIELDS -> value <> "")
  /\ (In field NUMERIC_FIELDS -> value = "" \/ IntegerText value)
  /\ (In field BOOLEAN_FIELDS -> value = "" \/ value = "true" \/ value = "false")
  /\ (forall allowed, lookup field ENUM_VALUES = Some allowed ->
                      value = "" \/ In value allowed)
  /\ (In field POSTGRES_REQUIRED_FIELDS ->
      lookup "DB_TYPE" config = Some "postgresdb" -> trim value <> "")
  /\ (In field REDIS_REQUIRED_FIELDS ->
      lookup "EXECUTIONS_MODE" config = Some "queue" -> trim value <> "").
Proof.
  unfold fieldErrors. rewrite map_nil_iff, fieldRules_app.
  rewrite !filter_app, !filter_ruleIf, !app_nil_iff, !ruleIf_silent.
  rewrite !includes_In, !negb_false_iff.
  cbn [rule_validate createRequiredRule createNumericRule createBooleanRule
       createPostgresDependencyRule createRedisDependencyRule
       isEmptyString isDefined isFilled].
  rewrite andb_true_r, negb_true_iff, string_eqb_false.
  rewrite <- usesPostgres_spec, <- usesQueue_spec.
  assert (Hnum : (if (value =? "")%string then true else test Integer value) = true
                 <-> value = "" \/ IntegerText value).
  { destruct (String.eqb_spec value "") as [->|Hne].
    - split; [now left | reflexivity].
    - rewrite test_Integer_spec. tauto. }
  assert (Hbool : (if (value =? "")%string then true
                   else (value =? "true")%string || (value =? "false")%string) = true
                  <-> value = "" \/ value = "true" \/ value = "false").
  { destruct (String.eqb_spec value "") as [->|Hne].
    - split; [now left | reflexivity].
    - rewrite orb_true_iff, !String.eqb_eq. tauto. }
  assert (Henum : filter (fun rule => negb (rule_validate rule (Some value) config))
                         match lookup field ENUM_VALUES with
                         | Some allowed => [enumRule field allowed]
                         | None => []
                         end = []
                  <-> forall allowed, lookup field ENUM_VALUES = Some allowed ->
                                      value = "" \/ In value allowed).
  { destruct (lookup field ENUM_VALUES) as [allowed|].
    - cbn [filter rule_validate enumRule].
      destruct (String.eqb_spec value "") as [->|Hne]; cbn [negb].
      + split; [intros _ a _; now left | reflexivity].
      + destruct (includes allowed value) eqn:E; cbn [negb].
        * apply includes_In in E. split; [|reflexivity].
          intros _ a [= <-]. now right.
        * split; [discriminate|]. intros H. destruct (H allowed eq_refl) as [H'|H'].
          -- contradiction.
          -- apply includes_In in H'. congruence.
    - cbn. split; [discriminate | reflexivity]. }
  assert (Hdep : forall uses : bool,
             (if negb uses then true else negb (trim value =? "")%string) = true
             <-> (uses = true -> trim value <> "")).
  { intros []; cbn [negb].
    - rewrite negb_true_iff, string_eqb_false. tauto.
    - split; [discriminate | reflexivity]. }
  rewrite Hnum, Hbool, Henum, !Hdep. tauto.
Qed.

(** X17. The values a field accepts: [validateField] returns the empty
    list of errors exactly when the rules of the field can be had (the
    field is no key of [Object.prototype], or the cache holds rules for
    it) and the value meets every rule of the tables the field is in. A
    required field needs a value other than the empty string; a numeric,
    boolean or enum field accepts the empty string and otherwise needs an
    integer, [true] or [false], or an allowed value; a field required by
    PostgreSQL or by queue mode needs a value that is not blank when the
    configuration is in that mode. Without rules to be had, the call
    ends with a [TypeError]. *)
Theorem validateField_accepts_iff :
  forall (field value : string) (config : Config) (cache : RulesCache),
    cache_ok cache ->
    (fst (validateField field value config cache) = Returns [] <->
     hasRules cache field = true
     /\ (In field REQUIRED_FIELDS -> value <> "")
     /\ (In field NUMERIC_FIELDS -> value = "" \/ IntegerText value)
     /\ (In field BOOLEAN_FIELDS -> value = "" \/ value = "true" \/ value = "false")
     /\ (forall allowed, lookup field ENUM_VALUES = Some allowed ->
                         value = "" \/ In value allowed)
     /\ (In field POSTGRES_REQUIRED_FIELDS ->
         lookup "DB_TYPE" config = Some "postgresdb" -> trim value <> "")
     /\ (In field REDIS_REQUIRED_FIELDS ->
         lookup "EXECUTIONS_MODE" config = Some "queue" -> trim value <> ""))
    /\ (hasRules cache field = false <->
        fst (validateField field value config cache) = Throws TypeError)
    /\ (OrdinaryKey field -> hasRules cache field = true).
Proof.
  intros field value config cache Hc.
  split; [|split; [|apply hasRules_ordinary]].
  - rewrite <- fieldErrors_nil_iff.
    destruct (validateField_cases field value config cache Hc)
      as [(Hk & He & _)|(Hk & He)]; rewrite He, Hk; cbn [fst].
    + split; [intros [= E]; auto | intros [_ ->]; reflexivity].
    + split; [discriminate | intros [H _]; discriminate H].
  - destruct (validateField_cases field value config cache Hc)
      as [(Hk & He & _)|(Hk & He)]; rewrite He, Hk; cbn [fst].
    + split; discriminate.
    + split; reflexivity.
Qed.

Lemma validateField_accepts_iff_witness :
  cache_ok []
  /\ fst (validateField "N8N_PORT" "5678" [("DB_TYPE", "postgresdb")] []) = Returns []
  /\ fst (validateField "N8N_PORT" "http" [("DB_TYPE", "postgresdb")] []) <> Returns []
  /\ fst (validateField "valueOf" "5678" [("DB_TYPE", "postgresdb")] [])
     = Throws TypeError.
Proof.
  pose proof (validateField_accepts_iff
                "N8N_PORT" "5678" [("DB_TYPE", "postgresdb")] [] cache_ok_nil) as Hgood.
  pose proof (validateField_accepts_iff
                "N8N_PORT" "http" [("DB_TYPE", "postgresdb")] [] cache_ok_nil) as Hbad.
  pose proof (validateField_accepts_iff
                "valueOf" "5678" [("DB_TYPE", "postgresdb")] [] cache_ok_nil) as Hthrow.
  refine (conj cache_ok_nil (conj (proj2 (proj1 Hgood) _) (conj _ _))).
  - refine (conj _ (conj _ (conj _ (conj _ (conj _ (conj _ _)))))).
    + reflexivity.
    + discriminate.
    + intros _. right. apply test_Integer_spec. reflexivity.
    + intros H. apply includes_In in H. vm_compute in H. discriminate H.
    + intros allowed H. discriminate H.
    + intros H. apply includes_In in H. vm_compute in H. discriminate H.
    + intros H. apply includes_In in H. vm_compute in H. discriminate H.
  - intros E. destruct (proj1 (proj1 Hbad) E) as (_ & _ & Hnum & _).
    destruct (Hnum ltac:(cbn; tauto)) as [H|H]; [discriminate H|].
    apply test_Integer_spec in H. discriminate H.
  - exact (proj1 (proj1 (proj2 Hthrow)) eq_refl).
Defined.

Lemma registry_defaults_check :
  forallb (fun v =>
             let d := var_default v in
             (d =? "")%string
             || (negb (trim d =? "")%string
                 && (negb (includes NUMERIC_FIELDS (var_name v)) || test Integer d)
                 && (negb (includes BOOLEAN_FIELDS (var_name v))
                     || (d =? "true")%string || (d =? "false")%string)
                 && match lookup (var_name v) ENUM_VALUES with
                    | Some allowed => includes allowed d
                    | None => true
                    end))
          registryVariables = true.
Proof. vm_compute. reflexivity. Qed.

(** X18. The defaults of the registry are valid: for every declared
    variable with a non-empty default, [validateField] on that default
    returns no error, in whatever configuration. *)
Theorem registry_defaults_validate :
  forall (v : EnvVariable) (config : Config) (cache : RulesCache),
    cache_ok cache ->
    In v registryVariables ->
    var_default v <> "" ->
    fst (validateField (var_name v) (var_default v) config cache) = Returns [].
Proof.
  intros v config cache Hc Hv Hd.
  assert (Hord : OrdinaryKey (var_name v)).
  { assert (Hreg : forallb (fun v => negb (inheritsKey (var_name v)))
                           registryVariables = true) by (vm_compute; reflexivity).
    rewrite forallb_forall in Hreg. apply negb_true_iff. now apply Hreg. }
  destruct (validateField_ok (var_name v) (var_default v) config cache Hc Hord)
    as [-> _].
  f_equal.
  pose proof (proj1 (forallb_forall _ _) registry_defaults_check v Hv) as H.
  cbv beta zeta in H. apply string_eqb_false in Hd. rewrite Hd in H. cbn [orb] in H.
  repeat (apply andb_true_iff in H as [H ?]).
  apply negb_true_iff, string_eqb_false in H.
  apply string_eqb_false in Hd.
  apply fieldErrors_nil_iff. refine (conj _ (conj _ (conj _ (conj _ (conj _ _))))).
  - intros _. exact Hd.
  - intros Hin. apply includes_In in Hin. right. apply test_Integer_spec.
    rewrite Hin in *. assumption.
  - intros Hin. apply includes_In in Hin. right. rewrite Hin in *.
    match goal with
    | Hb : (negb true || _ || _) = true |- _ =>
        cbn [negb orb] in Hb; apply orb_true_iff in Hb as [Hb|Hb];
        apply String.eqb_eq in Hb; tauto
    end.
  - intros allowed E. right. apply includes_In.
    match goal with
    | He : match lookup _ ENUM_VALUES with Some _ => _ | None => _ end = true |- _ =>
        rewrite E in He; exact He
    end.
  - intros _ _. exact H.
  - intros _ _. exact H.
Qed.

Lemma registry_defaults_validate_witness :
  cache_ok []
  /\ In (mkVar "N8N_PORT" "Number" "5678" true false) registryVariables
  /\ "5678" <> ""
  /\ fst (validateField "N8N_PORT" "5678" [("DB_TYPE", "postgresdb")] []) = Returns [].
Proof.
  assert (H : In (mkVar "N8N_PORT" "Number" "5678" true false) registryVariables)
    by (vm_compute; auto).
  assert (Hd : "5678" <> "") by discriminate.
  exact (conj cache_ok_nil (conj H (conj Hd
           (registry_defaults_validate _ [("DB_TYPE", "postgresdb")] []
              cache_ok_nil H Hd)))).
Defined.

(* ====================================================================== *)
(** ** More on the output generator *)

Lemma lookup_filter_absent {V : Type} (p : string * V -> bool) (k : string) (o : Obj V) :
  ~ In k (keys o) -> lookup k (filter p o) = None.
Proof.
  intros H. apply lookup_None_keys. intros Hin. apply H.
  unfold keys in *. apply in_map_iff in Hin as [x [E Hx]].
  apply filter_In in Hx as [Hx _]. rewrite <- E. now apply in_map.
Qed.

Lemma lookup_nonEmpty (k : string) (config : Config) :
  NoDup (keys config) ->
  lookup k (nonEmpty config)
  = match lookup k config with
    | Some v => if (v =? "")%string then None else Some v
    | None => None
    end.
Proof.
  unfold nonEmpty. induction config as [|[k' v'] o IH]; [reflexivity|].
  cbn [keys map fst]. intros H. inversion H as [|? ? Hk Ho]; subst.
  cbn [filter snd lookup]. destruct (String.eqb_spec k' k) as [->|Hne].
  - destruct (v' =? "")%string; cbn [negb lookup].
    + now apply lookup_filter_absent.
    + now rewrite String.eqb_refl.
  - destruct (v' =? "")%string; cbn [negb lookup].
    + now apply IH.
    + apply String.eqb_neq in Hne. rewrite Hne. now apply IH.
Qed.

Lemma orElse_nonEmpty (k fallback : string) (config : Config) :
  NoDup (keys config) ->
  orElse (lookup k (nonEmpty config)) fallback = orElse (lookup k config) fallback.
Proof.
  intros H. rewrite (lookup_nonEmpty k config H).
  destruct (lookup k config) as [v|]; [|reflexivity].
  cbn [orElse]. destruct (v =? "")%string eqn:E; cbn [orElse]; now rewrite ?E.
Qed.

Lemma usesPostgres_nonEmpty (config : Config) :
  NoDup (keys config) -> usesPostgres (nonEmpty config) = usesPostgres config.
Proof.
  intros H. unfold usesPostgres. rewrite (lookup_nonEmpty _ config H).
  destruct (lookup "DB_TYPE" config) as [v|]; [|reflexivity].
  destruct (String.eqb_spec v "") as [->|_]; reflexivity.
Qed.

Lemma usesQueue_nonEmpty (config : Config) :
  NoDup (keys config) -> usesQueue (nonEmpty config) = usesQueue config.
Proof.
  intros H. unfold usesQueue. rewrite (lookup_nonEmpty _ config H).
  destruct (lookup "EXECUTIONS_MODE" config) as [v|]; [|reflexivity].
  destruct (String.eqb_spec v "") as [->|_]; reflexivity.
Qed.

Lemma outputEntries_nonEmpty (config : Config) (mask : bool) :
  outputEntries (nonEmpty config) mask = outputEntries config mask.
Proof.
  unfold outputEntries, nonEmpty. f_equal.
  induction config as [|[k v] o IH]; [reflexivity|].
  cbn [filter snd]. destruct (v =? "")%string eqn:E; cbn [negb filter].
  - exact IH.
  - rewrite E. cbn [negb]. now rewrite IH.
Qed.

(** X15. A property whose value is the empty string is as good as
    absent: in every format and under every option, the document
    generated for a configuration is the one generated for its non-empty
    properties alone. *)
Theorem generateOutput_ignores_empty_values :
  forall (timestamp : string) (config : Config)
         (formatOrOptions : OutputFormat + GeneratorOptions),
    NoDup (keys config) ->
    generateOutput timestamp (nonEmpty config) formatOrOptions
    = generateOutput timestamp config formatOrOptions.
Proof.
  intros timestamp config fo H. unfold generateOutput.
  rewrite outputEntries_nonEmpty.
  destruct (_ =? "env")%string; [reflexivity|].
  destruct (_ =? "docker-compose")%string.
  { unfold generateDockerComposeOutput.
    now rewrite !(orElse_nonEmpty _ _ config H),
                (usesPostgres_nonEmpty config H), (usesQueue_nonEmpty config H). }
  destruct (_ =? "docker-run")%string.
  { unfold generateDockerRunOutput. now rewrite (orElse_nonEmpty _ _ config H). }
  reflexivity.
Qed.

Lemma generateOutput_ignores_empty_values_witness :
  let config := [("N8N_PORT", ""); ("DB_TYPE", ""); ("N8N_HOST", "example.org")]%string in
  NoDup (keys config)
  /\ generateOutput "2024-01-01T00:00:00.000Z" [("N8N_HOST", "example.org")]
                    (inl "docker-compose")
     = generateOutput "2024-01-01T00:00:00.000Z" config (inl "docker-compose").
Proof.
  intros config.
  assert (H : NoDup (keys config)) by (unfold config; solve_NoDup).
  exact (conj H (generateOutput_ignores_empty_values _ config (inl "docker-compose") H)).
Defined.

Lemma postgresServiceBlock_password (comment user password database : string) :
  exists before after,
    postgresServiceBlock comment user password database
    = (before ++ "      - POSTGRES_PASSWORD=" ++ password ++ newline ++ after)%string.
Proof.
  exists ("
" ++ comment ++ "  postgres:
    image: postgres:15-alpine
    restart: always
    environment:
      - POSTGRES_USER=" ++ user ++ newline)%string.
  exists ("      - POSTGRES_DB=" ++ database ++ "
    volumes:
      - postgres_data:/var/lib/postgresql/data
")%string.
  unfold postgresServiceBlock, newline.
  repeat (rewrite ?append_assoc; cbn [append]).
  reflexivity.
Qed.

(** X16. Masking does not reach the database service of the compose
    document: with [maskSecrets] on and PostgreSQL in use, the entry for
    [DB_POSTGRESDB_PASSWORD] is written with the placeholder, while the
    [POSTGRES_PASSWORD] line of the postgres service still carries the
    password of the configuration. *)
Theorem compose_postgres_password_not_masked :
  forall (timestamp : string) (config : Config) (options : GeneratorOptions)
         (password : string),
    format options = "docker-compose" ->
    maskSecrets options = Some true ->
    lookup "DB_TYPE" config = Some "postgresdb" ->
    lookup "DB_POSTGRESDB_PASSWORD" config = Some password ->
    password <> "" ->
    In ("DB_POSTGRESDB_PASSWORD", SECRET_PLACEHOLDER) (outputEntries config true)
    /\ exists before after,
         generateOutput timestamp config (inr options)
         = (before ++ "      - POSTGRES_PASSWORD=" ++ password ++ newline ++ after)%string.
Proof.
  intros timestamp config options password Hf Hm Hdb Hp Hne. split.
  - apply outputEntries_In. exists password.
    split; [now apply lookup_Some_In | split; [exact Hne | reflexivity]].
  - unfold generateOutput. rewrite Hf, Hm.
    cbn [String.eqb Ascii.eqb Bool.eqb].
    rewrite generateDockerComposeOutput_sections. cbv zeta.
    rewrite (proj2 (usesPostgres_spec config) Hdb), Hp.
    assert (E : orElse (Some password) "password" = password).
    { cbn [orElse]. apply string_eqb_false in Hne. now rewrite Hne. }
    rewrite E.
    destruct (postgresServiceBlock_password
                (postgresCommentText (flag (includeComments options)))
                (orElse (lookup "DB_POSTGRESDB_USER" config) "postgres")
                password
                (orElse (lookup "DB_POSTGRESDB_DATABASE" config) "n8n"))
      as (pre & post & ->).
    match goal with
    | |- exists before after, (?a ++ (pre ++ ?l ++ password ++ ?n ++ post) ++ ?rest)%string = _ =>
        exists (a ++ pre)%string, (post ++ rest)%string;
        now rewrite !append_assoc
    end.
Qed.

Lemma compose_postgres_password_not_masked_witness :
  let config := [("DB_TYPE", "postgresdb"); ("DB_POSTGRESDB_PASSWORD", "hunter2")]%string in
  let options := {| format := "docker-compose"; composeVersion := None;
                    maskSecrets := Some true; includeComments := None;
                    wizardVersion := None |} in
  format options = "docker-compose"
  /\ maskSecrets options = Some true
  /\ lookup "DB_TYPE" config = Some "postgresdb"
  /\ lookup "DB_POSTGRESDB_PASSWORD" config = Some "hunter2"
  /\ "hunter2" <> ""
  /\ In ("DB_POSTGRESDB_PASSWORD", "********") (outputEntries config true).
Proof.
  intros config options.
  assert (Hne : "hunter2" <> "") by discriminate.
  exact (conj eq_refl (conj eq_refl (conj eq_refl (conj eq_refl (conj Hne
           (proj1 (compose_postgres_password_not_masked
                     "2024-01-01T00:00:00.000Z" config options "hunter2"
                     eq_refl eq_refl eq_refl eq_refl Hne))))))).
Defined.

(* ====================================================================== *)
(** ** Values on several lines in the .env text *)

Lemma splitLines_nonempty (s : string) : splitLines s <> [].
Proof.
  induction s as [|c s IH]; [discriminate|].
  cbn [splitLines]. destruct (Ascii.eqb c LF); [discriminate|].
  assert (H : pushChar c (splitLines s) <> []).
  { destruct (splitLines s); discriminate. }
  destruct s as [|d s']; [exact H|].
  destruct (Ascii.eqb c CR && Ascii.eqb d LF); [discriminate | exact H].
Qed.

Lemma join_cons (sep l : string) (ls : list string) :
  ls <> [] -> join sep (l :: ls) = (l ++ sep ++ join sep ls)%string.
Proof. destruct ls; [congruence | reflexivity]. Qed.

Lemma join_pushChar (c : ascii) (ls : list string) :
  ls <> [] -> join newline (pushChar c ls) = String c (join newline ls).
Proof.
  destruct ls as [|l ls]; [congruence|]. intros _.
  destruct ls; reflexivity.
Qed.

Lemma NoCarriageReturn_cons (c : ascii) (s : string) :
  NoCarriageReturn (String c s) -> Ascii.eqb c CR = false /\ NoCarriageReturn s.
Proof.
  unfold NoCarriageReturn. cbn [allChars]. intros H.
  apply andb_true_iff in H as [H1 H2]. apply negb_true_iff in H1. auto.
Qed.

Lemma splitLines_step (c : ascii) (s : string) :
  Ascii.eqb c CR = false ->
  splitLines (String c s)
  = if Ascii.eqb c LF then "" :: splitLines s else pushChar c (splitLines s).
Proof.
  intros H. cbn [splitLines]. rewrite H. now destruct s.
Qed.

Lemma join_splitLines (v : string) :
  NoCarriageReturn v -> join newline (splitLines v) = v.
Proof.
  induction v as [|c v IH]; [reflexivity|].
  intros H. apply NoCarriageReturn_cons in H as [Hc Hv].
  rewrite (splitLines_step c v Hc). destruct (Ascii.eqb_spec c LF) as [->|_].
  - rewrite (join_cons _ _ _ (splitLines_nonempty v)), (IH Hv). reflexivity.
  - rewrite (join_pushChar c _ (splitLines_nonempty v)), (IH Hv). reflexivity.
Qed.

Lemma Forall_pushChar (P : string -> Prop) (c : ascii) (ls : list string) :
  (forall l, P l -> P (String c l)) -> P (String c "") ->
  Forall P ls -> Forall P (pushChar c ls).
Proof.
  intros Hc H0 H. destruct H as [|l ls Hl Hls]; cbn [pushChar].
  - constructor; [exact H0 | constructor].
  - constructor; [now apply Hc | exact Hls].
Qed.

Lemma splitLines_NoLineBreak (v : string) :
  NoCarriageReturn v -> Forall NoLineBreak (splitLines v).
Proof.
  induction v as [|c v IH]; [repeat constructor|].
  intros H. apply NoCarriageReturn_cons in H as [Hc Hv].
  rewrite (splitLines_step c v Hc). destruct (Ascii.eqb c LF) eqn:E.
  - constructor; [reflexivity | now apply IH].
  - apply Forall_pushChar; [| |now apply IH].
    + intros l Hl. unfold NoLineBreak in *. cbn [allChars]. now rewrite E, Hc, Hl.
    + unfold NoLineBreak. cbn [allChars]. now rewrite E, Hc.
Qed.

Lemma splitLines_allChars (p : ascii -> bool) (v : string) :
  NoCarriageReturn v -> allChars p v = true ->
  Forall (fun l => allChars p l = true) (splitLines v).
Proof.
  induction v as [|c v IH]; [repeat constructor|].
  intros H. apply NoCarriageReturn_cons in H as [Hcr Hnv].
  cbn [allChars]. intros H. apply andb_true_iff in H as [Hc Hv].
  rewrite (splitLines_step c v Hcr). destruct (Ascii.eqb c LF).
  - constructor; [reflexivity | now apply IH].
  - apply Forall_pushChar; [| |now apply IH].
    + intros l Hl. cbn [allChars]. now rewrite Hc, Hl.
    + cbn [allChars]. now rewrite Hc.
Qed.

(** *** Joining lines *)

Lemma join_app (sep : string) (l1 l2 : list string) :
  l1 <> [] -> l2 <> [] ->
  join sep (l1 ++ l2) = (join sep l1 ++ sep ++ join sep l2)%string.
Proof.
  intros H1 H2. induction l1 as [|x l1 IH]; [congruence|].
  destruct l1 as [|y l1].
  - cbn [app]. now rewrite (join_cons sep x l2 H2).
  - change ((x :: y :: l1) ++ l2) with (x :: (y :: l1) ++ l2).
    rewrite (join_cons sep x ((y :: l1) ++ l2)) by discriminate.
    rewrite IH by discriminate.
    rewrite (join_cons sep x (y :: l1)) by discriminate.
    now rewrite !append_assoc.
Qed.

Lemma join_flat_map {A : Type} (sep : string) (g : A -> list string) (es : list A) :
  (forall e, In e es -> g e <> []) ->
  join sep (flat_map g es) = join sep (map (fun e => join sep (g e)) es).
Proof.
  induction es as [|e es IH]; [reflexivity|]. intros H.
  cbn [flat_map map]. destruct es as [|e' es].
  - cbn [flat_map map]. now rewrite app_nil_r.
  - assert (Hne : flat_map g (e' :: es) <> []).
    { cbn [flat_map]. pose proof (H e' (or_intror (or_introl eq_refl))).
      destruct (g e'); [congruence | discriminate]. }
    rewrite (join_app sep _ _ (H e (or_introl eq_refl)) Hne).
    rewrite IH by (intros x Hx; apply H; now right).
    now rewrite (join_cons sep _ (map _ (e' :: es))) by discriminate.
Qed.

Lemma appendLast_snoc (q x : string) (xs : list string) :
  appendLast q (xs ++ [x]) = xs ++ [(x ++ q)%string].
Proof.
  induction xs as [|y xs IH]; [reflexivity|].
  cbn [app appendLast]. rewrite IH. now destruct xs.
Qed.

Lemma join_appendLast (sep q : string) (ls : list string) :
  ls <> [] -> join sep (appendLast q ls) = (join sep ls ++ q)%string.
Proof.
  intros H. destruct (exists_last H) as (xs & x & ->). rewrite appendLast_snoc.
  destruct xs as [|y xs]; [reflexivity|].
  rewrite !(join_app sep (y :: xs)) by discriminate.
  cbn [join String.concat]. now rewrite !append_assoc.
Qed.

Lemma join_prependFirst (sep p : string) (ls : list string) :
  ls <> [] -> join sep (prependFirst p ls) = (p ++ join sep ls)%string.
Proof.
  destruct ls as [|l ls]; [congruence|]. intros _. cbn [prependFirst].
  destruct ls as [|l' ls]; [reflexivity|].
  rewrite !(join_cons sep _ (l' :: ls)) by discriminate. now rewrite append_assoc.
Qed.

Lemma appendLast_nonempty (q : string) (ls : list string) :
  ls <> [] -> appendLast q ls <> [].
Proof. destruct ls as [|l [|l' ls]]; [congruence | discriminate | discriminate]. Qed.

Lemma prependFirst_nonempty (p : string) (ls : list string) :
  ls <> [] -> prependFirst p ls <> [].
Proof. destruct ls; [congruence | discriminate]. Qed.

Lemma serializedLines_nonempty (k v : string) : serializedLines k v <> [].
Proof.
  unfold serializedLines. destruct (needsQuotes v); [|discriminate].
  apply prependFirst_nonempty, appendLast_nonempty, splitLines_nonempty.
Qed.

Lemma serializedLine_lines (k v : string) :
  NoCarriageReturn v -> searchFrom dquote v = false ->
  serializedLine k v = join newline (serializedLines k v).
Proof.
  intros Hcr Hq. unfold serializedLine, serializedLines.
  destruct (needsQuotes v); [|reflexivity].
  rewrite (escapeQuotes_plain v Hq).
  rewrite join_prependFirst by (apply appendLast_nonempty, splitLines_nonempty).
  rewrite join_appendLast by apply splitLines_nonempty.
  rewrite (join_splitLines v Hcr). now rewrite !append_assoc.
Qed.

(** *** The loop of [parseEnv] inside a quoted value *)

Lemma matchAtEnd_char_false (q : ascii) (s : string) :
  allChars (fun c => negb (Ascii.eqb q c)) s = true ->
  matchAtEnd (String q "") s = false.
Proof.
  induction s as [|c s IH]; [reflexivity|].
  cbn [allChars matchAtEnd String.eqb]. intros H.
  apply andb_true_iff in H as [Hc Hs]. apply negb_true_iff in Hc.
  rewrite Ascii.eqb_sym in Hc. now rewrite Hc, (IH Hs).
Qed.

Lemma trimEnd_cons (c : ascii) (s : string) :
  isWhiteSpace c = false -> trimEnd (String c s) = String c (trimEnd s).
Proof. intros H. cbn [trimEnd]. rewrite H. now destruct (trimEnd s). Qed.

Lemma parseEnvLine_open (r : Config) (k l : string) :
  isIdentifier k = true ->
  searchFrom dquote l = false -> trimEnd l = l ->
  parseEnvLine (idle r) (k ++ "=" ++ dquote ++ l)%string = reading r k [l].
Proof.
  intros Hk Hq Ht.
  change (k ++ "=" ++ dquote ++ l)%string
    with (k ++ String "="%char (String (ascii_of_nat 34) l))%string.
  rewrite (parseEnvLine_assignment r k _ Hk).
  assert (E : trim (String (ascii_of_nat 34) l) = String (ascii_of_nat 34) l).
  { unfold trim. cbn [trimStart]. change (isWhiteSpace (ascii_of_nat 34)) with false.
    cbv iota. rewrite trimEnd_cons by reflexivity. now rewrite Ht. }
  rewrite E.
  assert (Hq1 : quotedWith dquote (String (ascii_of_nat 34) l) = false).
  { unfold quotedWith. destruct l as [|c l]; [reflexivity|].
    apply searchFrom_char_false in Hq. apply matchAtEnd_char_false in Hq.
    assert (M : matchAtEnd dquote (String (ascii_of_nat 34) (String c l)) = false).
    { change (matchAtEnd dquote (String (ascii_of_nat 34) (String c l)))
        with ((String (ascii_of_nat 34) (String c l) =? dquote)%string
              || matchAtEnd dquote (String c l)).
      unfold dquote. rewrite Hq. reflexivity. }
    rewrite M. now rewrite andb_false_r. }
  rewrite Hq1. reflexivity.
Qed.

Lemma parseEnvLine_continue (r : Config) (k : string) (acc : list string) (m : string) :
  isIdentifier k = true -> searchFrom dquote m = false ->
  parseEnvLine (reading r k acc) m = reading r k (acc ++ [m]).
Proof.
  intros Hk Hq. unfold parseEnvLine, reading.
  cbn [env_inMultiline env_currentKey env_currentValue env_quoteChar env_result
       truthy endsWithQuote andb].
  assert (Hne : (k =? "")%string = false) by (now destruct k).
  rewrite Hne. cbn [negb].
  apply searchFrom_char_false, matchAtEnd_char_false in Hq.
  unfold dquote. now rewrite Hq.
Qed.

Lemma parseEnvLine_close (r : Config) (k : string) (acc : list string) (l : string) :
  isIdentifier k = true ->
  parseEnvLine (reading r k acc) (l ++ dquote)%string
  = idle (setProperty k (join newline (acc ++ [l])) r).
Proof.
  intros Hk. unfold parseEnvLine, reading.
  cbn [env_inMultiline env_currentKey env_currentValue env_quoteChar env_result
       truthy endsWithQuote andb].
  assert (Hne : (k =? "")%string = false) by (now destruct k).
  rewrite Hne. cbn [negb]. rewrite matchAtEnd_append.
  change "
"%string with newline.
  assert (E : join newline (acc ++ [(l ++ dquote)%string])
              = (join newline (acc ++ [l]) ++ dquote)%string).
  { rewrite <- appendLast_snoc. apply join_appendLast. now destruct acc. }
  rewrite E. unfold dquote at 1. rewrite dropLast_last. reflexivity.
Qed.

Lemma reading_lines (r : Config) (k : string) (ms acc : list string) :
  isIdentifier k = true ->
  Forall (fun m => searchFrom dquote m = false) ms ->
  fold_left parseEnvLine ms (reading r k acc) = reading r k (acc ++ ms).
Proof.
  intros Hk H. revert acc. induction H as [|m ms Hm Hms IH]; intros acc.
  - now rewrite app_nil_r.
  - cbn [fold_left]. rewrite (parseEnvLine_continue r k acc m Hk Hm), IH.
    now rewrite <- app_assoc.
Qed.

Lemma searchFrom_char_absent (q : ascii) (s : string) :
  allChars (fun c => negb (Ascii.eqb q c)) s = true ->
  searchFrom (String q "") s = false.
Proof.
  induction s as [|c s IH]; [reflexivity|].
  cbn [allChars searchFrom startsWith]. intros H.
  apply andb_true_iff in H as [Hc Hs]. apply negb_true_iff in Hc.
  now rewrite Hc, (IH Hs).
Qed.

Lemma no_newline_one_line (v : string) :
  NoCarriageReturn v -> searchFrom newline v = false -> NoLineBreak v.
Proof.
  intros Hcr Hlf. apply (searchFrom_char_false LF) in Hlf.
  unfold NoLineBreak, NoCarriageReturn in *.
  induction v as [|c v IH]; [reflexivity|].
  cbn [allChars] in *. apply andb_true_iff in Hcr as [H1 H2].
  apply andb_true_iff in Hlf as [H3 H4].
  rewrite (IH H2 H4), H1. rewrite Ascii.eqb_sym in H3. now rewrite H3.
Qed.

Lemma line_assoc (k a b : string) :
  ((k ++ "=" ++ a) ++ b)%string = (k ++ String "="%char (a ++ b))%string.
Proof. now rewrite append_assoc. Qed.

Lemma serializedLines_parsed (r : Config) (k v : string) :
  isIdentifier k = true -> EnvSafe v ->
  fold_left parseEnvLine (serializedLines k v) (idle r) = idle (setProperty k v r).
Proof.
  intros Hk (Hcr & Hq & Hbare & Hfirst). unfold serializedLines.
  destruct (needsQuotes v) eqn:E.
  - pose proof (join_splitLines v Hcr) as Hjoin.
    assert (Hlines : Forall (fun l => searchFrom dquote l = false) (splitLines v)).
    { apply searchFrom_char_false in Hq.
      pose proof (splitLines_allChars _ v Hcr Hq) as H.
      revert H. apply Forall_impl. intros l. apply searchFrom_char_absent. }
    unfold firstLine in Hfirst.
    destruct (splitLines v) as [|l0 ls] eqn:Es; [now destruct (splitLines_nonempty v)|].
    destruct ls as [|l1 ls].
    + cbn [appendLast prependFirst fold_left]. cbn in Hjoin. subst l0.
      rewrite line_assoc.
      exact (parseEnvLine_quoted r k v Hk).
    + assert (Hlf : searchFrom newline v = true).
      { destruct (searchFrom newline v) eqn:F; [reflexivity|].
        pose proof (splitLines_line v (no_newline_one_line v Hcr F)) as H.
        rewrite Es in H. discriminate H. }
      specialize (Hfirst Hlf). cbn [hd] in Hfirst.
      destruct (@exists_last _ (l1 :: ls) ltac:(discriminate)) as (ms & ln & Hms).
      rewrite Hms in *.
      inversion Hlines as [|? ? Hl0 Hrest]; clear Hlines.
      apply Forall_app in Hrest as [Hmid _].
      assert (Hsnoc : appendLast dquote (l0 :: ms ++ [ln])
                      = l0 :: ms ++ [(ln ++ dquote)%string]).
      { change (l0 :: ms ++ [ln]) with ((l0 :: ms) ++ [ln]).
        now rewrite appendLast_snoc. }
      rewrite Hsnoc. cbn [prependFirst fold_left].
      rewrite line_assoc.
      change (k ++ String "="%char (dquote ++ l0))%string
        with (k ++ "=" ++ dquote ++ l0)%string.
      rewrite (parseEnvLine_open r k l0 Hk Hl0 Hfirst).
      rewrite fold_left_app. rewrite (reading_lines r k ms [l0] Hk Hmid).
      cbn [fold_left]. rewrite (parseEnvLine_close r k _ ln Hk).
      cbn [app] in *. now rewrite Hjoin.
  - cbn [fold_left]. destruct (needsQuotes_false v E) as [H1 H2].
    specialize (Hbare eq_refl).
    change (k ++ "=" ++ v)%string with (k ++ String "="%char v)%string.
    rewrite <- Hbare at 2. apply parseEnvLine_bare; [exact Hk | |]; rewrite Hbare.
    + apply startsWith_char_false, searchFrom_char_false, H1.
    + apply startsWith_char_false, searchFrom_char_false, H2.
Qed.

Lemma parseEnv_of_entries (g : string * string -> list string) (es : Config)
  (content : string) :
  NoDup (keys es) ->
  (forall k v r, In (k, v) es ->
                 fold_left parseEnvLine (g (k, v)) (idle r) = idle (setProperty k v r)) ->
  splitLines content = match es with [] => [""] | _ => flat_map g es end ->
  parseEnv (Some content) = parsed (deleteProp "__proto__" es).
Proof.
  intros Hnd Hstep Hlines. apply parseEnv_of_lines. rewrite Hlines.
  assert (H : forall r,
             fold_left parseEnvLine (flat_map g es) (idle r)
             = idle (fold_left (fun r kv => setProperty (fst kv) (id (snd kv)) r) es r)).
  { clear Hlines Hnd. induction es as [|[k v] es IH]; intros r; [reflexivity|].
    cbn [flat_map fold_left fst snd]. rewrite fold_left_app.
    rewrite (Hstep k v r (or_introl eq_refl)).
    apply IH. intros k' v' r' Hin. apply Hstep. now right. }
  destruct es as [|e es]; [reflexivity|].
  rewrite H, (fold_assign_NoDup id (e :: es) [] Hnd) by (intros []).
  cbn [app]. do 2 f_equal. rewrite <- (map_id (e :: es)) at 2.
  apply map_ext. now intros [k v].
Qed.

Lemma Forall_appendLast (P : string -> Prop) (q : string) (ls : list string) :
  (forall l, P l -> P (l ++ q)%string) -> Forall P ls -> Forall P (appendLast q ls).
Proof.
  intros Hq H. induction H as [|l ls Hl Hls IH]; [constructor|].
  cbn [appendLast]. destruct ls as [|l' ls].
  - constructor; [now apply Hq | constructor].
  - constructor; [exact Hl | exact IH].
Qed.

Lemma Forall_prependFirst (P : string -> Prop) (p : string) (ls : list string) :
  (forall l, P l -> P (p ++ l)%string) -> Forall P ls -> Forall P (prependFirst p ls).
Proof.
  intros Hp H. destruct H as [|l ls Hl Hls]; [constructor|].
  cbn [prependFirst]. constructor; [now apply Hp | exact Hls].
Qed.

Lemma serializedLines_NoLineBreak (k v : string) :
  isIdentifier k = true -> NoCarriageReturn v ->
  Forall NoLineBreak (serializedLines k v).
Proof.
  intros Hk Hcr. unfold serializedLines. destruct (needsQuotes v) eqn:E.
  - apply Forall_prependFirst.
    + intros l Hl. repeat (apply NoLineBreak_app; split);
        try reflexivity; [now apply isIdentifier_NoLineBreak | exact Hl].
    + apply Forall_appendLast; [|now apply splitLines_NoLineBreak].
      intros l Hl. apply NoLineBreak_app. split; [exact Hl | reflexivity].
  - constructor; [|constructor].
    assert (Hlf : searchFrom newline v = false).
    { unfold needsQuotes in E. repeat (apply orb_false_iff in E as [E ?]). exact E. }
    repeat (apply NoLineBreak_app; split);
      try reflexivity;
      [now apply isIdentifier_NoLineBreak | now apply no_newline_one_line].
Qed.

(** X21. The .env text is a faithful copy of the record: when the keys
    are identifiers and the values have no carriage return and no double
    quote, no white space at either end where they are written bare, and
    none at the end of their first line where they span several lines,
    [parseEnv] on the text of [serializeEnv] returns the configuration
    itself, values on several lines included; a property [__proto__]
    apart, which the assignment of [parseEnv] does not create, so that
    the copy is exact for every configuration without one. *)
Theorem parseEnv_serializeEnv_roundtrip :
  forall (config : Config),
    NoDup (keys config) ->
    (forall k v, In (k, v) config -> isIdentifier k = true /\ EnvSafe v) ->
    parseEnv (Some (serializeEnv config)) = parsed (deleteProp "__proto__" config)
    /\ (~ In "__proto__" (keys config) ->
        parseEnv (Some (serializeEnv config)) = parsed config).
Proof.
  intros config Hnd Hsafe.
  refine ((fun H => conj H _) _).
  { intros Hp. rewrite H. now rewrite (deleteProp_absent "__proto__" config Hp). }
  assert (Hs : serialized config = config).
  { apply filter_all. intros [k v] Hin. exact (proj1 (Hsafe k v Hin)). }
  apply (parseEnv_of_entries (fun kv => serializedLines (fst kv) (snd kv))).
  - exact Hnd.
  - intros k v r Hin. destruct (Hsafe k v Hin) as [Hk Hv].
    now apply serializedLines_parsed.
  - rewrite serializeEnv_lines, Hs.
    assert (E : map (fun kv => serializedLine (fst kv) (snd kv)) config
                = map (fun kv => join newline (serializedLines (fst kv) (snd kv))) config).
    { apply map_ext_in. intros [k v] Hin. cbn [fst snd].
      destruct (Hsafe k v Hin) as (_ & Hcr & Hq & _).
      now apply serializedLine_lines. }
    rewrite E, <- join_flat_map
      by (intros [k v] _; apply serializedLines_nonempty).
    rewrite splitLines_joined.
    + destruct config as [|[k v] config]; [reflexivity|].
      cbn [flat_map fst snd].
      pose proof (serializedLines_nonempty k v) as Hne.
      destruct (serializedLines k v); [congruence | reflexivity].
    + apply Forall_flat_map, Forall_forall. intros [k v] Hin. cbn [fst snd].
      destruct (Hsafe k v Hin) as (Hk & Hcr & _).
      now apply serializedLines_NoLineBreak.
Qed.

Lemma parseEnv_serializeEnv_roundtrip_witness :
  let config := [ ("N8N_HOST", "localhost");
                  ("GREETING", "hello world");
                  ("CERTIFICATE", "line one" ++ newline ++ "line two"
                                    ++ newline ++ "line three") ]%string in
  NoDup (keys config)
  /\ (forall k v, In (k, v) config -> isIdentifier k = true /\ EnvSafe v)
  /\ ~ In "__proto__" (keys config)
  /\ parseEnv (Some (serializeEnv config)) = parsed config.
Proof.
  intros config.
  assert (H0 : ~ In "__proto__" (keys config)) by (cbn; intuition discriminate).
  assert (H1 : NoDup (keys config)) by (unfold config; solve_NoDup).
  assert (H2 : forall k v, In (k, v) config -> isIdentifier k = true /\ EnvSafe v).
  { intros k v Hin. cbn in Hin.
    destruct Hin as [Hin|[Hin|[Hin|[]]]]; injection Hin as <- <-;
      (split; [reflexivity|]);
      (split; [reflexivity|]); (split; [reflexivity|]);
      (split; [intros H; try reflexivity; try discriminate H
              | intros H; try reflexivity; try discriminate H]). }
  exact (conj H1 (conj H2 (conj H0
           (proj2 (parseEnv_serializeEnv_roundtrip config H1 H2) H0)))).
Defined.

(* ====================================================================== *)
(** ** Format detection *)

Lemma trimEnd_app (a b : string) :
  trimEnd (a ++ b)%string
  = if (trimEnd b =? "")%string then trimEnd a else (a ++ trimEnd b)%string.
Proof.
  induction a as [|c a IH].
  - cbn [append trimEnd]. now destruct (trimEnd b).
  - cbn [append trimEnd]. rewrite IH.
    destruct (trimEnd b) as [|d t] eqn:E; cbn [String.eqb].
    + reflexivity.
    + now destruct a.
Qed.

Lemma trimEnd_trimEnd (s : string) : trimEnd (trimEnd s) = trimEnd s.
Proof.
  induction s as [|c s IH]; [reflexivity|].
  cbn [trimEnd]. destruct (trimEnd s) as [|d t] eqn:E.
  - destruct (isWhiteSpace c) eqn:W; [reflexivity|]. cbn [trimEnd]. now rewrite W.
  - cbn [trimEnd]. cbn [trimEnd] in IH. rewrite IH. reflexivity.
Qed.

Lemma trim_trimEnd (v : string) : trim v = v -> trimEnd v = v.
Proof. unfold trim. intros H. rewrite <- H at 1. rewrite trimEnd_trimEnd. exact H. Qed.

(** A line that ends in a character other than white space, followed by
    a value without white space at its end. *)
Lemma trimEnd_after (a v : string) (c : ascii) :
  isWhiteSpace c = false -> trimEnd v = v ->
  trimEnd ((a ++ String c "") ++ v)%string = ((a ++ String c "") ++ v)%string.
Proof.
  intros Hc Hv. rewrite trimEnd_app, Hv.
  destruct v as [|d v]; cbn [String.eqb]; [|reflexivity].
  now rewrite (trimEnd_last a c Hc), append_nil_r.
Qed.

Lemma trimEnd_join (lines : list string) (l : string) :
  trimEnd l = l -> l <> "" ->
  trimEnd (join newline (lines ++ [l])) = join newline (lines ++ [l]).
Proof.
  intros Hl Hne. destruct lines as [|x xs]; [exact Hl|].
  rewrite (join_app newline (x :: xs) [l]) by discriminate.
  cbn [join String.concat].
  rewrite <- append_assoc, trimEnd_app, Hl.
  destruct l; [congruence | reflexivity].
Qed.

Lemma assignmentFollows_key (k w : string) :
  allChars isIdentChar k = true ->
  assignmentFollows (k ++ String "="%char w)%string = true.
Proof.
  induction k as [|c k IH]; cbn [allChars append assignmentFollows].
  - reflexivity.
  - intros H. apply andb_true_iff in H as [Hc Hk].
    destruct (identChar_facts c Hc) as (_ & He & _).
    now rewrite He, Hc, (IH Hk).
Qed.

Lemma isEnvLine_assignment (k w : string) :
  isIdentifier k = true ->
  isEnvLine (k ++ String "="%char w)%string = true
  /\ (trim (k ++ String "="%char w) =? "")%string = false.
Proof.
  intros Hid. destruct k as [|c k]; [discriminate|].
  cbn [isIdentifier] in Hid. apply andb_true_iff in Hid as [Hc Hk].
  destruct (identChar_facts c (identStart_identChar c Hc)) as (Hws & _ & _ & _ & Hh).
  unfold isEnvLine. cbn [append].
  destruct (trim_head c (k ++ String "="%char w) Hws) as [t ->].
  cbn [String.eqb startsWith negb andb envLinePattern].
  now rewrite Hh, Hc, (assignmentFollows_key k w Hk).
Qed.

Lemma isEnvLine_comment (rest : string) :
  isEnvLine (String "#"%char rest) = false
  /\ (trim (String "#"%char rest) =? "")%string = false.
Proof.
  unfold isEnvLine. destruct (trim_head "#"%char rest eq_refl) as [t ->].
  split; reflexivity.
Qed.

(** The lines [detectFormat] counts: comments and assignments. *)
Lemma detectFormat_counts (comments assignments : list string) :
  Forall (fun l => exists rest, l = String "#"%char rest) comments ->
  Forall (fun l => exists k w, l = (k ++ String "="%char w)%string
                               /\ isIdentifier k = true) assignments ->
  filter isEnvLine (comments ++ assignments) = assignments
  /\ filter (fun l => negb (trim l =? "")%string) (comments ++ assignments)
     = comments ++ assignments.
Proof.
  intros Hc Ha. rewrite !filter_app. split.
  - rewrite (filter_none isEnvLine comments), (filter_all isEnvLine assignments).
    + reflexivity.
    + intros l Hl. destruct (proj1 (Forall_forall _ _) Ha l Hl) as (k & w & -> & Hk).
      exact (proj1 (isEnvLine_assignment k w Hk)).
    + intros l Hl. destruct (proj1 (Forall_forall _ _) Hc l Hl) as (rest & ->).
      exact (proj1 (isEnvLine_comment rest)).
  - rewrite (filter_all _ comments), (filter_all _ assignments).
    + reflexivity.
    + intros l Hl. destruct (proj1 (Forall_forall _ _) Ha l Hl) as (k & w & -> & Hk).
      now rewrite (proj2 (isEnvLine_assignment k w Hk)).
    + intros l Hl. destruct (proj1 (Forall_forall _ _) Hc l Hl) as (rest & ->).
      now rewrite (proj2 (isEnvLine_comment rest)).
Qed.

Lemma join_head (c : ascii) (x : string) (xs : list string) :
  exists rest, join newline (String c x :: xs) = String c rest.
Proof. destruct xs; cbn; eauto. Qed.

Lemma trim_join_lines (lines : list string) (l : string) (c : ascii) (rest : string) :
  isWhiteSpace c = false ->
  join newline (lines ++ [l]) = String c rest ->
  trimEnd l = l -> l <> "" ->
  trim (join newline (lines ++ [l])) = join newline (lines ++ [l]).
Proof.
  intros Hc Hjoin Hl Hne. unfold trim.
  assert (E : trimStart (join newline (lines ++ [l])) = join newline (lines ++ [l])).
  { rewrite Hjoin. cbn [trimStart]. now rewrite Hc. }
  rewrite E. now apply trimEnd_join.
Qed.

Lemma searchFrom_app_false (lit a b : string) :
  searchFrom lit (a ++ b)%string = false -> searchFrom lit a = false.
Proof.
  intros H. destruct (searchFrom lit a) eqn:E; [|reflexivity].
  apply searchFrom_spec in E as (before & after & ->).
  assert (T : searchFrom lit ((before ++ lit ++ after) ++ b)%string = true).
  { apply searchFrom_spec. exists before, (after ++ b)%string.
    now rewrite !append_assoc. }
  congruence.
Qed.

Lemma envLine_trimEnd (k v : string) :
  trim v = v -> trimEnd (envLine (k, v)) = envLine (k, v).
Proof.
  intros Hv. unfold envLine.
  rewrite <- (append_assoc k "=" v).
  apply (trimEnd_after k v "="%char eq_refl). now apply trim_trimEnd.
Qed.

Lemma serializedLine_trimEnd (k v : string) :
  (needsQuotes v = false -> trim v = v) ->
  trimEnd (serializedLine k v) = serializedLine k v.
Proof.
  intros Hv. unfold serializedLine. destruct (needsQuotes v).
  - unfold dquote at 2.
    rewrite <- !append_assoc. apply trimEnd_last. reflexivity.
  - rewrite <- (append_assoc k "=" v).
    apply (trimEnd_after k v "="%char eq_refl). apply trim_trimEnd. now apply Hv.
Qed.

Lemma identStart_facts (c : ascii) :
  isIdentStart c = true -> Ascii.eqb "{"%char c = false.
Proof.
  destruct c as [[] [] [] [] [] [] [] []]; vm_compute; intuition discriminate.
Qed.

Lemma trim_with_tail (text tail : string) (c : ascii) (rest : string) :
  text = String c rest -> isWhiteSpace c = false ->
  trimEnd text = text -> trimEnd tail = "" ->
  trim (text ++ tail)%string = text.
Proof.
  intros E Hc Ht Htail. unfold trim.
  assert (Hs : trimStart (text ++ tail)%string = (text ++ tail)%string).
  { rewrite E. cbn [append trimStart]. now rewrite Hc. }
  now rewrite Hs, trimEnd_app, Htail.
Qed.

Lemma last_or_nil {A : Type} (l : list A) : l = [] \/ exists xs x, l = xs ++ [x].
Proof.
  destruct l as [|a l]; [now left|]. right.
  destruct (@exists_last _ (a :: l) ltac:(discriminate)) as (xs & x & E). eauto.
Qed.

Lemma generateEnvOutput_shape (timestamp : string) (entries : list (string * string))
  (options : GeneratorOptions) :
  generateEnvOutput timestamp entries options
  = (join newline
       [ ("# Generated by n8n Configuration Wizard v"
            ++ orElse (wizardVersion options) "1.0.0")%string;
         ("# Timestamp: " ++ timestamp)%string;
         "#"%string ]
     ++ String LF (join newline (map envLine entries)))%string.
Proof.
  rewrite generateEnvOutput_text. cbn [join String.concat].
  unfold newline. change "
"%string with (String LF ""). rewrite !append_assoc. cbn [append].
  now rewrite ?append_assoc.
Qed.

(** The text of the environment file, trimmed as [detectFormat] does. *)
Lemma generateEnvOutput_trimmed (timestamp : string) (entries : list (string * string))
  (options : GeneratorOptions) :
  (forall k v, In (k, v) entries -> isIdentifier k = true /\ PlainValue v) ->
  let heading :=
    [ ("# Generated by n8n Configuration Wizard v"
         ++ orElse (wizardVersion options) "1.0.0")%string;
      ("# Timestamp: " ++ timestamp)%string;
      "#"%string ] in
  let lines := heading ++ map envLine entries in
  trim (generateEnvOutput timestamp entries options) = join newline lines
  /\ exists tail,
       generateEnvOutput timestamp entries options
       = (join newline lines ++ tail)%string.
Proof.
  intros Hplain heading lines. rewrite generateEnvOutput_shape. fold heading.
  assert (Hhead : forall more, exists rest,
             join newline (heading ++ more) = String "#"%char rest).
  { intros more.
    exact (join_head "#"%char
             (" Generated by n8n Configuration Wizard v"
                ++ orElse (wizardVersion options) "1.0.0")
             (("# Timestamp: " ++ timestamp)%string :: "#"%string :: more)). }
  destruct (last_or_nil entries) as [E|(es & [k v] & E)].
  - subst entries lines. cbn [map]. rewrite app_nil_r.
    change (join newline []) with ""%string.
    destruct (Hhead []) as [rest Hrest]. rewrite app_nil_r in Hrest.
    split; [|now exists (String LF "")].
    apply (trim_with_tail _ _ "#"%char rest Hrest eq_refl); [|reflexivity].
    apply (trimEnd_join [ _; _ ] "#"); [reflexivity | discriminate].
  - destruct (Hplain k v ltac:(rewrite E; apply in_or_app; right; now left))
      as [Hk (_ & Ht & _)].
    assert (Hne : map envLine entries <> []) by (rewrite E; now destruct es).
    assert (Hjoin : (join newline heading
                       ++ String LF (join newline (map envLine entries)))%string
                    = join newline lines).
    { subst lines. now rewrite (join_app newline heading _ ltac:(discriminate) Hne). }
    rewrite Hjoin. split; [|exists ""%string; now rewrite append_nil_r].
    destruct (Hhead (map envLine entries)) as [rest Hrest]. fold lines in Hrest.
    rewrite <- (append_nil_r (join newline lines)) at 1.
    apply (trim_with_tail _ _ "#"%char rest Hrest eq_refl); [|reflexivity].
    subst lines. rewrite E, map_app, app_assoc. cbn [map].
    apply trimEnd_join; [now apply envLine_trimEnd|].
    destruct k; [discriminate Hk | discriminate].
Qed.

Section DetectFormatFacts.
Variable parsesAsConfigExport : string -> bool.
Variable parseDockerCompose : option string -> ParseResult Config.
Variable parseJson : option string -> ParseResult ConfigExport.

Lemma detectFormat_env_lines (content : string) (comments assignments : list string) :
  content <> "" ->
  startsWith "{" (trim content) = false ->
  searchFrom "services:" (trim content) = false ->
  splitLines (trim content) = comments ++ assignments ->
  Forall (fun l => exists rest, l = String "#"%char rest) comments ->
  Forall (fun l => exists k w, l = (k ++ String "="%char w)%string
                               /\ isIdentifier k = true) assignments ->
  detectFormat parsesAsConfigExport (Some content)
  = if (0 <? List.length assignments)%nat
       && (List.length comments + List.length assignments
           <=? 2 * List.length assignments)%nat
    then ImportEnv else ImportUnknown.
Proof.
  intros Hne Hjson Hyaml Hlines Hc Ha. unfold detectFormat.
  apply string_eqb_false in Hne. rewrite Hne, Hjson, Hyaml, Hlines.
  cbn [andb]. destruct (detectFormat_counts comments assignments Hc Ha) as [-> ->].
  now rewrite length_app.
Qed.

(** X23. How [detectFormat] sees the environment file of the generator.
    Let the format be [env], let the timestamp and the wizard version
    hold no line break, let the key of every non-empty value be an
    identifier and the value be plain (on one line, without white space
    at either end, not opening with a quote), and let the text of
    [generateOutput] not contain [services:]. Then the three header
    lines count as lines that are no assignments, so the text is taken
    for an .env file exactly when it carries at least three entries, and
    for nothing known otherwise. [parseAuto] then parses it as [parseEnv]
    does in the first case and fails with the message for an unknown
    format in the second. [JSON.parse], [parseDockerCompose] and
    [parseJson] are parameters. *)
Theorem parseAuto_generateOutput_env :
  forall (timestamp : string) (config : Config) (options : GeneratorOptions),
    format options = "env" ->
    NoLineBreak timestamp ->
    NoLineBreak (orElse (wizardVersion options) "1.0.0") ->
    (forall k v, In (k, v) config -> v <> "" ->
                 isIdentifier k = true /\ PlainValue v) ->
    let text := generateOutput timestamp config (inr options) in
    let shown := outputEntries config (flag (maskSecrets options)) in
    searchFrom "services:" text = false ->
    detectFormat parsesAsConfigExport (Some text)
    = (if (3 <=? List.length shown)%nat then ImportEnv else ImportUnknown)
    /\ parseAuto parsesAsConfigExport parseDockerCompose parseJson (Some text)
       = (if (3 <=? List.length shown)%nat then parseEnv (Some text)
          else {| success := false; data := None;
                  errorText := Some UNKNOWN_FORMAT_MESSAGE |}).
Proof.
  intros timestamp config options Hf Hts Hver Hplain text shown Hyaml.
  assert (Htext : text = generateEnvOutput timestamp shown options).
  { subst text shown. unfold generateOutput, flag. now rewrite Hf. }
  assert (Hshown : forall k v, In (k, v) shown -> isIdentifier k = true /\ PlainValue v)
    by (apply outputEntries_plain, Hplain).
  destruct (generateEnvOutput_trimmed timestamp shown options Hshown)
    as [Htrim (tail & Htail)].
  cbv zeta in Htrim, Htail. rewrite <- Htext in Htrim, Htail.
  set (heading := [ ("# Generated by n8n Configuration Wizard v"
                       ++ orElse (wizardVersion options) "1.0.0")%string;
                    ("# Timestamp: " ++ timestamp)%string;
                    "#"%string ]) in *.
  assert (Hhead : exists rest,
             join newline (heading ++ map envLine shown) = String "#"%char rest).
  { exact (join_head "#"%char
             (" Generated by n8n Configuration Wizard v"
                ++ orElse (wizardVersion options) "1.0.0")
             (("# Timestamp: " ++ timestamp)%string :: "#"%string
                :: map envLine shown)). }
  destruct Hhead as [rest Hrest].
  assert (Hdetect : detectFormat parsesAsConfigExport (Some text)
                    = if (3 <=? List.length shown)%nat then ImportEnv else ImportUnknown).
  { rewrite (detectFormat_env_lines text heading (map envLine shown)).
    - rewrite length_map. cbn [List.length heading].
      destruct (Nat.leb_spec 3 (List.length shown)) as [H|H].
      + destruct (Nat.ltb_spec 0 (List.length shown)) as [_|H']; [|lia].
        destruct (Nat.leb_spec (3 + List.length shown) (2 * List.length shown))
          as [_|H']; [reflexivity | lia].
      + destruct (Nat.leb_spec (3 + List.length shown) (2 * List.length shown))
          as [H'|_]; [lia | now rewrite andb_false_r].
    - rewrite Htail, Hrest. discriminate.
    - rewrite Htrim, Hrest. reflexivity.
    - rewrite Htrim. apply (searchFrom_app_false _ _ tail). now rewrite <- Htail.
    - rewrite Htrim. subst heading. cbn [app].
      apply splitLines_join. repeat constructor.
      + apply NoLineBreak_app. split; [reflexivity | exact Hver].
      + apply NoLineBreak_app. split; [reflexivity | exact Hts].
      + apply Forall_forall. intros l Hl. apply in_map_iff in Hl as [[k v] [<- Hin]].
        destruct (Hshown k v Hin). now apply envLine_NoLineBreak.
    - subst heading. repeat constructor; eexists; reflexivity.
    - apply Forall_forall. intros l Hl. apply in_map_iff in Hl as [[k v] [<- Hin]].
      exists k, v. split; [reflexivity | exact (proj1 (Hshown k v Hin))]. }
  split; [exact Hdetect|].
  unfold parseAuto. rewrite Hdetect.
  now destruct (3 <=? List.length shown)%nat.
Qed.

(** X24. The text of [serializeEnv] is taken for an .env file: when at
    least one key is an identifier, the values are on one line each, a
    value written bare has no white space at either end, and the text
    does not mention [services:], [detectFormat] answers [env] and
    [parseAuto] parses the text as [parseEnv] does. *)
Theorem parseAuto_serializeEnv :
  forall (config : Config),
    serialized config <> [] ->
    (forall k v, In (k, v) config -> isIdentifier k = true ->
                 NoLineBreak v /\ (needsQuotes v = false -> trim v = v)) ->
    searchFrom "services:" (serializeEnv config) = false ->
    detectFormat parsesAsConfigExport (Some (serializeEnv config)) = ImportEnv
    /\ parseAuto parsesAsConfigExport parseDockerCompose parseJson
         (Some (serializeEnv config))
       = parseEnv (Some (serializeEnv config)).
Proof.
  intros config Hne Hvalues Hyaml.
  assert (Hs : forall k v, In (k, v) (serialized config) ->
                 isIdentifier k = true
                 /\ NoLineBreak v /\ (needsQuotes v = false -> trim v = v)).
  { intros k v H. apply filter_In in H as [Hin Hk]. cbn [fst] in Hk.
    split; [exact Hk | now apply (Hvalues k v)]. }
  set (lines := map (fun kv => serializedLine (fst kv) (snd kv)) (serialized config)).
  assert (Htext : serializeEnv config = join newline lines)
    by apply serializeEnv_lines.
  assert (Hlines : Forall (fun l => exists k w, l = (k ++ String "="%char w)%string
                                               /\ isIdentifier k = true) lines).
  { apply Forall_forall. intros l Hl. apply in_map_iff in Hl as [[k v] [<- Hin]].
    cbn [fst snd]. destruct (Hs k v Hin) as [Hk _]. unfold serializedLine.
    destruct (needsQuotes v); eexists k, _; (split; [reflexivity | exact Hk]). }
  assert (Hfirst : exists c rest, isIdentStart c = true
                                  /\ join newline lines = String c rest).
  { subst lines. destruct (serialized config) as [|[k v] es] eqn:E; [congruence|].
    destruct (Hs k v (or_introl eq_refl)) as [Hk _].
    destruct k as [|c k']; [discriminate|].
    cbn [isIdentifier] in Hk. apply andb_true_iff in Hk as [Hc _].
    exists c. cbn [map fst snd].
    assert (Hl : exists x, serializedLine (String c k') v = String c x).
    { unfold serializedLine. destruct (needsQuotes v); cbn [append]; eauto. }
    destruct Hl as [x ->].
    destruct (join_head c x (map (fun kv => serializedLine (fst kv) (snd kv)) es))
      as [rest ->].
    eauto. }
  destruct Hfirst as (c & rest & Hc & Hjoin).
  assert (Htrim : trim (serializeEnv config) = serializeEnv config).
  { rewrite Htext.
    destruct (last_or_nil (serialized config)) as [E|(es & [k v] & E)]; [congruence|].
    assert (El : lines = map (fun kv => serializedLine (fst kv) (snd kv)) es
                         ++ [serializedLine k v]).
    { subst lines. now rewrite E, map_app. }
    rewrite El in Hjoin |- *.
    destruct (Hs k v ltac:(rewrite E; apply in_or_app; right; now left))
      as (Hk & _ & Hv).
    apply (trim_join_lines _ _ c rest).
    - apply (identChar_facts c (identStart_identChar c Hc)).
    - exact Hjoin.
    - now apply serializedLine_trimEnd.
    - unfold serializedLine. destruct k; [discriminate Hk|].
      destruct (needsQuotes v); discriminate. }
  assert (Hdetect : detectFormat parsesAsConfigExport (Some (serializeEnv config))
                    = ImportEnv).
  { rewrite (detectFormat_env_lines (serializeEnv config) [] lines).
    - cbn [List.length Nat.add app].
      assert (Hlen : 0 < List.length lines).
      { subst lines. rewrite length_map. destruct (serialized config);
          [congruence | cbn; lia]. }
      destruct (Nat.ltb_spec 0 (List.length lines)) as [_|H']; [|lia].
      destruct (Nat.leb_spec (List.length lines) (2 * List.length lines))
        as [_|H']; [reflexivity | lia].
    - rewrite Htext, Hjoin. discriminate.
    - rewrite Htrim, Htext, Hjoin. cbn [startsWith].
      now rewrite (identStart_facts c Hc).
    - now rewrite Htrim.
    - rewrite Htrim, Htext. cbn [app].
      destruct lines as [|l ls] eqn:El.
      + subst lines. destruct (serialized config); [congruence | discriminate El].
      + apply splitLines_join. rewrite <- El. subst lines.
        apply Forall_forall. intros x Hx. apply in_map_iff in Hx as [[k v] [<- Hin]].
        cbn [fst snd]. destruct (Hs k v Hin) as (Hk & Hv & _).
        now apply serializedLine_NoLineBreak.
    - constructor.
    - exact Hlines. }
  split; [exact Hdetect|]. unfold parseAuto. now rewrite Hdetect.
Qed.

End DetectFormatFacts.

Lemma parseAuto_generateOutput_env_witness :
  let config := [("N8N_HOST", "localhost"); ("N8N_PORT", "5678")]%string in
  let options := formatOnly "env" in
  let text := generateOutput "2024-01-01T00:00:00.000Z" config (inr options) in
  let unused := fun (T : Type) (_ : option string) =>
                  {| success := false; data := @None T; errorText := None |} in
  format options = "env"
  /\ NoLineBreak "2024-01-01T00:00:00.000Z"
  /\ NoLineBreak (orElse (wizardVersion options) "1.0.0")
  /\ (forall k v, In (k, v) config -> v <> "" ->
                  isIdentifier k = true /\ PlainValue v)
  /\ searchFrom "services:" text = false
  /\ detectFormat (fun _ => false) (Some text) = ImportUnknown
  /\ success (parseAuto (fun _ => false) (unused Config) (unused ConfigExport) (Some text))
     = false.
Proof.
  intros config options text unused.
  assert (H1 : format options = "env") by reflexivity.
  assert (H2 : NoLineBreak "2024-01-01T00:00:00.000Z") by reflexivity.
  assert (H3 : NoLineBreak (orElse (wizardVersion options) "1.0.0")) by reflexivity.
  assert (H4 : forall k v, In (k, v) config -> v <> "" ->
                           isIdentifier k = true /\ PlainValue v).
  { intros k v Hin _. cbn in Hin.
    destruct Hin as [Hin|[Hin|[]]]; injection Hin as <- <-; repeat split. }
  assert (H5 : searchFrom "services:" text = false) by (vm_compute; reflexivity).
  pose proof (parseAuto_generateOutput_env
                (fun _ => false) (unused Config) (unused ConfigExport)
                "2024-01-01T00:00:00.000Z" config options H1 H2 H3 H4 H5) as [Hd Hp].
  refine (conj H1 (conj H2 (conj H3 (conj H4 (conj H5 (conj Hd _)))))).
  fold text in Hp. rewrite Hp. reflexivity.
Defined.

Lemma parseAuto_serializeEnv_witness :
  let config := [("N8N_HOST", "localhost"); ("my key", "x")]%string in
  let unused := fun (T : Type) (_ : option string) =>
                  {| success := false; data := @None T; errorText := None |} in
  serialized config <> []
  /\ (forall k v, In (k, v) config -> isIdentifier k = true ->
                  NoLineBreak v /\ (needsQuotes v = false -> trim v = v))
  /\ searchFrom "services:" (serializeEnv config) = false
  /\ detectFormat (fun _ => false) (Some (serializeEnv config)) = ImportEnv.
Proof.
  intros config unused.
  assert (H1 : serialized config <> []) by discriminate.
  assert (H2 : forall k v, In (k, v) config -> isIdentifier k = true ->
                           NoLineBreak v /\ (needsQuotes v = false -> trim v = v)).
  { intros k v Hin _. cbn in Hin.
    destruct Hin as [Hin|[Hin|[]]]; injection Hin as <- <-; split; reflexivity. }
  assert (H3 : searchFrom "services:" (serializeEnv config) = false)
    by (vm_compute; reflexivity).
  exact (conj H1 (conj H2 (conj H3
           (proj1 (parseAuto_serializeEnv
                     (fun _ => false) (unused Config) (unused ConfigExport)
                     config H1 H2 H3))))).
Defined.

(* ====================================================================== *)
(** ** A key assigned more than once *)

Lemma lookup_app {V : Type} (k : string) (a b : Obj V) :
  lookup k (a ++ b) = match lookup k a with
                      | Some v => Some v
                      | None => lookup k b
                      end.
Proof.
  induction a as [|[k' v'] a IH]; [reflexivity|].
  cbn [app lookup]. now destruct (k' =? k)%string.
Qed.

Lemma lookup_assign {V : Type} (k k0 : string) (v0 : V) (o : Obj V) :
  lookup k (assign k0 v0 o) = if (k0 =? k)%string then Some v0 else lookup k o.
Proof.
  destruct (String.eqb_spec k0 k) as [->|Hne].
  - apply lookup_assign_same.
  - apply lookup_assign_other. congruence.
Qed.

Lemma lookup_fold_assign (k : string) (es acc : Config) :
  lookup k (fold_left (fun r kv => assign (fst kv) (snd kv) r) es acc)
  = match lookup k (rev es) with
    | Some v => Some v
    | None => lookup k acc
    end.
Proof.
  revert acc. induction es as [|[k0 v0] es IH]; intros acc; [reflexivity|].
  cbn [fold_left fst snd rev]. rewrite IH, lookup_app, lookup_assign.
  cbn [lookup]. destruct (lookup k (rev es)); [reflexivity|].
  now destruct (k0 =? k)%string.
Qed.

Lemma setProperty_other {V : Type} (k : string) (v : V) (o : Obj V) :
  k <> "__proto__" -> setProperty k v o = assign k v o.
Proof.
  intros H. unfold setProperty. destruct (hasKey k o); [reflexivity|].
  apply string_eqb_false in H. now rewrite H.
Qed.

(** Assignments to an object that has no property [__proto__]: those
    to [__proto__] store nothing, the others are plain assignments. *)
Lemma fold_setProperty (norm : string -> string) (es : Config) :
  forall acc,
    ~ In "__proto__" (keys acc) ->
    fold_left (fun r kv => setProperty (fst kv) (norm (snd kv)) r) es acc
    = fold_left (fun r kv => assign (fst kv) (norm (snd kv)) r)
                (deleteProp "__proto__" es) acc.
Proof.
  induction es as [|[k v] es IH]; intros acc Hp; [reflexivity|].
  cbn [fold_left fst snd]. unfold deleteProp. cbn [filter fst].
  destruct (String.eqb_spec k "__proto__") as [->|Hne]; cbn [negb].
  - rewrite (setProperty_proto _ acc Hp). now apply IH.
  - cbn [fold_left fst snd]. rewrite (setProperty_other k _ acc Hne).
    apply IH. rewrite keys_assign. destruct (hasKey k acc); [exact Hp|].
    rewrite in_app_iff. cbn [In]. intros [H|[H|[]]]; [now apply Hp | congruence].
Qed.

Lemma deleteProp_rev {V : Type} (k : string) (o : Obj V) :
  deleteProp k (rev o) = rev (deleteProp k o).
Proof.
  unfold deleteProp. induction o as [|kv o IH]; [reflexivity|].
  cbn [rev filter]. rewrite filter_app, IH. cbn [filter].
  destruct (negb (fst kv =? k)%string); [reflexivity|].
  now rewrite app_nil_r.
Qed.

(** X25. A key assigned on several lines: for a text made of plain
    [KEY=value] lines, [parseEnv] returns the record built by assigning
    the lines in order, so the value of a key is the one of its last
    line, and the key stands where its first line put it. The lines that
    assign to [__proto__] are the exception: they store nothing, and the
    record has no such property. *)
Theorem parseEnv_last_assignment_wins :
  forall (assignments : list (string * string)),
    (forall k v, In (k, v) assignments -> isIdentifier k = true /\ PlainValue v) ->
    let result :=
      fold_left (fun r kv => assign (fst kv) (snd kv) r)
                (deleteProp "__proto__" assignments) [] in
    parseEnv (Some (join newline (map envLine assignments))) = parsed result
    /\ (forall k, k <> "__proto__" -> lookup k result = lookup k (rev assignments))
    /\ lookup "__proto__" result = None.
Proof.
  intros es Hes result.
  assert (Hlookup : forall k,
             lookup k result = lookup k (deleteProp "__proto__" (rev es))).
  { intros k. subst result. rewrite (lookup_fold_assign k _ []), deleteProp_rev.
    now destruct (lookup k (rev (deleteProp "__proto__" es))). }
  split; [|split].
  - apply parseEnv_of_lines. rewrite splitLines_joined.
    + assert (H : fold_left parseEnvLine (map envLine es) (idle []) = idle result).
      { rewrite (fold_assignments envLine id es).
        - f_equal. subst result.
          exact (fold_setProperty id es [] (fun H => H)).
        - intros k v r Hin. destruct (Hes k v Hin). now apply envLine_parsed. }
      destruct es as [|e es']; [reflexivity | exact H].
    + apply Forall_forall. intros l Hl. apply in_map_iff in Hl as [[k v] [<- Hin]].
      destruct (Hes k v Hin). now apply envLine_NoLineBreak.
  - intros k Hk. rewrite Hlookup. now apply lookup_deleteProp_other.
  - rewrite Hlookup. apply lookup_deleteProp_same.
Qed.

Lemma parseEnv_last_assignment_wins_witness :
  let assignments := [("N8N_PORT", "5678"); ("__proto__", "p");
                      ("N8N_HOST", "localhost"); ("N8N_PORT", "9000")]%string in
  (forall k v, In (k, v) assignments -> isIdentifier k = true /\ PlainValue v)
  /\ parseEnv (Some (join newline (map envLine assignments)))
     = parsed [("N8N_PORT", "9000"); ("N8N_HOST", "localhost")]%string.
Proof.
  intros assignments.
  assert (H : forall k v, In (k, v) assignments -> isIdentifier k = true /\ PlainValue v).
  { intros k v Hin. cbn in Hin.
    destruct Hin as [Hin|[Hin|[Hin|[Hin|[]]]]]; injection Hin as <- <-; repeat split. }
  exact (conj H (proj1 (parseEnv_last_assignment_wins assignments H))).
Defined.

(* ====================================================================== *)
(** ** The fields that are masked *)

Lemma sensitive_registry_check :
  forallb (fun v =>
             Bool.eqb (isSensitiveField (var_name v))
                      (includes SENSITIVE_FIELDS (var_name v)
                       || (var_name v =? "N8N_SSL_KEY")%string
                       || (var_name v =? "N8N_SOURCECONTROL_DEFAULT_SSH_KEY_TYPE")%string))
          registryVariables = true.
Proof. vm_compute. reflexivity. Qed.

Lemma sensitive_fields_check :
  forallb (fun f => isSensitiveField f && includes (map var_name registryVariables) f)
          SENSITIVE_FIELDS = true.
Proof. vm_compute. reflexivity. Qed.

(** X26. What masking covers: every field of [SENSITIVE_FIELDS] is a
    declared variable that [isSensitiveField] recognises, so its
    non-empty value is rendered as the placeholder when [maskSecrets] is
    on; among the declared variables the patterns recognise these and two
    more, [N8N_SSL_KEY] and [N8N_SOURCECONTROL_DEFAULT_SSH_KEY_TYPE], and
    no other. *)
Theorem masking_covers_sensitive_fields :
  (forall f, In f SENSITIVE_FIELDS ->
     isSensitiveField f = true
     /\ In f (map var_name registryVariables)
     /\ forall (config : Config) (v : string),
          In (f, v) (outputEntries config true) -> v = SECRET_PLACEHOLDER)
  /\ (forall v, In v registryVariables ->
        (isSensitiveField (var_name v) = true <->
         In (var_name v) SENSITIVE_FIELDS
         \/ var_name v = "N8N_SSL_KEY"
         \/ var_name v = "N8N_SOURCECONTROL_DEFAULT_SSH_KEY_TYPE")).
Proof.
  split.
  - intros f Hf.
    pose proof (proj1 (forallb_forall _ _) sensitive_fields_check f Hf) as H.
    apply andb_true_iff in H as [Hs Hd]. apply includes_In in Hd.
    split; [exact Hs | split; [exact Hd|]].
    intros config v Hin. apply outputEntries_In in Hin as (v0 & _ & _ & ->).
    now rewrite Hs.
  - intros v Hv.
    pose proof (proj1 (forallb_forall _ _) sensitive_registry_check v Hv) as H.
    apply Bool.eqb_prop in H. rewrite H, !orb_true_iff, includes_In, !String.eqb_eq.
    tauto.
Qed.

Lemma masking_covers_sensitive_fields_witness :
  In "N8N_SMTP_PASS" SENSITIVE_FIELDS
  /\ isSensitiveField "N8N_SMTP_PASS" = true
  /\ In "N8N_SMTP_PASS" (map var_name registryVariables).
Proof.
  assert (H : In "N8N_SMTP_PASS" SENSITIVE_FIELDS) by (cbn; tauto).
  destruct (proj1 masking_covers_sensitive_fields _ H) as (Hs & Hd & _).
  exact (conj H (conj Hs Hd)).
Defined.
